(** * A shallow embedding of the multi-provider proxy and its usage logger

    The development follows the two source files that carry the logic:

    - [logger.js] (class [UsageLogger]): provider detection, cost
      calculation, the log entry built per response, the per-user summary
      document and the recent-log query;
    - [server.js]: the Anthropic and Gemini request/response translations
      and the unified dispatch route.

    Conventions of the embedding.

    - A JavaScript string is a [string]; its characters stand for code units
      in the Latin-1 range.
    - A JavaScript number that the code computes with (token counts, rates,
      costs) is a binary64 [float], with the IEEE operations of the kernel:
      [/], [*] and [+] below are the very operations the program runs.
    - A counter that the program creates at [0] and only bumps by one is a
      natural number [N].
    - An instant is a number of milliseconds since the epoch ([Z]); the
      ISO-8601 text [toISOString] prints and [new Date] reads back stands
      for the same instant. A number of hours is an integer, and the age
      of an entry in hours is the exact quotient of two integers ([Q]).
    - An object used as a dictionary is a map over its own keys, read
      through [Js.member]: a key that the object does not have itself is
      answered by the member of that name that every object inherits from
      [Object.prototype], when there is one. [Object.prototype] is as the
      language defines it: the model describes the process as long as no
      summary update for the user id [__proto__] has run, which would add
      members to it.
    - The summary document is what [JSON.parse] reads from the file: its
      numbers are finite, and a total that was not finite when it was
      written is [null].
    - A value that may be [undefined] is an [option]. *)

From Stdlib Require Import ZArith QArith Ascii String Floats.PrimFloat
  Floats.SpecFloat Floats.FloatOps Floats.FloatAxioms
  Sorting.Sorted Sorting.Permutation.
From stdpp Require Import base option list gmap strings pretty.

Set Warnings "-inexact-float".
Local Open Scope string_scope.
Local Open Scope list_scope.

(** ** JavaScript helpers *)

Module Js.

(** The line feed, as a one-character string. *)
Definition LF : string := String "010"%char EmptyString.

(** [hay.startsWith(needle)]. *)
Fixpoint startsWith (needle hay : string) : bool :=
  match needle, hay with
  | EmptyString, _ => true
  | String _ _, EmptyString => false
  | String a n, String b h => if Ascii.eqb a b then startsWith n h else false
  end.

(** [hay.includes(needle)]. *)
Fixpoint includes (needle hay : string) : bool :=
  startsWith needle hay ||
  match hay with
  | EmptyString => false
  | String _ h => includes needle h
  end.

(** [c.toLowerCase()] on one Latin-1 code unit: [A-Z] and the accented
    capitals [U+00C0-U+00DE] (the multiplication sign apart) move down by
    32, every other unit stays. *)
Definition lower_char (c : ascii) : ascii :=
  let n := N_of_ascii c in
  if ((65 <=? n) && (n <=? 90))%N
     || ((192 <=? n) && (n <=? 222) && negb (n =? 215))%N
  then ascii_of_N (n + 32) else c.

Fixpoint toLowerCase (s : string) : string :=
  match s with
  | EmptyString => EmptyString
  | String c r => String (lower_char c) (toLowerCase r)
  end.

(** [Array.prototype.join]. *)
Fixpoint join (sep : string) (l : list string) : string :=
  match l with
  | [] => ""
  | [x] => x
  | x :: r => x +:+ sep +:+ join sep r
  end.

(** A number is falsy when it is [0], [-0] or [NaN]. *)
Definition truthy_number (x : float) : bool :=
  negb (PrimFloat.eqb x 0%float || PrimFloat.is_nan x).

(** [x || 0] for a numeric field that may be missing. *)
Definition or_zero (x : option float) : float :=
  match x with
  | Some v => if truthy_number v then v else 0%float
  | None => 0%float
  end.

(** [ToNumber] of a numeric field that may be missing: [undefined] is
    [NaN]. *)
Definition to_number (x : option float) : float :=
  match x with
  | Some v => v
  | None => PrimFloat.nan
  end.

(** What a number is after [JSON.stringify] and [JSON.parse]: [NaN] and
    the infinities are written as [null], negative zero as [0], and every
    other number reads back as it was. *)
Definition json_number (x : float) : option float :=
  if PrimFloat.is_nan x || PrimFloat.is_infinity x then None
  else if PrimFloat.eqb x 0%float then Some 0%float
  else Some x.

(** The members that every object inherits from [Object.prototype]. *)
Definition object_members : list string :=
  [ "constructor"; "__defineGetter__"; "__defineSetter__"; "hasOwnProperty";
    "__lookupGetter__"; "__lookupSetter__"; "isPrototypeOf";
    "propertyIsEnumerable"; "toString"; "valueOf"; "__proto__";
    "toLocaleString" ].

Definition inherited (key : string) : bool :=
  existsb (String.eqb key) object_members.

(** What [obj[key]] answers for an object used as a dictionary: the value
    of its own property; or, without one, the member of that name that it
    inherits (a function, or the prototype itself under [__proto__]: a
    truthy value that has none of the properties the program reads); or
    [undefined]. *)
Inductive Member (A : Type) :=
| Own (a : A)
| Inherited
| Missing.

Arguments Own {A} a.
Arguments Inherited {A}.
Arguments Missing {A}.

(** [own] is the own property under [key], when there is one. *)
Definition member {A : Type} (own : option A) (key : string) : Member A :=
  match own with
  | Some a => Own a
  | None => if inherited key then Inherited else Missing
  end.

(** [s || d] for a string that may be missing: the empty string is
    falsy. *)
Definition or_string (s : option string) (d : string) : string :=
  match s with
  | Some v => if String.eqb v "" then d else v
  | None => d
  end.

(** White space and line terminators, which [trim] removes. *)
Definition white_space (c : ascii) : bool :=
  let n := N_of_ascii c in
  ((9 <=? n) && (n <=? 13))%N || (n =? 32)%N || (n =? 160)%N.

Fixpoint trimStart (s : string) : string :=
  match s with
  | EmptyString => EmptyString
  | String c r => if white_space c then trimStart r else s
  end.

Fixpoint trimEnd (s : string) : string :=
  match s with
  | EmptyString => EmptyString
  | String c r =>
      match trimEnd r with
      | EmptyString => if white_space c then EmptyString else String c EmptyString
      | r' => String c r'
      end
  end.

(** [s.trim()]. *)
Definition trim (s : string) : string := trimEnd (trimStart s).

(** [s.split('\n')]: the pieces between line feeds; the empty string
    splits into one empty piece. *)
Fixpoint split_lines (s : string) : list string :=
  match s with
  | EmptyString => [EmptyString]
  | String c r =>
      if Ascii.eqb c "010"%char then EmptyString :: split_lines r
      else match split_lines r with
           | h :: t => String c h :: t
           | [] => [String c EmptyString]
           end
  end.

End Js.

(** ** server.js: the provider translations and the unified route *)

Module Server.

(** *** Chat messages, as the request body carries them *)

(** One element of an array-valued [content]. *)
Inductive Item :=
| ItemText (text : string)          (* { type: 'text', text } *)
| ItemImageUrl (url : string)       (* { type: 'image_url', image_url: { url } } *)
| ItemOther (type : string).        (* any other type *)

(** [msg.content]: a string, an array of items, or missing. *)
Inductive Content :=
| ContentString (s : string)
| ContentArray (items : list Item)
| ContentMissing.

Record Message := { role : string; content : Content }.

(** *** The Gemini content list *)

Inductive Part :=
| PartText (text : string)                    (* { text } *)
| PartInlineData (mime_type data : string).   (* { inline_data: { mime_type, data } } *)

Record GeminiContent := { g_role : string; parts : list Part }.

(** Truthiness of the value held in [systemPrompt]: a string is truthy when
    it is not empty, an array always, a missing value never. *)
Definition truthy (c : Content) : bool :=
  match c with
  | ContentString s => negb (String.eqb s "")
  | ContentArray _ => true
  | ContentMissing => false
  end.

(** The text a template literal prints for the value held in
    [systemPrompt]: a string prints as itself, an array as its elements
    joined by commas, each object element as [[object Object]]. *)
Definition template (c : Content) : string :=
  match c with
  | ContentString s => s
  | ContentArray items => Js.join "," (map (fun _ => "[object Object]") items)
  | ContentMissing => "undefined"
  end.

(** Line terminators, which [.] of a regular expression does not match. *)
Definition line_terminator (c : ascii) : bool :=
  (N_of_ascii c =? 10)%N || (N_of_ascii c =? 13)%N.

Fixpoint no_line_terminator (s : string) : bool :=
  match s with
  | EmptyString => true
  | String c r => negb (line_terminator c) && no_line_terminator r
  end.

(** The longest prefix without [;], and what follows it. *)
Fixpoint span_not_semicolon (s : string) : string * string :=
  match s with
  | EmptyString => ("", "")
  | String c r =>
      if Ascii.eqb c ";"%char then ("", s)
      else let '(a, b) := span_not_semicolon r in (String c a, b)
  end.

(** [s] without the prefix [p], when it starts with it. *)
Fixpoint strip_prefix (p s : string) : option string :=
  match p, s with
  | EmptyString, _ => Some s
  | String _ _, EmptyString => None
  | String a p', String b s' => if Ascii.eqb a b then strip_prefix p' s' else None
  end.

(** [imageUrl.match(/^data:([^;]+);base64,(.+)$/)]: the two groups, when
    the whole string matches. The class [[^;]+] can only stop at the first
    [;], so the match is found without backtracking. *)
Definition match_data_url (url : string) : option (string * string) :=
  match strip_prefix "data:" url with
  | None => None
  | Some rest =>
      let '(mime, tail) := span_not_semicolon rest in
      if String.eqb mime "" then None
      else match strip_prefix ";base64," tail with
           | None => None
           | Some data =>
               if String.eqb data "" then None
               else if no_line_terminator data then Some (mime, data)
               else None
           end
  end.

(** The parts an image item contributes: one inline part for a base64 data
    URL, nothing otherwise. *)
Definition image_parts (url : string) : list Part :=
  if Js.startsWith "data:" url then
    match match_data_url url with
    | Some (mime, data) => [PartInlineData mime data]
    | None => []
    end
  else [].

(** The text part for one piece of text, and the system prompt afterwards.
    [first] is the test [contents.length === 0]. *)
Definition text_part (r : string) (first : bool) (systemPrompt : Content)
    (text : string) : Part * Content :=
  if String.eqb r "user" && truthy systemPrompt && first
  then (PartText (template systemPrompt +:+ Js.LF +:+ Js.LF +:+ text), ContentString "")
  else (PartText text, systemPrompt).

(** One turn of the loop over the items of an array-valued content. *)
Definition item_step (r : string) (first : bool)
    (acc : list Part * Content) (item : Item) : list Part * Content :=
  let '(ps, systemPrompt) := acc in
  match item with
  | ItemText text =>
      let '(p, sp') := text_part r first systemPrompt text in (ps ++ [p], sp')
  | ItemImageUrl url => (ps ++ image_parts url, systemPrompt)
  | ItemOther _ => (ps, systemPrompt)
  end.

(** The state of the loop over the messages. *)
Record LoopState := { contents : list GeminiContent; systemPrompt : Content }.

Definition gemini_role (msg : Message) : string :=
  if String.eqb (role msg) "assistant" then "model" else "user".

(** One turn of the loop over the messages. *)
Definition message_step (st : LoopState) (msg : Message) : LoopState :=
  if String.eqb (role msg) "system" then
    {| contents := contents st; systemPrompt := content msg |}
  else
    let r := gemini_role msg in
    let first := Nat.eqb (length (contents st)) 0 in
    let '(ps, sp) :=
      match content msg with
      | ContentString s =>
          let '(p, sp') := text_part r first (systemPrompt st) s in ([p], sp')
      | ContentArray items =>
          fold_left (item_step r first) items ([], systemPrompt st)
      | ContentMissing => ([], systemPrompt st)
      end in
    {| contents := contents st ++ [{| g_role := r; parts := ps |}];
       systemPrompt := sp |}.

(** [transformMessagesToGeminiFormat(messages)]. *)
Definition transformMessagesToGeminiFormat
    (messages : option (list Message)) : list GeminiContent :=
  match messages with
  | None => []
  | Some msgs =>
      contents (fold_left message_step msgs
                  {| contents := []; systemPrompt := ContentString "" |})
  end.

(** *** Request bodies and the outcome of a route *)

(** [generationConfig] and one entry of [safetySettings]. *)
Record GenerationConfig :=
  { temperature : option float; maxOutputTokens : option float }.

Record SafetySetting := { category : string; threshold : string }.

(** [req.body], with the fields the routes read. *)
Record Body :=
  { provider : option string;
    model : option string;
    messages : option (list Message);
    max_tokens : option float;
    system : option string;
    body_contents : option (list GeminiContent);
    generationConfig : option GenerationConfig;
    safetySettings : option (list SafetySetting) }.

(** The credentials read from the environment at start-up. *)
Record Env :=
  { OPENAI_API_KEY : option string;
    ANTHROPIC_API_KEY : option string;
    GOOGLE_API_KEY : option string }.

(** [!KEY]: a key is missing when it is undefined or empty. *)
Definition missing (key : option string) : bool :=
  match key with
  | Some k => String.eqb k ""
  | None => true
  end.

(** The payload posted to the Anthropic API. *)
Record AnthropicRequest :=
  { ar_model : string;
    ar_max_tokens : float;
    ar_messages : option (list Message);
    ar_system : option string }.

(** The payload posted to the Gemini API. *)
Record GeminiRequest :=
  { gr_contents : list GeminiContent;
    gr_generationConfig : GenerationConfig;
    gr_safetySettings : list SafetySetting }.

(** The call a route makes to a provider. *)
Inductive UpstreamCall :=
| PostOpenAI (payload : Body)
| PostAnthropic (payload : AnthropicRequest)
| PostGoogle (model : string) (payload : GeminiRequest).

(** What a route does with a request: it answers at once with an error
    body [{ error: { message, type } }], or it posts to a provider (and
    answers later from what comes back). *)
Inductive Outcome :=
| Reply (status : Z) (message type : string)
| Call (call : UpstreamCall).

(** *** POST /api/chat/completions *)

Definition chat_completions (env : Env) (body : Body) : Outcome :=
  if missing (OPENAI_API_KEY env)
  then Reply 503 "OpenAI API not configured" "configuration_error"
  else Call (PostOpenAI body).

(** *** POST /api/anthropic/messages *)

(** [x || d] for a number that may be missing. *)
Definition or_number (x : option float) (d : float) : float :=
  match x with
  | Some v => if Js.truthy_number v then v else d
  | None => d
  end.

Definition anthropicRequest (body : Body) : AnthropicRequest :=
  {| ar_model := Js.or_string (model body) "claude-sonnet-4-20250514";
     ar_max_tokens := or_number (max_tokens body) 4096%float;
     ar_messages := messages body;
     ar_system := system body |}.

Definition anthropic_messages (env : Env) (body : Body) : Outcome :=
  if missing (ANTHROPIC_API_KEY env)
  then Reply 503 "Anthropic API not configured" "configuration_error"
  else Call (PostAnthropic (anthropicRequest body)).

(** *** POST /api/google/generateContent *)

Definition default_generationConfig : GenerationConfig :=
  {| temperature := Some 0.7%float; maxOutputTokens := Some 4096%float |}.

Definition default_safetySettings : list SafetySetting :=
  [ {| category := "HARM_CATEGORY_HARASSMENT"; threshold := "BLOCK_NONE" |};
    {| category := "HARM_CATEGORY_HATE_SPEECH"; threshold := "BLOCK_NONE" |};
    {| category := "HARM_CATEGORY_SEXUALLY_EXPLICIT"; threshold := "BLOCK_NONE" |};
    {| category := "HARM_CATEGORY_DANGEROUS_CONTENT"; threshold := "BLOCK_NONE" |} ].

Definition geminiRequest (body : Body) : GeminiRequest :=
  {| gr_contents :=
       match body_contents body with
       | Some c => c
       | None => transformMessagesToGeminiFormat (messages body)
       end;
     gr_generationConfig := default default_generationConfig (generationConfig body);
     gr_safetySettings := default default_safetySettings (safetySettings body) |}.

Definition google_generateContent (env : Env) (body : Body) : Outcome :=
  if missing (GOOGLE_API_KEY env)
  then Reply 503 "Google API not configured" "configuration_error"
  else Call (PostGoogle (Js.or_string (model body) "gemini-2.5-pro")
                        (geminiRequest body)).

(** The Gemini reply, with the fields the route reads. *)
Record ReplyPart := { rp_text : option string }.
Record ReplyContent := { rc_parts : option (list ReplyPart) }.
Record Candidate :=
  { cand_content : option ReplyContent; finishReason : option string }.
Record UsageMetadata :=
  { promptTokenCount : option float;
    candidatesTokenCount : option float;
    totalTokenCount : option float }.
Record GeminiReply :=
  { candidates : option (list Candidate); usageMetadata : option UsageMetadata }.

(** The reply every provider route but the OpenAI one sends back. *)
Record ChatMessage := { cm_role : string; cm_content : string }.
Record Choice :=
  { index : Z; message : ChatMessage; finish_reason : string }.
Record ResponseUsage :=
  { prompt_tokens : float; completion_tokens : float; total_tokens : float }.
Record ChatCompletion :=
  { id : string;
    object : string;
    created : Z;
    cc_model : string;
    choices : list Choice;
    usage : ResponseUsage }.

(** [response.data.candidates?.[0]]. *)
Definition first_candidate (data : GeminiReply) : option Candidate :=
  match candidates data with
  | Some (c :: _) => Some c
  | _ => None
  end.

(** [response.data.candidates?.[0]?.content?.parts?.[0]?.text || '']. *)
Definition geminiContent (data : GeminiReply) : string :=
  match first_candidate data with
  | Some c =>
      match cand_content c with
      | Some rc =>
          match rc_parts rc with
          | Some (p :: _) => Js.or_string (rp_text p) ""
          | _ => ""
          end
      | None => ""
      end
  | None => ""
  end.

(** [candidates?.[0]?.finishReason === 'STOP' ? 'stop' : 'length']. *)
Definition google_finish_reason (data : GeminiReply) : string :=
  match first_candidate data with
  | Some c =>
      match finishReason c with
      | Some r => if String.eqb r "STOP" then "stop" else "length"
      | None => "length"
      end
  | None => "length"
  end.

(** [response.data.usageMetadata?.f || 0]. *)
Definition metadata_count (data : GeminiReply)
    (f : UsageMetadata -> option float) : float :=
  match usageMetadata data with
  | Some m => Js.or_zero (f m)
  | None => 0%float
  end.

(** The [transformedResponse] of the Gemini route; [now] is what
    [Date.now()] returns for [id], [later] what it returns for [created],
    and [model] the model the request was sent for. *)
Definition google_transformedResponse (now later : Z) (model : string)
    (data : GeminiReply) : ChatCompletion :=
  {| id := "gemini-" +:+ pretty now;
     object := "chat.completion";
     created := later;
     cc_model := model;
     choices :=
       [ {| index := 0;
            message := {| cm_role := "assistant"; cm_content := geminiContent data |};
            finish_reason := google_finish_reason data |} ];
     usage :=
       {| prompt_tokens := metadata_count data promptTokenCount;
          completion_tokens := metadata_count data candidatesTokenCount;
          total_tokens := metadata_count data totalTokenCount |} |}.

(** *** POST /api/unified/chat *)

(** The route rewrites [req.url] and hands the request back to the router,
    which runs the provider route on the same body; an identifier that no
    [case] names is answered with status 400 without reaching any provider
    route. *)
Definition unified_chat (env : Env) (body : Body) : Outcome :=
  let provider := Js.or_string (provider body) "openai" in
  let p := Js.toLowerCase provider in
  if String.eqb p "openai" then chat_completions env body
  else if String.eqb p "anthropic" || String.eqb p "claude"
  then anthropic_messages env body
  else if String.eqb p "google" || String.eqb p "gemini"
  then google_generateContent env body
  else Reply 400 ("Unknown provider: " +:+ provider) "invalid_request".

End Server.

(** ** logger.js: the usage logger *)

Module Logger.

(** *** What the logger reads from a response *)

(** [responseData.usage]. *)
Record Usage :=
  { prompt_tokens : option float;
    completion_tokens : option float;
    total_tokens : option float }.

(** [responseData.error], when the payload has the field: [null], the text
    of the catch-all route, the object [{ message, type }] of every other
    error body, or any other value (a boolean, a number, an array), which
    is truthy or not and has no [message]. *)
Inductive ErrorValue :=
| ErrorNull
| ErrorText (text : string)
| ErrorObject (message : option string)
| ErrorOther (is_truthy : bool).

Record ResponseData := { usage : option Usage; error : option ErrorValue }.

(** Truthiness of [responseData.error]. *)
Definition truthy_error (e : option ErrorValue) : bool :=
  match e with
  | Some ErrorNull => false
  | Some (ErrorText t) => negb (String.eqb t "")
  | Some (ErrorObject _) => true
  | Some (ErrorOther is_truthy) => is_truthy
  | None => false
  end.

(** [responseData?.error?.message || null]; [null] and a string have no
    [message]. *)
Definition error_message (e : option ErrorValue) : option string :=
  match e with
  | Some (ErrorObject (Some m)) => if String.eqb m "" then None else Some m
  | _ => None
  end.

(** *** detectProvider *)

(** [model?.includes(needle)], with [undefined] read as false. *)
Definition model_includes (needle : string) (model : option string) : bool :=
  match model with
  | Some m => Js.includes needle m
  | None => false
  end.

Definition detectProvider (endpoint : string) (model : option string) : string :=
  if Js.includes "anthropic" endpoint || model_includes "claude" model
  then "anthropic"
  else if Js.includes "google" endpoint || model_includes "gemini" model
  then "google"
  else "openai".

(** *** calculateCost *)

(** Rates per million tokens. *)
Record Pricing := { input : float; output : float }.

Definition pricing : list (string * Pricing) :=
  [ ("gpt-4", {| input := 30; output := 60 |});
    ("gpt-4o", {| input := 5; output := 15 |});
    ("gpt-4o-mini", {| input := 0.15; output := 0.6 |});
    ("gpt-5", {| input := 10; output := 30 |});
    ("gpt-5.2", {| input := 12; output := 36 |});
    ("gpt-5-nano", {| input := 2; output := 6 |});
    ("o1-preview", {| input := 15; output := 60 |});
    ("o1-mini", {| input := 3; output := 12 |});
    ("gpt-3.5-turbo", {| input := 0.5; output := 1.5 |});
    ("claude-sonnet-4-20250514", {| input := 3; output := 15 |});
    ("claude-3-5-sonnet-20241022", {| input := 3; output := 15 |});
    ("claude-3-opus-20240229", {| input := 15; output := 75 |});
    ("claude-3-haiku-20240307", {| input := 0.25; output := 1.25 |});
    ("gemini-2.5-pro", {| input := 1.25; output := 5 |});
    ("gemini-2.0-flash", {| input := 0.075; output := 0.3 |});
    ("gemini-1.5-pro", {| input := 1.25; output := 5 |});
    ("gemini-1.5-flash", {| input := 0.075; output := 0.3 |}) ]%float.

Definition defaultPricing : list (string * Pricing) :=
  [ ("openai", {| input := 5; output := 15 |});
    ("anthropic", {| input := 3; output := 15 |});
    ("google", {| input := 1.25; output := 5 |}) ]%float.

(** The entry that a table, written as an object literal, has under [key]
    as its own property. *)
Fixpoint lookup_key (key : string) (table : list (string * Pricing))
    : option Pricing :=
  match table with
  | [] => None
  | (k, v) :: rest => if String.eqb k key then Some v else lookup_key key rest
  end.

(** The property name a value that may be [undefined] turns into. *)
Definition property_key (k : option string) : string :=
  default "undefined" k.

(** [table[key]]: the entry, or an inherited member, or [undefined]. *)
Definition table_member (key : string) (table : list (string * Pricing))
    : Js.Member Pricing :=
  Js.member (lookup_key key table) key.

(** [pricing[model] || defaultPricing[provider] || defaultPricing['openai']]:
    the first of the three that is not [undefined]. Entries and inherited
    members are truthy alike; the last of the three is an entry. *)
Definition modelPricing (model : option string) (provider : string)
    : Js.Member Pricing :=
  match table_member (property_key model) pricing with
  | Js.Missing =>
      match table_member provider defaultPricing with
      | Js.Missing => table_member "openai" defaultPricing
      | found => found
      end
  | found => found
  end.

(** [modelPricing.input] and [modelPricing.output] in a product: an entry
    has its rate; an inherited member has no such property, and
    [undefined] is [NaN] there. *)
Definition rate (f : Pricing -> float) (found : Js.Member Pricing) : float :=
  match found with
  | Js.Own p => f p
  | _ => PrimFloat.nan
  end.

Definition calculateCost (model : option string) (usage : option Usage)
    (provider : string) : float :=
  match usage with
  | None => 0
  | Some u =>
      let modelPricing := modelPricing model provider in
      let inputCost :=
        Js.to_number (prompt_tokens u) / 1000000 * rate input modelPricing in
      let outputCost :=
        Js.to_number (completion_tokens u) / 1000000 * rate output modelPricing in
      inputCost + outputCost
  end%float.

(** *** The log entry *)

Record Tokens := { prompt : float; completion : float; total : float }.

Record LogEntry :=
  { timestamp : Z;
    userId : string;
    endpoint : string;
    entry_provider : string;
    entry_model : option string;
    tokens : Tokens;
    cost : float;
    success : bool;
    entry_error : option string }.

(** [responseData?.usage?.f || 0]. *)
Definition usage_count (responseData : option ResponseData)
    (f : Usage -> option float) : float :=
  match responseData with
  | Some r =>
      match usage r with
      | Some u => Js.or_zero (f u)
      | None => 0%float
      end
  | None => 0%float
  end.

(** The [logEntry] that [logRequest] builds; [now] is the instant read from
    the clock. *)
Definition logEntry (now : Z) (userId endpoint : string)
    (model : option string) (responseData : option ResponseData) : LogEntry :=
  let provider := detectProvider endpoint model in
  {| timestamp := now;
     userId := userId;
     endpoint := endpoint;
     entry_provider := provider;
     entry_model := model;
     tokens :=
       {| prompt := usage_count responseData prompt_tokens;
          completion := usage_count responseData completion_tokens;
          total := usage_count responseData total_tokens |};
     cost := calculateCost model (responseData ≫= usage) provider;
     success :=
       match responseData with
       | Some r => negb (truthy_error (error r))
       | None => false
       end;
     entry_error := error_message (responseData ≫= error) |}.

(** *** The per-user summary document *)

(** The value of a counter of the document: a number; or a text, once a
    count was added to a member that the dictionary inherits, which
    concatenates (the text is never empty; its characters are not part of
    the model). *)
Inductive Count :=
| Number (n : N)
| Text.

(** A summary, as [JSON.parse] reads it from the document. A total that
    was not finite when it was written is [null], here [None]. A document
    written before the provider counters were introduced has summaries
    without them. *)
Record UserSummary :=
  { firstSeen : Z;
    lastSeen : option Z;
    totalRequests : N;
    totalTokens : option float;
    totalCost : option float;
    endpointCounts : gmap string Count;
    modelCounts : gmap string Count;
    providerCounts : option (gmap string Count) }.

(** [(found || 0) + 1]: a number is counted up, and a missing count is
    [0]; a text, and an inherited member, are truthy and get [1]
    appended. *)
Definition count_up (found : Js.Member Count) : Count :=
  match found with
  | Js.Own (Number n) => Number (n + 1)
  | Js.Own Text => Text
  | Js.Inherited => Text
  | Js.Missing => Number 1
  end.

(** [counts[key] = (counts[key] || 0) + 1]. Under the key [__proto__], a
    dictionary without such a property of its own gets none: the value
    assigned is a text, which the inherited setter ignores. *)
Definition bump (key : string) (counts : gmap string Count) : gmap string Count :=
  match counts !! key with
  | Some c => <[key := count_up (Js.Own c)]> counts
  | None =>
      if String.eqb key "__proto__" then counts
      else <[key := count_up (Js.member None key)]> counts
  end.

(** The summary created for a user seen for the first time. *)
Definition fresh_summary (logEntry : LogEntry) : UserSummary :=
  {| firstSeen := timestamp logEntry;
     lastSeen := None;
     totalRequests := 0;
     totalTokens := Some 0%float;
     totalCost := Some 0%float;
     endpointCounts := ∅;
     modelCounts := ∅;
     providerCounts := Some ∅ |}.

(** [total += x], and the total as the document then holds it: a total
    read as [null] counts as [0]. *)
Definition add_total (total : option float) (x : float) : option float :=
  Js.json_number (default 0%float total + x)%float.

(** [updateUserSummary(userId, logEntry)] on the stored document: [None]
    is a summary file that is missing or does not parse, read as the empty
    collection. When [summaries[userId]] is a member that the collection
    inherits, it is taken for the summary of the user: it has no
    [endpointCounts], reading a counter there throws, the error is caught
    and nothing is written. The same happens at [providerCounts] for a
    summary without provider counters. Otherwise the document is written,
    the summaries of the other users as they were read. *)
Definition updateUserSummary (userId : string) (logEntry : LogEntry)
    (document : option (gmap string UserSummary))
    : option (gmap string UserSummary) :=
  let summaries := default ∅ document in
  match Js.member (summaries !! userId) userId with
  | Js.Inherited => document
  | found =>
      let userSummary :=
        match found with
        | Js.Own stored => stored
        | _ => fresh_summary logEntry
        end in
      match providerCounts userSummary with
      | None => document
      | Some counts =>
          Some (<[userId :=
                   {| firstSeen := firstSeen userSummary;
                      lastSeen := Some (timestamp logEntry);
                      totalRequests := totalRequests userSummary + 1;
                      totalTokens :=
                        add_total (totalTokens userSummary) (total (tokens logEntry));
                      totalCost := add_total (totalCost userSummary) (cost logEntry);
                      endpointCounts :=
                        bump (endpoint logEntry) (endpointCounts userSummary);
                      modelCounts :=
                        bump (property_key (entry_model logEntry))
                             (modelCounts userSummary);
                      providerCounts := Some (bump (entry_provider logEntry) counts) |}]>
                  summaries)
      end
  end.

(** [getUserStats(userId)]: [summaries[userId] || null], and [null] when
    the file is missing or does not parse. [Js.Missing] is [null]. *)
Definition getUserStats (userId : string)
    (document : option (gmap string UserSummary)) : Js.Member UserSummary :=
  match document with
  | Some summaries => Js.member (summaries !! userId) userId
  | None => Js.Missing
  end.

(** [getAllUserStats()]. *)
Definition getAllUserStats (document : option (gmap string UserSummary))
    : gmap string UserSummary :=
  default ∅ document.

(** *** The daily log files *)

(** The UTC calendar day of an instant, counted from the epoch: the date in
    front of the [T] of the ISO text names the same day. *)
Definition utc_day (instant : Z) : Z := (instant / 86400000)%Z.

(** [(now - entryTime) / (1000 * 60 * 60)], as an exact quotient. *)
Definition hoursDiff (now entryTime : Z) : Q :=
  (inject_Z (now - entryTime) / inject_Z (1000 * 60 * 60))%Q.

Section Files.

(** The values [JSON.parse] yields, the parser itself ([None] when it
    throws), the printer, and the instant [new Date(entry.timestamp)]
    denotes ([None] when the date is invalid or the value has no
    properties). *)
Context {Json : Type}.
Variable JSON_parse : string -> option Json.
Variable JSON_stringify : LogEntry -> string.
Variable entry_time : Json -> option Z.

(** The clock of the process: [setDate now i] is the instant that [date]
    holds after [date.setDate(date.getDate() - i)], [date] being a copy of
    [now]. It is the same time of day, [i] days earlier, on the local
    calendar of the time zone of the process. *)
Variable setDate : Z -> Z -> Z.

(** The log directory: the text of the file of each day, and the summary
    document. *)
Record Disk :=
  { logFiles : gmap Z string;
    summaries : option (gmap string UserSummary) }.

(** [fs.appendFile(logFile, line)]: the file is created when missing. *)
Definition appendFile (day : Z) (line : string) (files : gmap Z string)
    : gmap Z string :=
  <[day := default "" (files !! day) +:+ line]> files.

(** [logRequest]: the entry goes to the file of its day and into the
    summary of its user. *)
Definition logRequest (now : Z) (userId endpoint : string)
    (model : option string) (responseData : option ResponseData)
    (disk : Disk) : Disk :=
  let entry := logEntry now userId endpoint model responseData in
  {| logFiles :=
       appendFile (utc_day (timestamp entry))
                  (JSON_stringify entry +:+ Js.LF) (logFiles disk);
     summaries := updateUserSummary userId entry (summaries disk) |}.

(** The body of the loop over the lines of one file. *)
Definition keep_line (now hours : Z) (logs : list Json) (line : string)
    : list Json :=
  match JSON_parse line with
  | None => logs
  | Some entry =>
      match entry_time entry with
      | None => logs
      | Some entryTime =>
          if Qle_bool (hoursDiff now entryTime) (inject_Z hours)
          then logs ++ [entry] else logs
      end
  end.

(** The body of the loop over the three days: the file is named by the
    UTC date of the instant that [setDate] gives. *)
Definition read_day (now hours : Z) (files : gmap Z string)
    (logs : list Json) (i : Z) : list Json :=
  match files !! utc_day (setDate now i) with
  | None => logs
  | Some data =>
      fold_left (keep_line now hours) (Js.split_lines (Js.trim data)) logs
  end.

(** [new Date(b.timestamp) - new Date(a.timestamp) < 0], the case in which
    the comparator puts [a] before [b]. *)
Definition sorts_before (a b : Json) : bool :=
  match entry_time a, entry_time b with
  | Some ta, Some tb => (tb - ta <? 0)%Z
  | _, _ => false
  end.

(** [Array.prototype.sort] is stable: an element goes behind the elements
    that sort before it and in front of the others. *)
Fixpoint place (x : Json) (sorted : list Json) : list Json :=
  match sorted with
  | [] => [x]
  | y :: rest => if sorts_before y x then y :: place x rest else x :: sorted
  end.

Definition sort_by_time (logs : list Json) : list Json :=
  foldr place [] logs.

(** [getRecentLogs(hours)], run at the instant [now]. *)
Definition getRecentLogs (now hours : Z) (files : gmap Z string) : list Json :=
  sort_by_time (fold_left (read_day now hours files) [0; 1; 2]%Z []).

End Files.

End Logger.

(** ** middleware/loggingMiddleware.js: from a response to the logger *)

Module Middleware.

(** What the logger reads of the reply that a provider route sends with
    [res.json]: its usage, and no error. *)
Definition logged_completion (data : Server.ChatCompletion) : Logger.ResponseData :=
  {| Logger.usage :=
       Some {| Logger.prompt_tokens :=
                 Some (Server.prompt_tokens (Server.usage data));
               Logger.completion_tokens :=
                 Some (Server.completion_tokens (Server.usage data));
               Logger.total_tokens :=
                 Some (Server.total_tokens (Server.usage data)) |};
     Logger.error := None |}.

(** What the logger reads of an error body [{ error: { message, type } }]. *)
Definition logged_error (message : string) : Logger.ResponseData :=
  {| Logger.usage := None;
     Logger.error := Some (Logger.ErrorObject (Some message)) |}.

(** One call of [logResponse(responseData)]: the user comes from the
    [x-user-id] header, the endpoint is the path of the request below
    [/api], the model is the one the request body names. The wrapped
    [res.json] and the wrapped [res.send] both call it, without awaiting
    it; a body sent with [res.json] goes on through [res.send], so that one
    response reaches it more than once. *)
Definition logResponse (JSON_stringify : Logger.LogEntry -> string) (now : Z)
    (x_user_id : option string) (path : string) (body : option Server.Body)
    (responseData : option Logger.ResponseData) (disk : Logger.Disk)
    : Logger.Disk :=
  Logger.logRequest JSON_stringify now (Js.or_string x_user_id "unknown") path
    (body ≫= Server.model) responseData disk.

End Middleware.

(** ** server.js: authentication, replies and uploads *)

Module Routes.

(** *** verifyRequest *)

(** The middleware answers with status 401 and [{ error }], or calls
    [next()]. *)
Inductive Verdict :=
| Unauthorized (error : string)
| Next.

(** [s.substring(n)]. *)
Fixpoint substring_from (n : nat) (s : string) : string :=
  match n, s with
  | O, _ => s
  | S _, EmptyString => EmptyString
  | S n', String _ r => substring_from n' r
  end.

(** [authorization] is [req.headers.authorization]. *)
Definition verifyRequest (API_SECRET : string) (authorization : option string)
    : Verdict :=
  match authorization with
  | None => Unauthorized "Unauthorized: Missing or invalid Authorization header"
  | Some authHeader =>
      if String.eqb authHeader "" || negb (Js.startsWith "Bearer " authHeader)
      then Unauthorized "Unauthorized: Missing or invalid Authorization header"
      else
        let token := substring_from 7 authHeader in
        if String.eqb token API_SECRET then Next
        else Unauthorized "Unauthorized: Invalid API secret"
  end.

(** A route registered behind [app.use('/api', verifyRequest, ...)]: the
    route runs when the middleware calls [next()]. *)
Inductive Protected :=
| Denied (error : string)
| Routed (outcome : Server.Outcome).

Definition protected (API_SECRET : string) (authorization : option string)
    (route : Server.Env -> Server.Body -> Server.Outcome)
    (env : Server.Env) (body : Server.Body) : Protected :=
  match verifyRequest API_SECRET authorization with
  | Unauthorized error => Denied error
  | Next => Routed (route env body)
  end.

(** *** The reply of a provider route *)

(** The reply of the Anthropic API, with the fields the route reads. *)
Record ContentBlock := { text : option string }.

Record AnthropicUsage :=
  { input_tokens : option float; output_tokens : option float }.

Record AnthropicReply :=
  { id : option string;
    model : option string;
    content : option (list ContentBlock);
    stop_reason : option string;
    usage : option AnthropicUsage }.

(** The [transformedResponse] of the Anthropic route. *)
Record AnthropicChoice :=
  { index : Z; message : Server.ChatMessage; finish_reason : option string }.

Record AnthropicCompletion :=
  { ac_id : option string;
    ac_object : string;
    ac_created : Z;
    ac_model : option string;
    ac_choices : list AnthropicChoice;
    ac_usage : Server.ResponseUsage }.

(** [response.data.usage?.f || 0]. *)
Definition usage_count (data : AnthropicReply)
    (f : AnthropicUsage -> option float) : float :=
  match usage data with
  | Some u => Js.or_zero (f u)
  | None => 0%float
  end.

(** [response.data.stop_reason === 'end_turn' ? 'stop' : response.data.stop_reason]. *)
Definition anthropic_finish_reason (data : AnthropicReply) : option string :=
  match stop_reason data with
  | Some r => if String.eqb r "end_turn" then Some "stop" else Some r
  | None => None
  end.

(** The [transformedResponse] of the Anthropic route; [now] is
    [Date.now()]. Reading [content[0]] throws when the reply has no
    [content]: that is [None]. *)
Definition anthropic_transformedResponse (now : Z) (data : AnthropicReply)
    : option AnthropicCompletion :=
  match content data with
  | None => None
  | Some blocks =>
      Some
        {| ac_id := id data;
           ac_object := "chat.completion";
           ac_created := now;
           ac_model := model data;
           ac_choices :=
             [ {| index := 0;
                  message :=
                    {| Server.cm_role := "assistant";
                       Server.cm_content :=
                         match blocks with
                         | block :: _ => Js.or_string (text block) ""
                         | [] => ""
                         end |};
                  finish_reason := anthropic_finish_reason data |} ];
           ac_usage :=
             {| Server.prompt_tokens := usage_count data input_tokens;
                Server.completion_tokens := usage_count data output_tokens;
                Server.total_tokens :=
                  (usage_count data input_tokens + usage_count data output_tokens)%float |} |}
  end.

Section Replies.

(** A body received from a provider, kept as it is. *)
Context {Raw : Type}.

(** [error.response]: the status and the body of a refusal; [None] is a
    body that is missing or falsy. *)
Record UpstreamResponse := { status : Z; data : option Raw }.

(** The error that a failed call throws: the response, when the provider
    answered, and the message. *)
Record UpstreamError :=
  { response : option UpstreamResponse; error_message : option string }.

(** What a route sends: a body of the provider as it is, an error body
    [{ error: { message, type } }], or a transformed response. *)
Inductive Sent :=
| SentRaw (statusCode : Z) (body : Raw)
| SentError (statusCode : Z) (message type : string)
| SentAnthropic (body : AnthropicCompletion)
| SentGoogle (body : Server.ChatCompletion).

(** The [catch] block that the three provider routes share. *)
Definition errorReply (error : UpstreamError) : Sent :=
  let statusCode :=
    match response error with
    | Some r => if (status r =? 0)%Z then 500%Z else status r
    | None => 500%Z
    end in
  match response error ≫= data with
  | Some errorData => SentRaw statusCode errorData
  | None =>
      SentError statusCode
        (Js.or_string (error_message error) "Internal server error") "proxy_error"
  end.

(** The end of the OpenAI route: the body of the provider goes back as it
    is. *)
Definition chat_completions_reply (result : Raw + UpstreamError) : Sent :=
  match result with
  | inl body => SentRaw 200 body
  | inr error => errorReply error
  end.

(** The end of the Anthropic route; [thrown] is the message of the error
    raised on a reply without [content]. *)
Definition anthropic_messages_reply (thrown : string) (now : Z)
    (result : AnthropicReply + UpstreamError) : Sent :=
  match result with
  | inl reply =>
      match anthropic_transformedResponse now reply with
      | Some body => SentAnthropic body
      | None => errorReply {| response := None; error_message := Some thrown |}
      end
  | inr error => errorReply error
  end.

(** The end of the Gemini route; [model] is the model of the request. *)
Definition google_generateContent_reply (now later : Z) (model : string)
    (result : Server.GeminiReply + UpstreamError) : Sent :=
  match result with
  | inl reply => SentGoogle (Server.google_transformedResponse now later model reply)
  | inr error => errorReply error
  end.

End Replies.

(** *** POST /api/files/upload *)

Section Upload.

(** The bytes of a file, and their two renderings. *)
Context {Buffer : Type}.
Variable utf8 : Buffer -> string.
Variable base64 : Buffer -> string.

(** One uploaded file, and the value of [req.files.files]. *)
Record File :=
  { name : string; mimetype : string; size : Z; file_data : Buffer }.

Inductive FilesField :=
| OneFile (file : File)
| ManyFiles (files : list File).

(** [req.files]: the field [files], and how many other fields there are. *)
Record Files := { files_field : option FilesField; other_fields : nat }.

(** One element of [uploadedFiles]. *)
Record UploadedFile :=
  { up_name : string;
    up_mimeType : string;
    up_size : Z;
    up_base64 : string;
    up_textContent : option string }.

(** The answer: an error body [{ error: { message[, type] } }], or
    [{ success: true, files, count }]. *)
Inductive UploadReply :=
| UploadError (statusCode : Z) (message : string) (type : option string)
| UploadSuccess (files : list UploadedFile) (count : nat).

(** [textContent]: [null] for a PDF, the text of a text, JSON or XML file,
    the empty string otherwise. *)
Definition textContent (file : File) : option string :=
  if String.eqb (mimetype file) "application/pdf" then None
  else if Js.startsWith "text/" (mimetype file)
          || String.eqb (mimetype file) "application/json"
          || String.eqb (mimetype file) "application/xml"
  then Some (utf8 (file_data file))
  else Some "".

(** The loop over the files. *)
Fixpoint process_files (files : list File) (uploadedFiles : list UploadedFile)
    : UploadReply :=
  match files with
  | [] => UploadSuccess uploadedFiles (length uploadedFiles)
  | file :: rest =>
      if (10 * 1024 * 1024 <? size file)%Z
      then UploadError 400 ("File " +:+ name file +:+ " exceeds 10MB limit") None
      else
        process_files rest
          (uploadedFiles
           ++ [ {| up_name := name file;
                   up_mimeType := mimetype file;
                   up_size := size file;
                   up_base64 := base64 (file_data file);
                   up_textContent := textContent file |} ])
  end.

(** The route; [thrown] is the message of the error raised when
    [req.files] has fields but no field [files]. *)
Definition files_upload (thrown : string) (files : option Files) : UploadReply :=
  match files with
  | None => UploadError 400 "No files were uploaded" None
  | Some fields =>
      match files_field fields with
      | None =>
          if Nat.eqb (other_fields fields) 0
          then UploadError 400 "No files were uploaded" None
          else UploadError 500
                 (Js.or_string (Some thrown) "Failed to process uploaded files")
                 (Some "upload_error")
      | Some (OneFile file) => process_files [file] []
      | Some (ManyFiles files) => process_files files []
      end
  end.

End Upload.

End Routes.

(** ** logger.js, as it was before the providers *)

Module LoggerV1.

(** The earlier [calculateCost(model, usage)]: one table, and the rates of
    [gpt-4o] for a model outside it. *)
Definition pricing : list (string * Logger.Pricing) :=
  [ ("gpt-4", {| Logger.input := 30; Logger.output := 60 |});
    ("gpt-4o", {| Logger.input := 5; Logger.output := 15 |});
    ("gpt-4o-mini", {| Logger.input := 0.15; Logger.output := 0.6 |});
    ("gpt-5", {| Logger.input := 10; Logger.output := 30 |});
    ("o1-preview", {| Logger.input := 15; Logger.output := 60 |});
    ("o1-mini", {| Logger.input := 3; Logger.output := 12 |});
    ("gpt-3.5-turbo", {| Logger.input := 0.5; Logger.output := 1.5 |}) ]%float.

(** [pricing[model] || pricing['gpt-4o']]. *)
Definition modelPricing (model : option string) : Js.Member Logger.Pricing :=
  match Logger.table_member (Logger.property_key model) pricing with
  | Js.Missing => Logger.table_member "gpt-4o" pricing
  | found => found
  end.

Definition calculateCost (model : option string) (usage : option Logger.Usage)
    : float :=
  match usage with
  | None => 0
  | Some u =>
      let modelPricing := modelPricing model in
      let inputCost :=
        Js.to_number (Logger.prompt_tokens u) / 1000000
        * Logger.rate Logger.input modelPricing in
      let outputCost :=
        Js.to_number (Logger.completion_tokens u) / 1000000
        * Logger.rate Logger.output modelPricing in
      inputCost + outputCost
  end%float.

(** The summary the earlier logger created for a user seen for the first
    time: it has no provider counters. *)
Definition fresh_summary (logEntry : Logger.LogEntry) : Logger.UserSummary :=
  {| Logger.firstSeen := Logger.timestamp logEntry;
     Logger.lastSeen := None;
     Logger.totalRequests := 0;
     Logger.totalTokens := Some 0%float;
     Logger.totalCost := Some 0%float;
     Logger.endpointCounts := ∅;
     Logger.modelCounts := ∅;
     Logger.providerCounts := None |}.

(** The earlier [updateUserSummary(userId, logEntry)]: it counts no
    provider, and leaves every other field of a stored summary as it is.
    An inherited member under [userId] is taken for the summary, and the
    update throws without writing, as in the present logger. *)
Definition updateUserSummary (userId : string) (logEntry : Logger.LogEntry)
    (document : option (gmap string Logger.UserSummary))
    : option (gmap string Logger.UserSummary) :=
  let summaries := default ∅ document in
  match Js.member (summaries !! userId) userId with
  | Js.Inherited => document
  | found =>
      let userSummary :=
        match found with
        | Js.Own stored => stored
        | _ => fresh_summary logEntry
        end in
      Some (<[userId :=
               {| Logger.firstSeen := Logger.firstSeen userSummary;
                  Logger.lastSeen := Some (Logger.timestamp logEntry);
                  Logger.totalRequests := Logger.totalRequests userSummary + 1;
                  Logger.totalTokens :=
                    Logger.add_total (Logger.totalTokens userSummary)
                                     (Logger.total (Logger.tokens logEntry));
                  Logger.totalCost :=
                    Logger.add_total (Logger.totalCost userSummary)
                                     (Logger.cost logEntry);
                  Logger.endpointCounts :=
                    Logger.bump (Logger.endpoint logEntry)
                                (Logger.endpointCounts userSummary);
                  Logger.modelCounts :=
                    Logger.bump (Logger.property_key (Logger.entry_model logEntry))
                                (Logger.modelCounts userSummary);
                  Logger.providerCounts := Logger.providerCounts userSummary |}]>
              summaries)
  end.

End LoggerV1.

(** ** server.js: the analytics routes *)

Module Analytics.

(** *** GET /api/analytics/user/:userId *)

(** The route answers with the summary of the user; or, when the id names
    a member that the document inherits, with status 200 and that member,
    which is no summary; or with status 404 and [{ error, message }]. *)
Inductive UserReply :=
| UserStats (stats : Logger.UserSummary)
| UserMember
| UserNotFound (error message : string).

Definition analytics_user (userId : string)
    (document : option (gmap string Logger.UserSummary)) : UserReply :=
  match Logger.getUserStats userId document with
  | Js.Own stats => UserStats stats
  | Js.Inherited => UserMember
  | Js.Missing => UserNotFound "User not found" "No usage data found for this user"
  end.

(** *** GET /api/analytics/all and GET /api/analytics/summary *)

(** The counters that the two routes compute from [getAllUserStats()].
    Their sums of tokens and of costs are floating-point sums taken in the
    key order of the document, which a map does not keep; they are not
    part of the model. *)

(** [Object.keys(stats).length] of the one route, [totalUsers++] per entry
    of the other. *)
Definition totalUsers (stats : gmap string Logger.UserSummary) : N :=
  N.of_nat (size stats).

(** [totalRequests += stats.totalRequests], per entry. *)
Definition totalRequests (stats : gmap string Logger.UserSummary) : N :=
  map_fold (fun _ user total => (total + Logger.totalRequests user)%N) 0%N stats.

(** [a + b] on two counters: two numbers are added; with a text, the two
    are concatenated. *)
Definition plus (a b : Logger.Count) : Logger.Count :=
  match a, b with
  | Logger.Number m, Logger.Number n => Logger.Number (m + n)
  | _, _ => Logger.Text
  end.

(** [modelBreakdown[model] = (modelBreakdown[model] || 0) + count]. An
    inherited member is truthy, and the sum is a text; under [__proto__]
    the assignment of that text is ignored. *)
Definition add_count (model : string) (count : Logger.Count)
    (modelBreakdown : gmap string Logger.Count) : gmap string Logger.Count :=
  match modelBreakdown !! model with
  | Some c => <[model := plus c count]> modelBreakdown
  | None =>
      if Js.inherited model then
        if String.eqb model "__proto__" then modelBreakdown
        else <[model := Logger.Text]> modelBreakdown
      else <[model := plus (Logger.Number 0) count]> modelBreakdown
  end.

(** The counts of every summary, added up model by model. *)
Definition modelBreakdown (stats : gmap string Logger.UserSummary)
    : gmap string Logger.Count :=
  map_fold (fun _ user breakdown => map_fold add_count breakdown (Logger.modelCounts user))
           ∅ stats.

End Analytics.

(** * The vocabulary of the properties *)

(** ** Strings *)

Module JsSpec.
Import Js.

(** [a] occurs in [h] as a block of consecutive characters. *)
Definition substring (a h : string) : Prop :=
  exists before after, h = before +:+ a +:+ after.

End JsSpec.

(** ** The usage logger *)

Module LoggerSpec.
Import Js JsSpec Logger.

(** *** The log entry *)

(** The endpoint or the model names Anthropic. *)
Definition names_anthropic (endpoint : string) (model : option string) : Prop :=
  substring "anthropic" endpoint \/
  exists m, model = Some m /\ substring "claude" m.

(** The endpoint or the model names Google. *)
Definition names_google (endpoint : string) (model : option string) : Prop :=
  substring "google" endpoint \/
  exists m, model = Some m /\ substring "gemini" m.

(** C10 as worded, for one payload: the entry is a success exactly when
    the payload is present and has no top-level [error] field. *)
Definition success_without_error_field (entry : LogEntry)
    (responseData : option ResponseData) : Prop :=
  success entry = true <-> exists r, responseData = Some r /\ error r = None.

(** A payload whose [error] field is [null]. *)
Definition null_error : ResponseData :=
  {| usage := None; error := Some ErrorNull |}.

(** The key names no member that every object inherits. *)
Definition plain (key : string) : Prop := inherited key = false.

(** A usage of 1000 prompt tokens and 500 completion tokens. *)
Definition small_usage : Usage :=
  {| prompt_tokens := Some 1000%float;
     completion_tokens := Some 500%float;
     total_tokens := Some 1500%float |}.

(** The invariant of C6 on one entry. *)
Definition total_is_sum (entry : LogEntry) : Prop :=
  total (tokens entry) = (prompt (tokens entry) + completion (tokens entry))%float.

(** A Gemini reply whose total also counts reasoning tokens. *)
Definition reasoning_reply : Server.GeminiReply :=
  {| Server.candidates :=
       Some [ {| Server.cand_content :=
                   Some {| Server.rc_parts := Some [ {| Server.rp_text := Some "4" |} ] |};
                 Server.finishReason := Some "STOP" |} ];
     Server.usageMetadata :=
       Some {| Server.promptTokenCount := Some 10%float;
               Server.candidatesTokenCount := Some 20%float;
               Server.totalTokenCount := Some 45%float |} |}.

(** What the logger reads of the answer of the Gemini route to it: the
    counts 10, 20 and 45. *)
Definition reply_with_larger_total : ResponseData :=
  Middleware.logged_completion
    (Server.google_transformedResponse 1700000000000 1700000000001
       "gemini-2.5-pro" reasoning_reply).

(** *** The per-user summary *)

(** [N] updates for one user, one after the other. *)
Definition sequential_updates (userId : string) (entries : list LogEntry)
    (document : option (gmap string UserSummary))
    : option (gmap string UserSummary) :=
  fold_left (fun doc entry => updateUserSummary userId entry doc) entries document.

(** The user has no summary in the document: [summaries[userId]] is
    [undefined], or there is no document. *)
Definition unseen (userId : string)
    (document : option (gmap string UserSummary)) : Prop :=
  getUserStats userId document = Missing.

(** The sum of numbers, added one after the other to zero as [+=] does. *)
Definition sum_in_order (xs : list float) : float :=
  fold_left PrimFloat.add xs 0%float.

(** The totals that [+=] goes through from [total] on. *)
Fixpoint running_totals (total : float) (xs : list float) : list float :=
  match xs with
  | [] => []
  | x :: rest => (total + x)%float :: running_totals (total + x)%float rest
  end.

(** The document keeps the number as it is: it is finite. *)
Definition kept (x : float) : Prop := json_number x = Some x.

(** Every total on the way is kept. *)
Definition totals_kept (xs : list float) : Prop :=
  Forall kept (running_totals 0%float xs).

(** The endpoint, the model and the provider of the entry are plain
    keys. *)
Definition plain_entry (entry : LogEntry) : Prop :=
  plain (endpoint entry) /\ plain (property_key (entry_model entry)) /\
  plain (entry_provider entry).

(** How many entries have the key [k]. *)
Definition count_key (key : LogEntry -> string) (k : string)
    (entries : list LogEntry) : N :=
  N.of_nat (length (filter (fun entry => key entry = k) entries)).

(** The number that the counters hold under [k]: zero without the key, and
    none when they hold a text. *)
Definition count_under (counts : gmap string Count) (k : string) : option N :=
  match counts !! k with
  | None => Some 0%N
  | Some (Number n) => Some n
  | Some Text => None
  end.

(** The first and last instants and the counters of [s] are those of the
    entries. *)
Definition counts_entries (s : UserSummary) (entries : list LogEntry) : Prop :=
  totalRequests s = N.of_nat (length entries) /\
  Some (firstSeen s) = head (map timestamp entries) /\
  lastSeen s = last (map timestamp entries) /\
  (forall k, count_under (endpointCounts s) k = Some (count_key endpoint k entries)) /\
  (forall k, count_under (modelCounts s) k
             = Some (count_key (fun entry => property_key (entry_model entry)) k entries)) /\
  exists counts, providerCounts s = Some counts /\
    forall k, count_under counts k = Some (count_key entry_provider k entries).

(** The summary [s] adds up the entries, its totals being the sums that
    [+=] accumulates in entry order. *)
Definition summarises (s : UserSummary) (entries : list LogEntry) : Prop :=
  totalTokens s = Some (sum_in_order (map (fun entry => total (tokens entry)) entries)) /\
  totalCost s = Some (sum_in_order (map cost entries)) /\
  counts_entries s entries.

(** The exact value of a finite number. *)
Definition exact (x : float) : option Q :=
  match Prim2SF x with
  | S754_zero _ => Some 0%Q
  | S754_finite negative m e =>
      Some ((if negative then -1 else 1) * inject_Z (Zpos m) * (2 ^ e))%Q
  | _ => None
  end.

(** The exact sum of finite numbers. *)
Fixpoint exact_sum (xs : list float) : option Q :=
  match xs with
  | [] => Some 0%Q
  | x :: rest =>
      match exact x, exact_sum rest with
      | Some a, Some b => Some (a + b)%Q
      | _, _ => None
      end
  end.

(** The total of the document is the exact sum of the numbers. *)
Definition is_exact_sum (total : option float) (xs : list float) : Prop :=
  exists t q, total ≫= exact = Some t /\ exact_sum xs = Some q /\ (t == q)%Q.

(** C4 as worded, for one summary: the totals are the exact sums. *)
Definition summarises_exactly (s : UserSummary) (entries : list LogEntry) : Prop :=
  is_exact_sum (totalTokens s) (map (fun entry => total (tokens entry)) entries) /\
  is_exact_sum (totalCost s) (map cost entries) /\
  counts_entries s entries.

(** One update of a summary that has provider counters. *)
Definition record (s : UserSummary) (entry : LogEntry) : UserSummary :=
  {| firstSeen := firstSeen s;
     lastSeen := Some (timestamp entry);
     totalRequests := totalRequests s + 1;
     totalTokens := add_total (totalTokens s) (total (tokens entry));
     totalCost := add_total (totalCost s) (cost entry);
     endpointCounts := bump (endpoint entry) (endpointCounts s);
     modelCounts := bump (property_key (entry_model entry)) (modelCounts s);
     providerCounts := bump (entry_provider entry) <$> providerCounts s |}.

(** Two calls of one user that cost 0.0125 and 0.00045. *)
Definition two_priced_calls : list LogEntry :=
  [ logEntry 1700000000000 "u1" "/chat/completions" (Some "gpt-4o")
      (Some {| usage := Some {| prompt_tokens := Some 1000%float;
                                completion_tokens := Some 500%float;
                                total_tokens := Some 1500%float |};
               error := None |});
    logEntry 1700000060000 "u1" "/chat/completions" (Some "gpt-4o-mini")
      (Some {| usage := Some {| prompt_tokens := Some 1000%float;
                                completion_tokens := Some 500%float;
                                total_tokens := Some 1500%float |};
               error := None |}) ].

(** Two completed calls of one user, the second one a failure. *)
Definition two_calls : list LogEntry :=
  [ logEntry 1700000000000 "u1" "/chat/completions" (Some "gpt-4o")
      (Some {| usage := Some {| prompt_tokens := Some 1000%float;
                                completion_tokens := Some 500%float;
                                total_tokens := Some 1500%float |};
               error := None |});
    logEntry 1700000060000 "u1" "/anthropic/messages" (Some "claude-3-opus-20240229")
      (Some {| usage := None;
               error := Some (ErrorObject (Some "Overloaded")) |}) ].

(** *** The recent logs *)

Section RecentLogs.

Context {Json : Type}.
Variable JSON_parse : string -> option Json.
Variable entry_time : Json -> option Z.
Variable setDate : Z -> Z -> Z.

(** The lines of the file of a day; there is none when the file is
    missing. *)
Definition lines_of (files : gmap Z string) (day : Z) : list string :=
  match files !! day with
  | Some data => split_lines (trim data)
  | None => []
  end.

(** The days whose files are read, in the order in which they are read. *)
Definition days_read (now : Z) : list Z :=
  [utc_day (setDate now 0); utc_day (setDate now 1); utc_day (setDate now 2)].

(** The entries that parse, from the files that are read, in the order in
    which they are read. *)
Definition parsed_entries (now : Z) (files : gmap Z string) : list Json :=
  omap JSON_parse (concat (map (lines_of files) (days_read now))).

(** The entries that parse, from the files of today and of the two UTC
    days before, in that order. *)
Definition utc_entries (now : Z) (files : gmap Z string) : list Json :=
  omap JSON_parse
       (lines_of files (utc_day now) ++ lines_of files (utc_day now - 1)
        ++ lines_of files (utc_day now - 2)).

(** The clock of the process moves by whole days over the days that are
    read: its time zone keeps one offset from UTC, as UTC itself does. *)
Definition whole_days (now : Z) : Prop :=
  forall i, (0 <= i <= 2)%Z -> setDate now i = (now - i * 86400000)%Z.

(** The age of the entry, in milliseconds, is at most [hours] hours. *)
Definition is_recent (now hours : Z) (entry : Json) : bool :=
  match entry_time entry with
  | Some t => (now - t <=? hours * 3600000)%Z
  | None => false
  end.

(** [a] is not older than [b]. *)
Definition newer_first (a b : Json) : Prop :=
  exists ta tb, entry_time a = Some ta /\ entry_time b = Some tb /\ (tb <= ta)%Z.

(** The entry, of instant [t], is a line of the file of its own day. *)
Definition filed (files : gmap Z string) (entry : Json) (t : Z) : Prop :=
  entry_time entry = Some t /\
  exists line, In line (lines_of files (utc_day t)) /\ JSON_parse line = Some entry.

(** Every entry is in the file of its own day, where [logRequest] writes
    it. *)
Definition well_filed (files : gmap Z string) : Prop :=
  forall day line entry t,
    In line (lines_of files day) -> JSON_parse line = Some entry ->
    entry_time entry = Some t -> utc_day t = day.

(** The two file collections hold the same files of today and of the two
    days before. *)
Definition same_window (now : Z) (files files' : gmap Z string) : Prop :=
  forall i, (0 <= i <= 2)%Z ->
    files' !! (utc_day now - i)%Z = files !! (utc_day now - i)%Z.

End RecentLogs.

(** *** The files that [logRequest] writes *)

(** The text has no line feed. *)
Fixpoint no_line_feed (s : string) : bool :=
  match s with
  | EmptyString => true
  | String c r => negb (Ascii.eqb c "010"%char) && no_line_feed r
  end.

(** The text starts with a character that is not white space. *)
Definition starts_clean (s : string) : bool :=
  match s with
  | EmptyString => false
  | String c _ => negb (white_space c)
  end.

(** A line as [JSON.stringify] prints an object: on one line, from its
    opening brace to its closing brace. *)
Definition clean_line (s : string) : Prop :=
  starts_clean s = true /\ trimEnd s = s /\ no_line_feed s = true.

(** The text of a file into which the lines were appended in order, each
    followed by a line feed. *)
Fixpoint file_text (lines : list string) : string :=
  match lines with
  | [] => ""
  | l :: rest => l +:+ LF +:+ file_text rest
  end.

(** Every file holds clean lines, and at least one. *)
Definition tidy (files : gmap Z string) : Prop :=
  forall day data, files !! day = Some data ->
    exists lines, data = file_text lines /\ lines <> [] /\ Forall clean_line lines.

(** A log directory read one hundred hours after the epoch: an entry ten
    hours old in the file of day 3, next to a broken line, and an entry
    four days old in the file of day 0. An entry is told by its instant. *)
Definition demo_now : Z := 360000000.

Definition demo_parse (line : string) : option Z :=
  if String.eqb line "A" then Some 324000000%Z
  else if String.eqb line "B" then Some 14400000%Z
  else None.

Definition demo_files : gmap Z string :=
  <[3%Z := "A" +:+ LF +:+ "{oops" +:+ LF]> (<[0%Z := "B" +:+ LF]> ∅).

(** The clock of a process that runs on UTC. *)
Definition utc_setDate (now i : Z) : Z := (now - i * 86400000)%Z.

(** The clock of New York around 3 November 2024: four hours behind UTC
    until 06:00 UTC of that day, when the clocks are set back, and five
    hours behind from then on. *)
Definition clocks_set_back : Z := 1730613600000.

Definition new_york_offset (instant : Z) : Z :=
  if (instant <? clocks_set_back)%Z then (-14400000)%Z else (-18000000)%Z.

(** [setDate] on that clock: the local time of day of [now], [i] local
    days earlier, read with the offset that holds at that local time (with
    the earlier one in the hour that repeats). *)
Definition new_york_setDate (now i : Z) : Z :=
  let local := (now + new_york_offset now - i * 86400000)%Z in
  if (local + 14400000 <? clocks_set_back)%Z then (local + 14400000)%Z
  else (local + 18000000)%Z.

(** A log directory read in New York at 00:30 UTC of 4 November 2024
    (19:30 of 3 November there): one entry, logged ten hours before, in
    the file of 3 November. *)
Definition autumn_now : Z := 1730680200000.

Definition autumn_entry : Z := 1730644200000.

Definition autumn_parse (line : string) : option Z :=
  if String.eqb line "E" then Some autumn_entry else None.

Definition autumn_files : gmap Z string :=
  <[20030%Z := "E" +:+ LF]> ∅.

End LoggerSpec.

(** ** The provider translations and the unified route *)

Module ServerSpec.
Import Js Server.

(** A reply stopped by the safety filter. *)
Definition blocked_reply : GeminiReply :=
  {| candidates := Some [ {| cand_content := None; finishReason := Some "SAFETY" |} ];
     usageMetadata := None |}.

(** A reply that ended on its own. *)
Definition finished_reply : GeminiReply :=
  {| candidates :=
       Some [ {| cand_content := Some {| rc_parts := Some [ {| rp_text := Some "Hello" |} ] |};
                 finishReason := Some "STOP" |} ];
     usageMetadata := None |}.

(** The finish reasons of the choices sent back for a Gemini reply. *)
Definition sent_finish_reasons (data : GeminiReply) : list string :=
  map finish_reason
      (choices (google_transformedResponse 1700000000000 1700000000001
                  "gemini-2.5-pro" data)).

Definition is_system (msg : Message) : Prop := role msg = "system".

(** The system field that C1 describes: the texts of the system messages,
    in order, joined by line feeds; absent when there is none. *)
Definition extracted_system (msgs : list Message) : option string :=
  match filter is_system msgs with
  | [] => None
  | sys => Some (join LF (map (fun msg => template (content msg)) sys))
  end.

(** C1 as worded, for one request body. *)
Definition system_extraction (body : Body) : Prop :=
  forall msgs, messages body = Some msgs ->
    ar_messages (anthropicRequest body)
      = Some (filter (fun msg => ~ is_system msg) msgs) /\
    ar_system (anthropicRequest body) = extracted_system msgs.

Definition system_message (text : string) : Message :=
  {| role := "system"; content := ContentString text |}.

Definition user_message (text : string) : Message :=
  {| role := "user"; content := ContentString text |}.

Definition assistant_message (text : string) : Message :=
  {| role := "assistant"; content := ContentString text |}.

(** A user message that holds one image and no text. *)
Definition image_message : Message :=
  {| role := "user";
     content := ContentArray [ItemImageUrl "data:image/png;base64,iVBORw0KGgo="] |}.

(** A request body with a provider and messages only. *)
Definition chat_body (provider : option string) (msgs : list Message) : Body :=
  {| provider := provider; model := None; messages := Some msgs;
     max_tokens := None; system := None; body_contents := None;
     generationConfig := None; safetySettings := None |}.

Definition all_keys : Env :=
  {| OPENAI_API_KEY := Some "sk-o";
     ANTHROPIC_API_KEY := Some "sk-a";
     GOOGLE_API_KEY := Some "sk-g" |}.

(** The identifiers the route knows. *)
Definition alias_table : list string :=
  ["openai"; "anthropic"; "claude"; "google"; "gemini"].

(** The answer C7 describes for the identifier [p]. *)
Definition rejected (outcome : Outcome) (p : string) : Prop :=
  outcome = Reply 400 ("Unknown provider: " +:+ p) "invalid_request".

(** C7 as worded, for one identifier: outside the table, it is rejected. *)
Definition rejects_outside_table (p : string) : Prop :=
  ~ In (toLowerCase p) alias_table ->
  forall env msgs, rejected (unified_chat env (chat_body (Some p) msgs)) p.

(** The parts of one item translated on its own. *)
Definition direct_item (item : Item) : list Part :=
  match item with
  | ItemText text => [PartText text]
  | ItemImageUrl url => image_parts url
  | ItemOther _ => []
  end.

(** The parts of a content translated on its own, without any prompt. *)
Definition direct_parts (c : Content) : list Part :=
  match c with
  | ContentString s => [PartText s]
  | ContentArray items => concat (map direct_item items)
  | ContentMissing => []
  end.

(** The entry of a message translated on its own. *)
Definition direct_entry (msg : Message) : GeminiContent :=
  {| g_role := gemini_role msg; parts := direct_parts (content msg) |}.

(** The text [prompt], a blank line, then [text]. *)
Definition prefixed (prompt text : string) : string :=
  prompt +:+ LF +:+ LF +:+ text.

(** The parts of an array of items whose first text item carries the
    prompt. *)
Fixpoint merged_items (prompt : string) (items : list Item) : list Part :=
  match items with
  | [] => []
  | ItemText text :: rest =>
      PartText (prefixed prompt text) :: concat (map direct_item rest)
  | item :: rest => direct_item item ++ merged_items prompt rest
  end.

(** The parts of a content whose first text part carries the prompt. *)
Definition merged_parts (prompt : string) (c : Content) : list Part :=
  match c with
  | ContentString s => [PartText (prefixed prompt s)]
  | ContentArray items => merged_items prompt items
  | ContentMissing => []
  end.

(** The first text part of the first entry of role [user]. *)
Definition first_text (ps : list Part) : option string :=
  head (omap (fun p => match p with PartText t => Some t | _ => None end) ps).

Definition first_user_text (out : list GeminiContent) : option string :=
  head (filter (fun e => g_role e = "user") out) ≫= (fun e => first_text (parts e)).

(** C2 as worded, for one message list with a system message of text
    [prompt] and a first user message of text [text]. *)
Definition merges_prompt (msgs : list Message) (prompt text : string) : Prop :=
  In (system_message prompt) msgs ->
  head (filter (fun msg => role msg = "user") msgs) = Some (user_message text) ->
  first_user_text (transformMessagesToGeminiFormat (Some msgs))
    = Some (prefixed prompt text).

End ServerSpec.

(** ** Authentication, replies and uploads *)

Module RoutesSpec.
Import Js Server Routes.

(** The four routes that post to a provider. *)
Definition provider_routes : list (Env -> Body -> Outcome) :=
  [chat_completions; anthropic_messages; google_generateContent; unified_chat].

(** The credential that a call to a provider carries. *)
Definition key_of (env : Env) (call : UpstreamCall) : option string :=
  match call with
  | PostOpenAI _ => OPENAI_API_KEY env
  | PostAnthropic _ => ANTHROPIC_API_KEY env
  | PostGoogle _ _ => GOOGLE_API_KEY env
  end.

(** The entry that the logging middleware builds for a response. *)
Definition logged_entry (now : Z) (x_user_id : option string) (path : string)
    (body : option Body) (responseData : option Logger.ResponseData)
    : Logger.LogEntry :=
  Logger.logEntry now (or_string x_user_id "unknown") path (body ≫= Server.model)
    responseData.

(** The entry is a failure with the reason [message], no tokens and no
    cost, under a user id that is not empty. *)
Definition logged_as_failure (entry : Logger.LogEntry) (message : string) : Prop :=
  Logger.success entry = false /\
  Logger.entry_error entry = Some message /\
  Logger.tokens entry
    = {| Logger.prompt := 0; Logger.completion := 0; Logger.total := 0 |} /\
  Logger.cost entry = 0%float /\
  Logger.userId entry <> "".

Section Upload.

Context {Buffer : Type}.
Variable utf8 : Buffer -> string.
Variable base64 : Buffer -> string.

(** The element of the answer for one file. *)
Definition uploaded (file : File) : UploadedFile :=
  {| up_name := name file;
     up_mimeType := mimetype file;
     up_size := size file;
     up_base64 := base64 (file_data file);
     up_textContent := textContent utf8 file |}.

(** The file is within the limit of ten megabytes. *)
Definition within_limit (file : @File Buffer) : Prop :=
  (size file <= 10485760)%Z.

End Upload.

(** A request with two small files, and one with a large file between
    them; the bytes of a file are its text. *)
Definition small_file (n : string) : @File string :=
  {| name := n; mimetype := "text/plain"; size := 12; file_data := "hello" |}.

Definition large_file (n : string) : @File string :=
  {| name := n; mimetype := "application/pdf"; size := 10485761; file_data := "" |}.

End RoutesSpec.

(** ** The Gemini content list, again *)

Module GeminiSpec.
Import Js Server ServerSpec.

(** The text has no semicolon. *)
Fixpoint no_semicolon (s : string) : bool :=
  match s with
  | EmptyString => true
  | String c r => negb (Ascii.eqb c ";"%char) && no_semicolon r
  end.

(** The data URL of a type and a payload. *)
Definition data_url (mime payload : string) : string :=
  "data:" +:+ mime +:+ ";base64," +:+ payload.

(** The messages that get an entry, in order. *)
Definition spoken (msgs : list Message) : list Message :=
  filter (fun msg => ~ is_system msg) msgs.

(** The prompt in force after the system messages [sys]. *)
Definition prompt_after (sys : list Message) : Content :=
  default (ContentString "") (last (map content sys)).

End GeminiSpec.

(** ** Costs and summaries, again *)

Module LedgerSpec.
Import Js Logger LoggerSpec.

(** The cost of a usage at given rates. *)
Definition price (u : Usage) (input_rate output_rate : float) : float :=
  (to_number (prompt_tokens u) / 1000000 * input_rate
   + to_number (completion_tokens u) / 1000000 * output_rate)%float.

(** A response that reports a usage without token counts and no error, as
    a transcription billed by duration does. *)
Definition usage_without_counts : ResponseData :=
  {| usage := Some {| prompt_tokens := None; completion_tokens := None;
                      total_tokens := None |};
     error := None |}.

(** Updates of the summaries of several users, one after the other. *)
Definition run_updates (updates : list (string * LogEntry))
    (document : option (gmap string UserSummary))
    : option (gmap string UserSummary) :=
  fold_left (fun doc update => updateUserSummary (fst update) (snd update) doc)
            updates document.

(** No update is for the user id [__proto__]: such an update writes into
    what every object inherits. *)
Definition ordinary_users (updates : list (string * LogEntry)) : Prop :=
  Forall (fun update => fst update <> "__proto__") updates.

(** The summary that the document itself holds for the user. *)
Definition stored (userId : string)
    (document : option (gmap string UserSummary)) : option UserSummary :=
  document ≫= (fun summaries => summaries !! userId).

(** How many of the updates are for the user. *)
Definition updates_of (userId : string) (updates : list (string * LogEntry)) : N :=
  N.of_nat (length (filter (fun update => fst update = userId) updates)).

End LedgerSpec.

(** ** The analytics routes *)

Module AnalyticsSpec.
Import Js Logger LoggerSpec.

(** The number that a counter holds; a text holds none. *)
Definition counted (c : Count) : N :=
  match c with
  | Number n => n
  | Text => 0%N
  end.

(** The sum of the numbers of a dictionary of counters. *)
Definition sum_counts (counts : gmap string Count) : N :=
  map_fold (fun _ count total => (total + counted count)%N) 0%N counts.

(** The counters are numbers, under plain keys. *)
Definition plain_counts (counts : gmap string Count) : Prop :=
  forall key c, counts !! key = Some c -> plain key /\ exists n, c = Number n.

(** Every summary has the provider counters of the present logger, and its
    counts per model are numbers under plain keys that add up to its
    number of requests. *)
Definition balanced (stats : gmap string UserSummary) : Prop :=
  forall user s, stats !! user = Some s ->
    is_Some (providerCounts s) /\ plain_counts (modelCounts s) /\
    sum_counts (modelCounts s) = totalRequests s.

(** The user has [n] requests on record: none and no summary, or a summary
    that counts [n]. *)
Definition on_record (userId : string) (n : N)
    (document : option (gmap string UserSummary)) : Prop :=
  match getUserStats userId document with
  | Missing => n = 0%N
  | Own s => totalRequests s = n /\ n <> 0%N
  | Inherited => False
  end.

(** The user id and the model of every update are plain keys. *)
Definition plain_updates (updates : list (string * LogEntry)) : Prop :=
  Forall (fun update => plain (fst update) /\
                        plain (property_key (entry_model (snd update)))) updates.

End AnalyticsSpec.

(** * Properties *)

(** ** Strings *)

Module JsFacts.
Import Js JsSpec.

Lemma startsWith_prefix (needle hay : string) :
  startsWith needle hay = true <-> exists rest, hay = needle +:+ rest.
Proof.
  revert hay. induction needle as [|a n IH]; intros hay; simpl.
  - split; [intros _; exists hay; reflexivity | reflexivity].
  - destruct hay as [|b h].
    + split; [discriminate | intros [rest Hr]; discriminate].
    + destruct (Ascii.eqb_spec a b) as [->|Hab].
      * rewrite IH. split.
        -- intros [rest ->]. exists rest. reflexivity.
        -- intros [rest Hr]. exists rest. now inversion Hr.
      * split; [discriminate | intros [rest Hr]; inversion Hr; congruence].
Qed.

Lemma includes_substring (needle hay : string) :
  includes needle hay = true <-> substring needle hay.
Proof.
  unfold substring. induction hay as [|c h IH].
  - simpl. rewrite orb_false_r, startsWith_prefix. split.
    + intros [rest Hr]. exists "", rest. exact Hr.
    + intros [[|x before] [after Hr]]; [exists after; exact Hr | discriminate].
  - cbn [includes]. rewrite orb_true_iff, IH, startsWith_prefix. split.
    + intros [[rest Hr] | (before & after & Hr)].
      * exists "", rest. exact Hr.
      * exists (String c before), after. simpl. now rewrite Hr.
    + intros [[|x before] [after Hr]].
      * left. exists after. exact Hr.
      * right. exists before, after. simpl in Hr. now inversion Hr.
Qed.


End JsFacts.

(** ** The log entry: provider, cost, token counts and success flag *)

Module LoggerFacts.
Import Js JsSpec JsFacts Logger LoggerSpec.

(** Two numbers that [===] tells apart are different. *)
Lemma float_eqb_neq (x y : float) :
  PrimFloat.eqb x x = true -> PrimFloat.eqb x y = false -> x <> y.
Proof. intros Hx Hxy ->. congruence. Qed.

Lemma model_includes_substring (needle : string) (model : option string) :
  model_includes needle model = true <->
  exists m, model = Some m /\ substring needle m.
Proof.
  destruct model as [m|]; simpl.
  - rewrite includes_substring. split.
    + intros H. exists m. split; [reflexivity | exact H].
    + intros (m' & Hm & H). now inversion Hm; subst.
  - split; [discriminate | intros (m & Hm & _); discriminate].
Qed.

Lemma anthropic_test (endpoint : string) (model : option string) :
  includes "anthropic" endpoint || model_includes "claude" model = true <->
  names_anthropic endpoint model.
Proof.
  unfold names_anthropic.
  now rewrite orb_true_iff, includes_substring, model_includes_substring.
Qed.

Lemma google_test (endpoint : string) (model : option string) :
  includes "google" endpoint || model_includes "gemini" model = true <->
  names_google endpoint model.
Proof.
  unfold names_google.
  now rewrite orb_true_iff, includes_substring, model_includes_substring.
Qed.





(** C10, refuted as stated: a payload whose [error] field is [null] has
    an [error] field and is logged as a success. *)
Lemma null_error_logged_as_success :
  ~ success_without_error_field
      (logEntry 0 "u1" "/chat/completions" (Some "gpt-4o") (Some null_error))
      (Some null_error).
Proof.
  intros [H _]. destruct (H eq_refl) as (r & Hr & He).
  inversion Hr; subst r. discriminate.
Qed.

(** C10, as the code has it. Without a payload the entry is a failure
    without error. With a payload, the entry is a success exactly when the
    top-level [error] is absent or falsy ([null], the empty text, [false],
    zero), and then records no error; any other error makes it a failure,
    which records the message of an error object when that is a text
    which is not empty, and no error otherwise. *)
Theorem success_flag_and_error (now : Z) (userId endpoint : string)
    (model : option string) (responseData : option ResponseData) :
  let entry := logEntry now userId endpoint model responseData in
  (responseData = None -> success entry = false /\ entry_error entry = None) /\
  (forall r, responseData = Some r ->
     (error r = None \/ error r = Some ErrorNull \/ error r = Some (ErrorText "") \/
      error r = Some (ErrorOther false) ->
      success entry = true /\ entry_error entry = None) /\
     ((exists t, error r = Some (ErrorText t) /\ t <> "") \/
      error r = Some (ErrorOther true) ->
      success entry = false /\ entry_error entry = None) /\
     (forall m, error r = Some (ErrorObject (Some m)) -> m <> "" ->
      success entry = false /\ entry_error entry = Some m) /\
     (error r = Some (ErrorObject None) \/ error r = Some (ErrorObject (Some "")) ->
      success entry = false /\ entry_error entry = None)).
Proof.
  cbv zeta. split.
  - intros ->. split; reflexivity.
  - intros r ->. cbn [logEntry success entry_error mbind option_bind].
    split; [| split; [| split]].
    + intros [-> | [-> | [-> | ->]]]; split; reflexivity.
    + intros [(t & -> & Ht) | ->]; [| split; reflexivity].
      split; [| reflexivity]. cbn [truthy_error].
      destruct (String.eqb_spec t ""); [contradiction | reflexivity].
    + intros m -> Hm. split; [reflexivity |]. cbn [error_message].
      destruct (String.eqb_spec m ""); [contradiction | reflexivity].
    + intros [-> | ->]; split; reflexivity.
Qed.

(** An upstream error body passed through verbatim is a failed call that
    records the upstream message, and a payload without [error] field is a
    success. *)
Lemma success_flag_and_error_witness :
  let failed := {| usage := None; error := Some (ErrorObject (Some "Rate limit reached")) |} in
  let completed := {| usage := Some small_usage; error := None |} in
  ("Rate limit reached" <> "" /\
   success (logEntry 0 "u1" "/chat/completions" (Some "gpt-4o") (Some failed)) = false /\
   entry_error (logEntry 0 "u1" "/chat/completions" (Some "gpt-4o") (Some failed))
   = Some "Rate limit reached") /\
  success (logEntry 0 "u1" "/chat/completions" (Some "gpt-4o") (Some completed)) = true /\
  entry_error (logEntry 0 "u1" "/chat/completions" (Some "gpt-4o") (Some completed)) = None.
Proof.
  cbv zeta.
  assert (H : "Rate limit reached" <> "") by discriminate.
  split; [split; [exact H |] |].
  - exact (proj1 (proj2 (proj2
             (proj2 (success_flag_and_error 0 "u1" "/chat/completions" (Some "gpt-4o")
                       (Some {| usage := None;
                                error := Some (ErrorObject (Some "Rate limit reached")) |}))
                    _ eq_refl)))
             "Rate limit reached" eq_refl H).
  - exact (proj1
             (proj2 (success_flag_and_error 0 "u1" "/chat/completions" (Some "gpt-4o")
                       (Some {| usage := Some small_usage; error := None |}))
                    _ eq_refl)
             (or_introl eq_refl)).
Defined.

(** C6, refuted as stated: the total of the entry is not always the sum of
    its prompt and completion counts. *)
Lemma total_tokens_not_always_sum :
  ~ total_is_sum (logEntry 0 "u1" "/google/generateContent"
                    (Some "gemini-2.5-pro") (Some reply_with_larger_total)).
Proof.
  unfold total_is_sum. apply float_eqb_neq; vm_compute; reflexivity.
Qed.

Lemma or_zero_truthy (v : float) :
  truthy_number v = true -> or_zero (Some v) = v.
Proof. intros H. simpl. now rewrite H. Qed.

(** C6, as the code has it. The total of the entry is the total the
    payload reports (zero when it reports none), copied on its own and not
    computed from the two other counts. So the entry satisfies
    [total = prompt + completion] when the payload reports no usage, and
    when the three counts the payload reports are non-zero numbers that
    satisfy it. *)
Theorem total_tokens_as_reported (now : Z) (userId endpoint : string)
    (model : option string) (responseData : option ResponseData) :
  let entry := logEntry now userId endpoint model responseData in
  total (tokens entry) =
    match responseData ≫= usage with
    | Some u => or_zero (total_tokens u)
    | None => 0%float
    end /\
  (responseData ≫= usage = None -> total_is_sum entry) /\
  (forall u p c t,
     responseData ≫= usage = Some u ->
     prompt_tokens u = Some p -> completion_tokens u = Some c ->
     total_tokens u = Some t ->
     truthy_number p = true -> truthy_number c = true ->
     truthy_number t = true ->
     t = (p + c)%float ->
     total_is_sum entry).
Proof.
  cbv zeta. unfold total_is_sum. simpl. unfold usage_count.
  destruct responseData as [r|]; simpl.
  - destruct (usage r) as [u|]; simpl.
    + split; [reflexivity|]. split; [discriminate|].
      intros u' p c t Hu Hp Hc Ht Tp Tc Tt Hsum. inversion Hu; subst u'.
      rewrite Hp, Hc, Ht, !or_zero_truthy by assumption. exact Hsum.
    + split; [reflexivity|]. split; [reflexivity | discriminate].
  - split; [reflexivity|]. split; [reflexivity | discriminate].
Qed.

(** A completion that reports 12, 30 and 42 tokens. *)
Lemma total_tokens_as_reported_witness :
  let u := {| prompt_tokens := Some 12%float;
              completion_tokens := Some 30%float;
              total_tokens := Some 42%float |} in
  (truthy_number 12 = true /\ truthy_number 30 = true /\
   truthy_number 42 = true /\ 42%float = (12 + 30)%float) /\
  total_is_sum (logEntry 0 "u1" "/chat/completions" (Some "gpt-4o")
                  (Some {| usage := Some u; error := None |})).
Proof.
  cbv zeta. split; [repeat split; reflexivity |].
  exact (proj2 (proj2 (total_tokens_as_reported 0 "u1" "/chat/completions"
                         (Some "gpt-4o")
                         (Some {| usage := Some {| prompt_tokens := Some 12%float;
                                                   completion_tokens := Some 30%float;
                                                   total_tokens := Some 42%float |};
                                  error := None |})))
           {| prompt_tokens := Some 12%float;
              completion_tokens := Some 30%float;
              total_tokens := Some 42%float |}
           12%float 30%float 42%float eq_refl eq_refl eq_refl eq_refl
           eq_refl eq_refl eq_refl eq_refl).
Defined.

(** *** The cost *)

Lemma lookup_key_In (key : string) (table : list (string * Pricing)) (p : Pricing) :
  NoDup (map fst table) ->
  lookup_key key table = Some p <-> In (key, p) table.
Proof.
  induction table as [|[k v] rest IH]; simpl; intros Hnd.
  - split; [discriminate | tauto].
  - apply NoDup_cons in Hnd as [Hk Hrest].
    destruct (String.eqb_spec k key) as [->|Hne].
    + split.
      * intros H. inversion H. now left.
      * intros [H | H]; [now inversion H |].
        exfalso. apply Hk. apply list_elem_of_In.
        change key with (fst (key, p)). now apply in_map.
    + rewrite (IH Hrest). split; [now right |].
      intros [H | H]; [inversion H; congruence | exact H].
Qed.

Lemma lookup_key_None (key : string) (table : list (string * Pricing)) :
  lookup_key key table = None <-> forall p, ~ In (key, p) table.
Proof.
  induction table as [|[k v] rest IH]; simpl.
  - split; [tauto | reflexivity].
  - destruct (String.eqb_spec k key) as [->|Hne].
    + split; [discriminate |]. intros H. exfalso. apply (H v). now left.
    + rewrite IH. split.
      * intros H p [Hp | Hp]; [inversion Hp; congruence | now apply (H p)].
      * intros H p Hp. apply (H p). now right.
Qed.

Lemma pricing_keys_distinct : NoDup (map fst pricing).
Proof. apply (bool_decide_unpack _). vm_compute. exact I. Qed.

Lemma defaultPricing_keys_distinct : NoDup (map fst defaultPricing).
Proof. apply (bool_decide_unpack _). vm_compute. exact I. Qed.

Lemma nan_times (x : float) : (x * PrimFloat.nan)%float = PrimFloat.nan.
Proof.
  apply Prim2SF_inj. rewrite mul_spec.
  change (Prim2SF PrimFloat.nan) with S754_nan.
  unfold SF64mul, SFmul. destruct (Prim2SF x); reflexivity.
Qed.

(** A product with a rate that is [undefined] is [NaN], and so is the cost. *)
Lemma cost_without_rates (p c : float) :
  (p / 1000000 * PrimFloat.nan + c / 1000000 * PrimFloat.nan)%float = PrimFloat.nan.
Proof. rewrite !nan_times. reflexivity. Qed.

Lemma table_member_own (key : string) (table : list (string * Pricing)) (p : Pricing) :
  NoDup (map fst table) -> In (key, p) table -> table_member key table = Own p.
Proof.
  intros Hnd Hin. unfold table_member.
  now rewrite (proj2 (lookup_key_In _ _ _ Hnd) Hin).
Qed.

Lemma table_member_other (key : string) (table : list (string * Pricing)) :
  (forall p, ~ In (key, p) table) ->
  table_member key table = if inherited key then Inherited else Missing.
Proof.
  intros Hout. unfold table_member. now rewrite (proj2 (lookup_key_None _ _) Hout).
Qed.

(** C3, the failing input. The model name [constructor] is no entry of
    the pricing table, and the provider [openai] has default rates; yet
    the cost of 1000 prompt tokens and 500 completion tokens is not the
    cost at those rates: [pricing[model]] answers the member that every
    object inherits under that name, which is truthy and has no rates,
    and the cost is [NaN]. *)
Theorem calculateCost_inherited_model :
  (forall p, ~ In ("constructor", p) pricing) /\
  In ("openai", {| input := 5; output := 15 |}%float) defaultPricing /\
  calculateCost (Some "constructor") (Some small_usage) "openai" = PrimFloat.nan /\
  calculateCost (Some "constructor") (Some small_usage) "openai"
  <> (1000 / 1000000 * 5 + 500 / 1000000 * 15)%float.
Proof.
  split; [apply lookup_key_None; reflexivity |].
  split; [simpl; tauto |].
  split; [reflexivity |].
  intros H. apply (f_equal PrimFloat.is_nan) in H. vm_compute in H. discriminate.
Qed.

(** X25. Without a usage record the cost is zero. With one, the cost is
    [prompt_tokens / 1e6 * input + completion_tokens / 1e6 * output], where
    the two rates are those of the entry of the pricing table for exactly
    this model when there is one; otherwise, for a model name that is a
    plain key, those of the provider's entry of the default table when
    there is one; otherwise, for a provider name that is a plain key,
    those of the OpenAI entry of the default table. When the first of the
    two names that has no entry is not a plain key, the cost is not a
    number. *)
Theorem calculateCost_rates_and_formula (model : option string)
    (provider : string) (u : Usage) :
  let formula (rates : Pricing) :=
    (to_number (prompt_tokens u) / 1000000 * input rates
     + to_number (completion_tokens u) / 1000000 * output rates)%float in
  calculateCost model None provider = 0%float /\
  (forall p, In (property_key model, p) pricing ->
     calculateCost model (Some u) provider = formula p) /\
  ((forall p, ~ In (property_key model, p) pricing) ->
   (plain (property_key model) ->
    (forall p, In (provider, p) defaultPricing ->
       calculateCost model (Some u) provider = formula p) /\
    ((forall p, ~ In (provider, p) defaultPricing) ->
     (plain provider ->
      exists p, In ("openai", p) defaultPricing /\
                calculateCost model (Some u) provider = formula p) /\
     (~ plain provider -> calculateCost model (Some u) provider = PrimFloat.nan))) /\
   (~ plain (property_key model) ->
    calculateCost model (Some u) provider = PrimFloat.nan)).
Proof.
  cbv zeta. unfold plain. split; [reflexivity |]. split.
  - intros p Hp. unfold calculateCost, modelPricing.
    now rewrite (table_member_own _ _ _ pricing_keys_distinct Hp).
  - intros Hm. unfold calculateCost, modelPricing.
    rewrite (table_member_other _ _ Hm).
    destruct (inherited (property_key model)); split;
      try (intros H; congruence); try (intros H; exfalso; now apply H).
    + intros _. apply cost_without_rates.
    + intros _. split.
      * intros p Hp.
        now rewrite (table_member_own _ _ _ defaultPricing_keys_distinct Hp).
      * intros Hp. rewrite (table_member_other _ _ Hp).
        destruct (inherited provider); split;
          try (intros H; congruence); try (intros H; exfalso; now apply H).
        -- intros _. apply cost_without_rates.
        -- intros _. eexists. split; [| reflexivity]. simpl. tauto.
Qed.

(** One million prompt tokens and two million completion tokens of
    [gpt-4o-mini] are priced with the rates of its own entry. *)
Lemma calculateCost_rates_and_formula_witness :
  In ("gpt-4o-mini", {| input := 0.15; output := 0.6 |}%float) pricing /\
  calculateCost (Some "gpt-4o-mini")
    (Some {| prompt_tokens := Some 1000000%float;
             completion_tokens := Some 2000000%float;
             total_tokens := Some 3000000%float |}) "openai"
  = (1000000 / 1000000 * 0.15 + 2000000 / 1000000 * 0.6)%float.
Proof.
  assert (Hin : In ("gpt-4o-mini", {| input := 0.15; output := 0.6 |}%float) pricing)
    by (simpl; tauto).
  split; [exact Hin |].
  exact (proj1 (proj2 (calculateCost_rates_and_formula (Some "gpt-4o-mini") "openai"
                         {| prompt_tokens := Some 1000000%float;
                            completion_tokens := Some 2000000%float;
                            total_tokens := Some 3000000%float |}))
           _ Hin).
Defined.

End LoggerFacts.

(** ** The provider translations and the unified route *)

Module ServerFacts.
Import Js Server ServerSpec.

(** *** The Gemini finish reason *)

(** C8. The finish reason sent back for a Gemini reply is [stop] when the
    [finishReason] of the first candidate of the reply is exactly [STOP],
    and [length] for every other value of it, when the first candidate
    has none, and when the reply has no candidate at all. *)
Theorem google_finish_reason_coarse (now later : Z) (model : string)
    (data : GeminiReply) :
  let sent :=
    map finish_reason (choices (google_transformedResponse now later model data)) in
  (forall c others, candidates data = Some (c :: others) ->
     (finishReason c = Some "STOP" -> sent = ["stop"]) /\
     (finishReason c <> Some "STOP" -> sent = ["length"])) /\
  (candidates data = None \/ candidates data = Some [] -> sent = ["length"]).
Proof.
  cbv zeta. simpl. unfold google_finish_reason, first_candidate. split.
  - intros c others ->. destruct (finishReason c) as [r|].
    + destruct (String.eqb_spec r "STOP") as [->|Hne].
      * split; [reflexivity | congruence].
      * split; [intros H; inversion H; contradiction | reflexivity].
    + split; [discriminate | reflexivity].
  - intros [-> | ->]; reflexivity.
Qed.

(** A reply whose candidate ended with [STOP] is answered with [stop], one
    that the safety filter stopped with [length], and so is a reply
    without candidates. *)
Lemma google_finish_reason_coarse_witness :
  sent_finish_reasons finished_reply = ["stop"] /\
  sent_finish_reasons blocked_reply = ["length"] /\
  sent_finish_reasons {| candidates := None; usageMetadata := None |} = ["length"].
Proof.
  split; [| split].
  - exact (proj1 (proj1 (google_finish_reason_coarse 1700000000000 1700000000001
                           "gemini-2.5-pro" finished_reply) _ _ eq_refl) eq_refl).
  - assert (H : Some "SAFETY" <> Some "STOP") by discriminate.
    exact (proj2 (proj1 (google_finish_reason_coarse 1700000000000 1700000000001
                           "gemini-2.5-pro" blocked_reply) _ _ eq_refl) H).
  - exact (proj2 (google_finish_reason_coarse 1700000000000 1700000000001
                    "gemini-2.5-pro" {| candidates := None; usageMetadata := None |})
                 (or_introl eq_refl)).
Defined.

(** *** The Anthropic request *)

(** C1, refuted as stated: two system messages in the message list are
    neither removed from it nor sent as the system field. *)
Lemma anthropic_keeps_system_messages :
  ~ system_extraction
      (chat_body (Some "anthropic")
         [system_message "Be brief."; system_message "Answer in French.";
          user_message "Hi"]).
Proof.
  intros H. destruct (H _ eq_refl) as [_ Hsys].
  vm_compute in Hsys. discriminate.
Qed.

Lemma unified_anthropic_payload (env : Env) (body : Body) (payload : AnthropicRequest) :
  unified_chat env body = Call (PostAnthropic payload) ->
  payload = anthropicRequest body.
Proof.
  unfold unified_chat, chat_completions, anthropic_messages, google_generateContent.
  repeat match goal with
         | |- context [if ?b then _ else _] => destruct b
         end; intros H; inversion H; reflexivity.
Qed.

(** C1, as the code has it. A unified request routed to Anthropic is posted
    with the message list of the body as it is, system messages included,
    and with the [system] field of the body as its system field, absent
    when the body has none. *)
Theorem anthropic_system_passthrough (env : Env) (body : Body)
    (payload : AnthropicRequest) :
  unified_chat env body = Call (PostAnthropic payload) ->
  ar_messages payload = messages body /\ ar_system payload = system body.
Proof.
  intros H. apply unified_anthropic_payload in H. subst payload. split; reflexivity.
Qed.

Lemma anthropic_system_passthrough_witness :
  let body := chat_body (Some "claude")
                [system_message "Be brief."; user_message "Hi"] in
  unified_chat all_keys body = Call (PostAnthropic (anthropicRequest body)) /\
  ar_messages (anthropicRequest body)
    = Some [system_message "Be brief."; user_message "Hi"] /\
  ar_system (anthropicRequest body) = None.
Proof.
  cbv zeta. split; [reflexivity |].
  exact (anthropic_system_passthrough all_keys
           (chat_body (Some "claude") [system_message "Be brief."; user_message "Hi"])
           _ eq_refl).
Defined.

(** *** The unified route *)

(** C7, refuted as stated: the empty identifier is outside the table, and
    the request is posted to OpenAI. *)
Lemma empty_provider_not_rejected : ~ rejects_outside_table "".
Proof.
  intros H.
  assert (Hout : ~ In (toLowerCase "") alias_table).
  { simpl. intros Hin. repeat destruct Hin as [Hin | Hin]; try discriminate. exact Hin. }
  specialize (H Hout all_keys [user_message "Hi"]).
  vm_compute in H. discriminate.
Qed.

Lemma or_string_nonempty (p d : string) : p <> "" -> or_string (Some p) d = p.
Proof.
  intros Hp. simpl. destruct (String.eqb_spec p ""); [contradiction | reflexivity].
Qed.

(** C7, as the code has it. A missing or empty identifier stands for
    [openai]. A non-empty identifier is put in lower case and compared with
    the alias table: [openai] runs the OpenAI route, [anthropic] and
    [claude] the Anthropic route, [google] and [gemini] the Gemini route,
    and every other identifier is answered with status 400 and a message
    that names it as it was given, without any provider route being
    run. *)
Theorem unified_dispatch (env : Env) (body : Body) :
  (provider body = None \/ provider body = Some "" ->
   unified_chat env body = chat_completions env body) /\
  (forall p, provider body = Some p -> p <> "" ->
     (toLowerCase p = "openai" ->
      unified_chat env body = chat_completions env body) /\
     (toLowerCase p = "anthropic" \/ toLowerCase p = "claude" ->
      unified_chat env body = anthropic_messages env body) /\
     (toLowerCase p = "google" \/ toLowerCase p = "gemini" ->
      unified_chat env body = google_generateContent env body) /\
     (~ In (toLowerCase p) alias_table ->
      rejected (unified_chat env body) p)).
Proof.
  split.
  - intros [H | H]; unfold unified_chat; rewrite H; reflexivity.
  - intros p Hp Hne. unfold unified_chat, rejected.
    rewrite Hp, (or_string_nonempty _ _ Hne).
    repeat split.
    + intros ->. reflexivity.
    + intros [-> | ->]; reflexivity.
    + intros [-> | ->]; reflexivity.
    + intros Hout.
      destruct (String.eqb_spec (toLowerCase p) "openai") as [E|_];
        [exfalso; apply Hout; rewrite E; simpl; tauto |].
      destruct (String.eqb_spec (toLowerCase p) "anthropic") as [E|_];
        [exfalso; apply Hout; rewrite E; simpl; tauto |].
      destruct (String.eqb_spec (toLowerCase p) "claude") as [E|_];
        [exfalso; apply Hout; rewrite E; simpl; tauto |].
      destruct (String.eqb_spec (toLowerCase p) "google") as [E|_];
        [exfalso; apply Hout; rewrite E; simpl; tauto |].
      destruct (String.eqb_spec (toLowerCase p) "gemini") as [E|_];
        [exfalso; apply Hout; rewrite E; simpl; tauto |].
      reflexivity.
Qed.

Lemma not_an_alias (p : string) :
  forallb (fun a => negb (String.eqb a p)) alias_table = true ->
  ~ In p alias_table.
Proof.
  intros H Hin. rewrite forallb_forall in H. specialize (H p Hin).
  now rewrite String.eqb_refl in H.
Qed.

(** The identifier [foo] is rejected by name. *)
Lemma unified_dispatch_witness :
  ("foo" <> "" /\ ~ In (toLowerCase "foo") alias_table) /\
  unified_chat all_keys (chat_body (Some "foo") [user_message "Hi"])
  = Reply 400 "Unknown provider: foo" "invalid_request".
Proof.
  assert (Hne : "foo" <> "") by discriminate.
  assert (Hout : ~ In (toLowerCase "foo") alias_table)
    by (apply not_an_alias; reflexivity).
  split; [split; assumption |].
  exact (proj2 (proj2 (proj2
           (proj2 (unified_dispatch all_keys (chat_body (Some "foo") [user_message "Hi"]))
                  "foo" eq_refl Hne))) Hout).
Defined.

(** The identifiers of the table are matched whatever their case. *)
Lemma unified_dispatch_ignores_case :
  unified_chat all_keys (chat_body (Some "Claude") [user_message "Hi"])
  = anthropic_messages all_keys (chat_body (Some "Claude") [user_message "Hi"]) /\
  unified_chat all_keys (chat_body (Some "GEMINI") [user_message "Hi"])
  = google_generateContent all_keys (chat_body (Some "GEMINI") [user_message "Hi"]) /\
  unified_chat all_keys (chat_body (Some "OpenAI") [user_message "Hi"])
  = chat_completions all_keys (chat_body (Some "OpenAI") [user_message "Hi"]).
Proof. repeat split. Qed.

(** *** The Gemini content list *)

(** C2, refuted as stated: a system message that comes after the first
    user message is merged nowhere. *)
Lemma gemini_late_prompt_dropped :
  ~ merges_prompt [user_message "Hi"; system_message "Be terse."] "Be terse." "Hi".
Proof.
  intros H.
  assert (Hin : In (system_message "Be terse.")
                   [user_message "Hi"; system_message "Be terse."])
    by (simpl; tauto).
  specialize (H Hin eq_refl). vm_compute in H. discriminate.
Qed.

Lemma text_part_plain (r : string) (first : bool) (sp : Content) (text : string) :
  String.eqb r "user" && truthy sp && first = false ->
  text_part r first sp text = (PartText text, sp).
Proof. intros H. unfold text_part. now rewrite H. Qed.

Lemma items_plain (r : string) (first : bool) (sp : Content) (items : list Item) :
  String.eqb r "user" && truthy sp && first = false ->
  forall ps,
    fold_left (item_step r first) items (ps, sp)
    = (ps ++ concat (map direct_item items), sp).
Proof.
  intros H. induction items as [|item rest IH]; intros ps; simpl.
  - now rewrite app_nil_r.
  - destruct item as [text|url|ty]; simpl.
    + rewrite (text_part_plain _ _ _ _ H), IH, <- app_assoc. reflexivity.
    + rewrite IH, <- app_assoc. reflexivity.
    + apply IH.
Qed.

Lemma items_merged (sp : Content) (items : list Item) :
  truthy sp = true ->
  forall ps,
    fst (fold_left (item_step "user" true) items (ps, sp))
    = ps ++ merged_items (template sp) items.
Proof.
  intros Hsp. induction items as [|item rest IH]; intros ps; simpl.
  - now rewrite app_nil_r.
  - destruct item as [text|url|ty]; simpl.
    + unfold text_part. rewrite Hsp. simpl.
      rewrite items_plain by reflexivity. simpl.
      rewrite <- app_assoc. reflexivity.
    + rewrite IH, <- app_assoc. reflexivity.
    + apply IH.
Qed.

(** A system message only replaces the prompt. *)
Lemma system_messages_set_prompt (sys : list Message) (st : LoopState) :
  Forall is_system sys ->
  fold_left message_step sys st
  = {| contents := contents st;
       systemPrompt := default (systemPrompt st) (last (map content sys)) |}.
Proof.
  revert st. induction sys as [|msg rest IH]; intros st Hsys.
  - destruct st. reflexivity.
  - apply Forall_cons in Hsys as [Hmsg Hrest]. simpl.
    rewrite (IH _ Hrest). unfold message_step at 1 2. rewrite Hmsg. simpl.
    rewrite last_cons. destruct (last (map content rest)); reflexivity.
Qed.

(** Once the content list has an entry, every message is translated on its
    own. *)
Lemma later_messages_direct (rest : list Message) (st : LoopState) :
  contents st <> [] ->
  contents (fold_left message_step rest st)
  = contents st ++ map direct_entry (filter (fun msg => ~ is_system msg) rest).
Proof.
  revert st. induction rest as [|msg rest IH]; intros st Hne; simpl.
  - now rewrite app_nil_r.
  - assert (Hfirst : Nat.eqb (length (contents st)) 0 = false).
    { destruct (contents st); [contradiction | reflexivity]. }
    unfold is_system in *. rewrite filter_cons.
    unfold message_step at 2.
    destruct (String.eqb_spec (role msg) "system") as [Hs|Hs].
    + rewrite decide_False by tauto. now rewrite IH.
    + rewrite decide_True by assumption. rewrite Hfirst.
      assert (Hplain : forall sp, String.eqb (gemini_role msg) "user" && truthy sp && false = false)
        by (intros sp; apply andb_false_r).
      destruct (content msg) as [s|items|] eqn:Ec.
      * rewrite (text_part_plain _ _ _ _ (Hplain _)).
        rewrite IH by (simpl; destruct (contents st); discriminate). simpl.
        unfold direct_entry at 2. rewrite Ec, <- app_assoc. reflexivity.
      * rewrite (items_plain _ _ _ _ (Hplain _)).
        rewrite IH by (simpl; destruct (contents st); discriminate). simpl.
        unfold direct_entry at 2. rewrite Ec, <- app_assoc. reflexivity.
      * rewrite IH by (simpl; destruct (contents st); discriminate). simpl.
        unfold direct_entry at 2. rewrite Ec, <- app_assoc. reflexivity.
Qed.

Lemma first_text_app (l1 l2 : list Part) :
  first_text (l1 ++ l2)
  = match first_text l1 with Some t => Some t | None => first_text l2 end.
Proof.
  unfold first_text. rewrite omap_app.
  destruct (omap _ l1); reflexivity.
Qed.

Lemma image_parts_no_text (url : string) : first_text (image_parts url) = None.
Proof.
  unfold image_parts. destruct (startsWith "data:" url); [| reflexivity].
  destruct (match_data_url url) as [[mime data]|]; reflexivity.
Qed.

(** What comes before the first text part of a list of parts. *)
Lemma before_first_text (l1 l2 before after : list Part) (text : string) :
  first_text l1 = None -> first_text before = None ->
  l1 ++ l2 = before ++ PartText text :: after ->
  exists more, before = l1 ++ more /\ l2 = more ++ PartText text :: after.
Proof.
  revert before. induction l1 as [|p l1 IH]; intros before H1 Hb E.
  - exists before. split; [reflexivity | exact E].
  - destruct p as [t|mime data]; [discriminate H1 |].
    destruct before as [|q before]; [discriminate E |].
    simpl in E. injection E as <- E.
    destruct (IH before H1 Hb E) as (more & -> & ->).
    exists more. split; reflexivity.
Qed.

(** The first text item of an array carries the prompt; the other items
    are translated as they are. *)
Lemma merged_items_text (prompt : string) (items : list Item)
    (before after : list Part) (text : string) :
  concat (map direct_item items) = before ++ PartText text :: after ->
  first_text before = None ->
  merged_items prompt items = before ++ PartText (prefixed prompt text) :: after.
Proof.
  revert before. induction items as [|item items IH]; intros before E Hb.
  - destruct before; discriminate E.
  - destruct item as [t|url|ty]; simpl in E |- *.
    + destruct before as [|q before].
      * injection E as -> <-. reflexivity.
      * injection E as <- _. discriminate Hb.
    + destruct (before_first_text _ _ _ _ _ (image_parts_no_text url) Hb E)
        as (more & -> & E').
      rewrite first_text_app, image_parts_no_text in Hb.
      rewrite (IH more E' Hb), <- app_assoc. reflexivity.
    + apply (IH before E Hb).
Qed.

(** An array without a text item is translated as it is. *)
Lemma merged_items_no_text (prompt : string) (items : list Item) :
  first_text (concat (map direct_item items)) = None ->
  merged_items prompt items = concat (map direct_item items).
Proof.
  induction items as [|item items IH]; intros H; [reflexivity |].
  destruct item as [t|url|ty]; simpl in H |- *.
  - discriminate H.
  - rewrite first_text_app, image_parts_no_text in H. now rewrite IH.
  - apply IH, H.
Qed.

(** The first entry when the message list opens with the prompt and a
    message that is not an assistant turn. *)
Lemma first_entry_merged (sys : list Message) (prompt : Content)
    (first : Message) (rest : list Message) :
  Forall is_system sys ->
  last (map content sys) = Some prompt ->
  truthy prompt = true ->
  role first <> "system" -> role first <> "assistant" ->
  transformMessagesToGeminiFormat (Some (sys ++ first :: rest))
  = {| g_role := "user";
       parts := merged_parts (template prompt) (content first) |}
    :: map direct_entry (filter (fun msg => ~ is_system msg) rest).
Proof.
  intros Hsys Hlast Hprompt Hns Hna. unfold transformMessagesToGeminiFormat.
  rewrite fold_left_app, (system_messages_set_prompt _ _ Hsys), Hlast. simpl.
  assert (Hrole : gemini_role first = "user").
  { unfold gemini_role. destruct (String.eqb_spec (role first) "assistant");
      [contradiction | reflexivity]. }
  unfold message_step at 2.
  destruct (String.eqb_spec (role first) "system") as [|_]; [contradiction |].
  rewrite Hrole. simpl.
  destruct (content first) as [s|items|] eqn:Ec.
  - unfold text_part. rewrite Hprompt. simpl.
    rewrite later_messages_direct by discriminate. reflexivity.
  - pose proof (items_merged prompt items Hprompt []) as Hm.
    destruct (fold_left (item_step "user" true) items ([], prompt)) as [ps sp].
    simpl in Hm. subst ps.
    rewrite later_messages_direct by discriminate. reflexivity.
  - rewrite later_messages_direct by discriminate. reflexivity.
Qed.

(** C2, as the code has it. When the message list opens with system
    messages, the last of which holds a non-empty prompt, and the message
    after them is neither a system message nor an assistant turn, the
    content list has no system entry. Its first entry is that message, with
    role [user]. When the message has a text part, the first of its text
    parts is the prompt, a blank line, and then the text of that part, and
    its other parts are as they are without a prompt; when it has no text
    part, all its parts are as they are without a prompt, which is then
    merged nowhere. Every later message that is not a system message is
    translated on its own, the prompt never being applied to it. *)
Theorem gemini_prompt_merged_once (sys : list Message) (prompt : Content)
    (first : Message) (rest : list Message) :
  Forall is_system sys ->
  last (map content sys) = Some prompt ->
  truthy prompt = true ->
  role first <> "system" -> role first <> "assistant" ->
  exists ps,
    transformMessagesToGeminiFormat (Some (sys ++ first :: rest))
    = {| g_role := "user"; parts := ps |}
      :: map direct_entry (filter (fun msg => ~ is_system msg) rest) /\
    (forall before text after,
       direct_parts (content first) = before ++ PartText text :: after ->
       first_text before = None ->
       ps = before ++ PartText (prefixed (template prompt) text) :: after) /\
    (first_text (direct_parts (content first)) = None ->
     ps = direct_parts (content first)).
Proof.
  intros Hsys Hlast Hprompt Hns Hna.
  exists (merged_parts (template prompt) (content first)).
  split; [exact (first_entry_merged sys prompt first rest Hsys Hlast Hprompt Hns Hna) |].
  destruct (content first) as [s|items|]; simpl; split.
  - intros before text after E Hb. destruct before as [|q before].
    + injection E as <- <-. reflexivity.
    + injection E as <- E. destruct before; discriminate E.
  - discriminate.
  - intros before text after E Hb. exact (merged_items_text _ _ _ _ _ E Hb).
  - apply merged_items_no_text.
  - intros before text after E. destruct before; discriminate E.
  - reflexivity.
Qed.

(** The system message "Be terse." and the user message "Hi" give one user
    entry whose text is "Be terse.", a blank line, "Hi"; in front of a user
    message that holds one image and no text, the prompt is merged
    nowhere. *)
Lemma gemini_prompt_merged_once_witness :
  (Forall is_system [system_message "Be terse."] /\
   last (map content [system_message "Be terse."]) = Some (ContentString "Be terse.") /\
   truthy (ContentString "Be terse.") = true /\
   role (user_message "Hi") <> "system" /\
   role (user_message "Hi") <> "assistant") /\
  transformMessagesToGeminiFormat
    (Some [system_message "Be terse."; user_message "Hi"])
  = [ {| g_role := "user"; parts := [PartText (prefixed "Be terse." "Hi")] |} ] /\
  transformMessagesToGeminiFormat
    (Some [system_message "Be terse."; image_message; user_message "Hi"])
  = [ {| g_role := "user"; parts := [PartInlineData "image/png" "iVBORw0KGgo="] |};
      {| g_role := "user"; parts := [PartText "Hi"] |} ].
Proof.
  assert (H1 : Forall is_system [system_message "Be terse."])
    by (repeat constructor).
  assert (H2 : role (user_message "Hi") <> "system") by discriminate.
  assert (H3 : role (user_message "Hi") <> "assistant") by discriminate.
  split; [repeat split; assumption |]. split.
  - destruct (gemini_prompt_merged_once [system_message "Be terse."]
                (ContentString "Be terse.") (user_message "Hi") []
                H1 eq_refl eq_refl H2 H3) as (ps & E & Htext & _).
    rewrite (Htext [] "Hi" [] eq_refl eq_refl) in E. exact E.
  - assert (H4 : role image_message <> "system") by discriminate.
    assert (H5 : role image_message <> "assistant") by discriminate.
    destruct (gemini_prompt_merged_once [system_message "Be terse."]
                (ContentString "Be terse.") image_message [user_message "Hi"]
                H1 eq_refl eq_refl H4 H5) as (ps & E & _ & Hnone).
    rewrite (Hnone eq_refl) in E. exact E.
Defined.

(** The merge is for a user message that opens the content list: behind an
    assistant turn the prompt is merged nowhere. *)
Lemma gemini_prompt_behind_assistant :
  transformMessagesToGeminiFormat
    (Some [system_message "Be terse."; assistant_message "Ok."; user_message "Hi"])
  = [ {| g_role := "model"; parts := [PartText "Ok."] |};
      {| g_role := "user"; parts := [PartText "Hi"] |} ].
Proof. reflexivity. Qed.

(** Of several system messages in front, the last one is the prompt. *)
Lemma gemini_last_prompt_wins :
  transformMessagesToGeminiFormat
    (Some [system_message "Be brief."; system_message "Be terse."; user_message "Hi"])
  = [ {| g_role := "user"; parts := [PartText (prefixed "Be terse." "Hi")] |} ].
Proof. reflexivity. Qed.

(** Whatever the message list, the content list has one entry per message
    that is not a system message, in order, with role [user] or [model]. *)
Lemma gemini_roles_step (msgs : list Message) (st : LoopState) :
  map g_role (contents (fold_left message_step msgs st))
  = map g_role (contents st)
    ++ map gemini_role (filter (fun msg => ~ is_system msg) msgs).
Proof.
  revert st. induction msgs as [|msg rest IH]; intros st; simpl.
  - now rewrite app_nil_r.
  - rewrite IH, filter_cons. unfold is_system, message_step.
    destruct (String.eqb_spec (role msg) "system") as [Hs|Hs].
    + rewrite decide_False by tauto. reflexivity.
    + rewrite decide_True by assumption.
      destruct (match content msg with
                | ContentString s =>
                    let '(p, sp') :=
                      text_part (gemini_role msg)
                        (Nat.eqb (length (contents st)) 0) (systemPrompt st) s in
                    ([p], sp')
                | ContentArray items =>
                    fold_left
                      (item_step (gemini_role msg) (Nat.eqb (length (contents st)) 0))
                      items ([], systemPrompt st)
                | ContentMissing => ([], systemPrompt st)
                end) as [ps sp].
      simpl. rewrite map_app, <- app_assoc. reflexivity.
Qed.

(** X7. Whatever the message list, the content list has exactly one entry
    for each message that is not a system message, in the order of the
    messages, with role [model] for an assistant message and [user] for
    any other; no entry has any other role. *)
Lemma gemini_no_system_entry (msgs : list Message) :
  map g_role (transformMessagesToGeminiFormat (Some msgs))
  = map gemini_role (filter (fun msg => ~ is_system msg) msgs) /\
  Forall (fun e => g_role e = "user" \/ g_role e = "model")
         (transformMessagesToGeminiFormat (Some msgs)).
Proof.
  assert (H : map g_role (transformMessagesToGeminiFormat (Some msgs))
              = map gemini_role (filter (fun msg => ~ is_system msg) msgs))
    by (unfold transformMessagesToGeminiFormat; now rewrite gemini_roles_step).
  split; [exact H |].
  apply Forall_forall. intros e He.
  assert (Hin : In (g_role e) (map g_role (transformMessagesToGeminiFormat (Some msgs))))
    by (apply in_map, list_elem_of_In, He).
  rewrite H in Hin. apply in_map_iff in Hin as (msg & Hr & _).
  rewrite <- Hr. unfold gemini_role.
  destruct (String.eqb (role msg) "assistant"); tauto.
Qed.

End ServerFacts.

(** ** The per-user summary *)

Module SummaryFacts.
Import Js Logger LoggerSpec.

Lemma member_own {A : Type} (a : A) (key : string) : member (Some a) key = Own a.
Proof. reflexivity. Qed.

Lemma member_plain {A : Type} (key : string) :
  plain key -> member (@None A) key = Missing.
Proof. unfold plain, member. now intros ->. Qed.

Lemma plain_not_proto (key : string) : plain key -> String.eqb key "__proto__" = false.
Proof.
  unfold plain. intros H. destruct (String.eqb_spec key "__proto__") as [->|]; [| reflexivity].
  discriminate.
Qed.

(** A user without summary has no entry in the document. *)
Lemma unseen_lookup (userId : string) (document : option (gmap string UserSummary)) :
  unseen userId document -> default ∅ document !! userId = None.
Proof.
  unfold unseen, getUserStats. destruct document as [summaries|]; simpl.
  - destruct (summaries !! userId); [discriminate | reflexivity].
  - intros _. apply lookup_empty.
Qed.

Lemma update_seen (userId : string) (entry : LogEntry)
    (summaries : gmap string UserSummary) (s : UserSummary) :
  summaries !! userId = Some s -> is_Some (providerCounts s) ->
  updateUserSummary userId entry (Some summaries)
  = Some (<[userId := record s entry]> summaries).
Proof.
  intros Hs [counts Hc]. unfold updateUserSummary, record. simpl.
  rewrite Hs. simpl. rewrite Hc. reflexivity.
Qed.

Lemma update_unseen (userId : string) (entry : LogEntry)
    (document : option (gmap string UserSummary)) :
  plain userId -> unseen userId document ->
  updateUserSummary userId entry document
  = Some (<[userId := record (fresh_summary entry) entry]> (default ∅ document)).
Proof.
  intros Hp Hu. unfold updateUserSummary. cbv zeta.
  rewrite (unseen_lookup _ _ Hu), (member_plain _ Hp). reflexivity.
Qed.

Lemma record_keeps_counters (s : UserSummary) (entry : LogEntry) :
  is_Some (providerCounts s) -> is_Some (providerCounts (record s entry)).
Proof. intros [counts Hc]. simpl. rewrite Hc. simpl. eauto. Qed.

Lemma updates_seen (userId : string) (entries : list LogEntry) :
  forall (summaries : gmap string UserSummary) (s : UserSummary),
    summaries !! userId = Some s -> is_Some (providerCounts s) ->
    sequential_updates userId entries (Some summaries)
    = Some (<[userId := fold_left record entries s]> summaries).
Proof.
  unfold sequential_updates.
  induction entries as [|entry rest IH]; intros summaries s Hs Hc; simpl.
  - now rewrite insert_id.
  - rewrite (update_seen _ _ _ _ Hs Hc).
    rewrite (IH _ (record s entry)).
    + now rewrite insert_insert_eq.
    + apply lookup_insert_eq.
    + now apply record_keeps_counters.
Qed.

Lemma count_key_cons (key : LogEntry -> string) (k : string)
    (entry : LogEntry) (rest : list LogEntry) :
  count_key key k (entry :: rest)
  = ((if decide (key entry = k) then 1 else 0) + count_key key k rest)%N.
Proof.
  unfold count_key. rewrite filter_cons.
  destruct (decide (key entry = k)); simpl; lia.
Qed.

(** Counting up under a plain key, where the counters hold a number. *)
Lemma bump_count (k0 k : string) (counts : gmap string Count) (n : N) :
  plain k0 -> count_under counts k = Some n ->
  count_under (bump k0 counts) k
  = Some (n + (if decide (k0 = k) then 1 else 0))%N.
Proof.
  intros Hp Hn. unfold bump, count_under in *.
  destruct (decide (k0 = k)) as [->|Hne].
  - destruct (counts !! k) as [[m|]|] eqn:E.
    + rewrite lookup_insert_eq. simpl. now inversion Hn.
    + discriminate.
    + rewrite (plain_not_proto _ Hp), (member_plain _ Hp), lookup_insert_eq. simpl.
      inversion Hn. reflexivity.
  - destruct (counts !! k0) as [c|] eqn:E.
    + rewrite lookup_insert_ne by assumption. rewrite Hn. f_equal. lia.
    + rewrite (plain_not_proto _ Hp), lookup_insert_ne by assumption.
      rewrite Hn. f_equal. lia.
Qed.

Lemma bumps_count (key : LogEntry -> string) (k : string) (entries : list LogEntry) :
  Forall (fun entry => plain (key entry)) entries ->
  forall (counts : gmap string Count) (n : N),
    count_under counts k = Some n ->
    count_under (fold_left (fun m entry => bump (key entry) m) entries counts) k
    = Some (n + count_key key k entries)%N.
Proof.
  induction entries as [|entry rest IH]; intros Hp counts n Hn; simpl.
  - unfold count_key. simpl. rewrite Hn. f_equal. lia.
  - apply Forall_cons in Hp as [He Hrest].
    rewrite (IH Hrest _ _ (bump_count _ _ _ _ He Hn)), count_key_cons.
    f_equal. lia.
Qed.

Lemma records_requests (entries : list LogEntry) (s : UserSummary) :
  totalRequests (fold_left record entries s)
  = (totalRequests s + N.of_nat (length entries))%N.
Proof.
  revert s. induction entries as [|entry rest IH]; intros s; simpl.
  - lia.
  - rewrite IH. simpl. lia.
Qed.

Lemma records_tokens (entries : list LogEntry) (s : UserSummary) :
  totalTokens (fold_left record entries s)
  = fold_left add_total (map (fun entry => total (tokens entry)) entries)
              (totalTokens s).
Proof.
  revert s. induction entries as [|entry rest IH]; intros s; simpl;
    [reflexivity | now rewrite IH].
Qed.

Lemma records_cost (entries : list LogEntry) (s : UserSummary) :
  totalCost (fold_left record entries s)
  = fold_left add_total (map cost entries) (totalCost s).
Proof.
  revert s. induction entries as [|entry rest IH]; intros s; simpl;
    [reflexivity | now rewrite IH].
Qed.

Lemma add_total_kept (t x : float) :
  kept (t + x)%float -> add_total (Some t) x = Some (t + x)%float.
Proof. intros H. exact H. Qed.

(** As long as every total on the way is kept, the document holds the sum
    that [+=] accumulates. *)
Lemma totals_added (xs : list float) :
  forall t, Forall kept (running_totals t xs) ->
    fold_left add_total xs (Some t) = Some (fold_left PrimFloat.add xs t).
Proof.
  induction xs as [|x rest IH]; intros t Hk; simpl; [reflexivity |].
  simpl in Hk. apply Forall_cons in Hk as [Hx Hrest].
  rewrite (add_total_kept _ _ Hx). now apply IH.
Qed.

Lemma records_firstSeen (entries : list LogEntry) (s : UserSummary) :
  firstSeen (fold_left record entries s) = firstSeen s.
Proof.
  revert s. induction entries as [|entry rest IH]; intros s; simpl;
    [reflexivity | now rewrite IH].
Qed.

Lemma records_lastSeen (entries : list LogEntry) (s : UserSummary) :
  lastSeen (fold_left record entries s)
  = match last (map timestamp entries) with
    | Some t => Some t
    | None => lastSeen s
    end.
Proof.
  revert s. induction entries as [|entry rest IH]; intros s; simpl.
  - reflexivity.
  - rewrite IH, last_cons. simpl.
    destruct (last (map timestamp rest)); reflexivity.
Qed.

Lemma records_endpoints (entries : list LogEntry) (s : UserSummary) :
  endpointCounts (fold_left record entries s)
  = fold_left (fun m entry => bump (endpoint entry) m) entries (endpointCounts s).
Proof.
  revert s. induction entries as [|entry rest IH]; intros s; simpl;
    [reflexivity | now rewrite IH].
Qed.

Lemma records_models (entries : list LogEntry) (s : UserSummary) :
  modelCounts (fold_left record entries s)
  = fold_left (fun m entry => bump (property_key (entry_model entry)) m)
              entries (modelCounts s).
Proof.
  revert s. induction entries as [|entry rest IH]; intros s; simpl;
    [reflexivity | now rewrite IH].
Qed.

Lemma records_providers (entries : list LogEntry) (s : UserSummary) :
  providerCounts (fold_left record entries s)
  = fold_left (fun m entry => bump (entry_provider entry) m) entries
      <$> providerCounts s.
Proof.
  revert s. induction entries as [|entry rest IH]; intros s; simpl.
  - now destruct (providerCounts s).
  - rewrite IH. simpl. now destruct (providerCounts s).
Qed.

(** The summary that a first update and the updates after it leave. *)
Lemma first_updates (userId : string) (entry : LogEntry) (rest : list LogEntry)
    (document : option (gmap string UserSummary)) :
  plain userId -> unseen userId document ->
  getUserStats userId (sequential_updates userId (entry :: rest) document)
  = Own (fold_left record rest (record (fresh_summary entry) entry)).
Proof.
  intros Hp Hu. unfold sequential_updates. simpl. rewrite (update_unseen _ _ _ Hp Hu).
  fold (sequential_updates userId rest
          (Some (<[userId := record (fresh_summary entry) entry]> (default ∅ document)))).
  rewrite (updates_seen _ _ _ (record (fresh_summary entry) entry)).
  - simpl. now rewrite lookup_insert_eq.
  - apply lookup_insert_eq.
  - simpl. eauto.
Qed.

(** The counters after a first update and the updates after it. *)
Lemma first_updates_count (entry : LogEntry) (rest : list LogEntry) :
  Forall plain_entry (entry :: rest) ->
  counts_entries (fold_left record rest (record (fresh_summary entry) entry))
                 (entry :: rest).
Proof.
  intros Hplain.
  assert (He : Forall (fun e => plain (endpoint e)) (entry :: rest))
    by (eapply Forall_impl; [exact Hplain | intros e H; apply H]).
  assert (Hm : Forall (fun e => plain (property_key (entry_model e))) (entry :: rest))
    by (eapply Forall_impl; [exact Hplain | intros e H; apply H]).
  assert (Hv : Forall (fun e => plain (entry_provider e)) (entry :: rest))
    by (eapply Forall_impl; [exact Hplain | intros e H; apply H]).
  unfold counts_entries.
  rewrite records_requests, records_firstSeen, records_lastSeen, records_endpoints,
    records_models, records_providers.
  simpl. split; [lia |]. split; [reflexivity |]. split; [| split; [| split]].
  - rewrite last_cons. destruct (last (map timestamp rest)); reflexivity.
  - intros k.
    change (fold_left (fun m e => bump (endpoint e) m) rest (bump (endpoint entry) ∅))
      with (fold_left (fun m e => bump (endpoint e) m) (entry :: rest) ∅).
    rewrite (bumps_count endpoint k _ He ∅ 0%N); [f_equal; lia |].
    unfold count_under. now rewrite lookup_empty.
  - intros k.
    change (fold_left (fun m e => bump (property_key (entry_model e)) m) rest
              (bump (property_key (entry_model entry)) ∅))
      with (fold_left (fun m e => bump (property_key (entry_model e)) m) (entry :: rest) ∅).
    rewrite (bumps_count (fun e => property_key (entry_model e)) k _ Hm ∅ 0%N);
      [f_equal; lia |].
    unfold count_under. now rewrite lookup_empty.
  - eexists. split; [reflexivity |]. intros k.
    change (fold_left (fun m e => bump (entry_provider e) m) rest
              (bump (entry_provider entry) ∅))
      with (fold_left (fun m e => bump (entry_provider e) m) (entry :: rest) ∅).
    rewrite (bumps_count entry_provider k _ Hv ∅ 0%N); [f_equal; lia |].
    unfold count_under. now rewrite lookup_empty.
Qed.

(** C4, refuted as stated: after the two calls, which cost 0.0125 and
    0.00045, the cost total of the summary is 0.012950000000000001, the
    sum that [+=] rounds to, and not the exact sum of the two costs. *)
Lemma sequential_updates_round :
  ~ exists s,
      getUserStats "u1" (sequential_updates "u1" two_priced_calls None) = Own s /\
      summarises_exactly s two_priced_calls.
Proof.
  intros (s & Hs & _ & (t & q & Ht & Hq & Heq) & _).
  unfold two_priced_calls in Hs.
  rewrite first_updates in Hs by reflexivity. inversion Hs; subst s. clear Hs.
  vm_compute in Ht. inversion Ht; subst t. clear Ht.
  vm_compute in Hq. inversion Hq; subst q. clear Hq.
  vm_compute in Heq. discriminate.
Qed.

(** C4, as the code has it. Starting from any document in which the user
    has no summary, [N] updates run one after the other (with [N] at least
    one) for a user id that is a plain key leave a summary for the user
    whose request count is [N], whose first and last instants are those of
    the first and the last entry, and whose endpoint, model and provider
    counters each count the entries with that endpoint, model or provider,
    these being plain keys; and, as long as the running totals are finite,
    its token and cost totals are the sums of the entries' totals and
    costs as [+=] accumulates them in entry order. *)
Theorem sequential_updates_summarise (userId : string)
    (entries : list LogEntry) (document : option (gmap string UserSummary)) :
  plain userId -> unseen userId document -> entries <> [] ->
  Forall plain_entry entries ->
  totals_kept (map (fun entry => total (tokens entry)) entries) ->
  totals_kept (map cost entries) ->
  exists s,
    getUserStats userId (sequential_updates userId entries document) = Own s /\
    summarises s entries.
Proof.
  intros Hp Hu Hne Hplain Htokens Hcost.
  destruct entries as [|entry rest]; [contradiction | clear Hne].
  exists (fold_left record rest (record (fresh_summary entry) entry)).
  split; [now apply first_updates |].
  unfold summarises. rewrite records_tokens, records_cost.
  split; [| split; [| now apply first_updates_count]].
  - unfold totals_kept in Htokens. simpl in Htokens.
    apply Forall_cons in Htokens as [H0 Hrest].
    cbn [record totalTokens fresh_summary]. rewrite (add_total_kept _ _ H0).
    now apply totals_added.
  - unfold totals_kept in Hcost. simpl in Hcost.
    apply Forall_cons in Hcost as [H0 Hrest].
    cbn [record totalCost fresh_summary]. rewrite (add_total_kept _ _ H0).
    now apply totals_added.
Qed.

Lemma sequential_updates_summarise_witness :
  (plain "u1" /\ unseen "u1" None /\ two_priced_calls <> [] /\
   Forall plain_entry two_priced_calls /\
   totals_kept (map (fun entry => total (tokens entry)) two_priced_calls) /\
   totals_kept (map cost two_priced_calls)) /\
  exists s,
    getUserStats "u1" (sequential_updates "u1" two_priced_calls None) = Own s /\
    summarises s two_priced_calls.
Proof.
  assert (Hp : plain "u1") by reflexivity.
  assert (Hu : unseen "u1" None) by reflexivity.
  assert (Hne : two_priced_calls <> []) by discriminate.
  assert (Hplain : Forall plain_entry two_priced_calls)
    by (repeat constructor).
  assert (Ht : totals_kept (map (fun entry => total (tokens entry)) two_priced_calls))
    by (repeat constructor).
  assert (Hc : totals_kept (map cost two_priced_calls))
    by (repeat constructor).
  split; [repeat split; assumption |].
  exact (sequential_updates_summarise "u1" two_priced_calls None Hp Hu Hne Hplain Ht Hc).
Defined.

End SummaryFacts.

(** ** The recent logs *)

Module RecentLogsFacts.
Import Js Logger LoggerSpec.

Section RecentLogs.

Context {Json : Type}.
Variable JSON_parse : string -> option Json.
Variable entry_time : Json -> option Z.
Variable setDate : Z -> Z -> Z.

Lemma hours_test (now t hours : Z) :
  Qle_bool (hoursDiff now t) (inject_Z hours) = (now - t <=? hours * 3600000)%Z.
Proof.
  apply eq_true_iff_eq. rewrite Qle_bool_iff, Z.leb_le.
  unfold hoursDiff, Qle, Qdiv, Qmult, Qinv, inject_Z. simpl. lia.
Qed.

Lemma day_of_whole_days (now i : Z) :
  utc_day (now - i * 86400000) = (utc_day now - i)%Z.
Proof.
  unfold utc_day.
  replace (now - i * 86400000)%Z with (now + (- i) * 86400000)%Z by lia.
  rewrite Z.div_add by lia. lia.
Qed.

(** On a clock that moves by whole days, the files read are those of
    today and of the two UTC days before. *)
Lemma whole_days_read (now : Z) :
  whole_days setDate now ->
  days_read setDate now = [utc_day now; utc_day now - 1; utc_day now - 2]%Z.
Proof.
  intros H. unfold days_read.
  rewrite (H 0%Z), (H 1%Z), (H 2%Z) by lia.
  rewrite !day_of_whole_days, Z.sub_0_r. reflexivity.
Qed.

Lemma keep_lines (now hours : Z) (lines : list string) :
  forall logs,
    fold_left (keep_line JSON_parse entry_time now hours) lines logs
    = logs ++ filter (fun e => is_recent entry_time now hours e = true) (omap JSON_parse lines).
Proof.
  induction lines as [|line rest IH]; intros logs; simpl.
  - now rewrite app_nil_r.
  - rewrite IH. unfold keep_line.
    destruct (JSON_parse line) as [entry|]; [|reflexivity].
    rewrite filter_cons.
    assert (Htest :
      match entry_time entry with
      | Some entryTime =>
          if Qle_bool (hoursDiff now entryTime) (inject_Z hours)
          then logs ++ [entry] else logs
      | None => logs
      end = if is_recent entry_time now hours entry then logs ++ [entry] else logs).
    { unfold is_recent. destruct (entry_time entry); [rewrite hours_test |]; reflexivity. }
    rewrite Htest. destruct (is_recent entry_time now hours entry).
    + rewrite decide_True by reflexivity. now rewrite <- app_assoc.
    + rewrite decide_False by discriminate. reflexivity.
Qed.

Lemma read_day_lines (now hours : Z) (files : gmap Z string) (logs : list Json) (i : Z) :
  read_day JSON_parse entry_time setDate now hours files logs i
  = logs ++ filter (fun e => is_recent entry_time now hours e = true)
                   (omap JSON_parse (lines_of files (utc_day (setDate now i)))).
Proof.
  unfold read_day, lines_of.
  destruct (files !! utc_day (setDate now i)).
  - apply keep_lines.
  - simpl. now rewrite app_nil_r.
Qed.

(** Before the sort, the list holds the recent entries among the parsed
    ones, in reading order. *)
Lemma read_three_days (now hours : Z) (files : gmap Z string) :
  fold_left (read_day JSON_parse entry_time setDate now hours files) [0; 1; 2]%Z []
  = filter (fun e => is_recent entry_time now hours e = true)
           (parsed_entries JSON_parse setDate now files).
Proof.
  simpl. rewrite !read_day_lines. unfold parsed_entries, days_read. simpl.
  rewrite app_nil_r, !omap_app, !filter_app, <- app_assoc. reflexivity.
Qed.

Lemma whole_days_entries (now : Z) (files : gmap Z string) :
  whole_days setDate now ->
  parsed_entries JSON_parse setDate now files = utc_entries JSON_parse now files.
Proof.
  intros H. unfold parsed_entries, utc_entries. rewrite (whole_days_read _ H).
  simpl. now rewrite app_nil_r.
Qed.

Lemma place_permutation (x : Json) (sorted : list Json) :
  Permutation (place entry_time x sorted) (x :: sorted).
Proof.
  induction sorted as [|y rest IH]; simpl.
  - reflexivity.
  - destruct (sorts_before entry_time y x).
    + rewrite IH. apply perm_swap.
    + reflexivity.
Qed.

Lemma sort_permutation (logs : list Json) :
  Permutation (sort_by_time entry_time logs) logs.
Proof.
  induction logs as [|x rest IH]; simpl.
  - reflexivity.
  - rewrite place_permutation. now constructor.
Qed.

Lemma place_sorted (x : Json) (sorted : list Json) :
  is_Some (entry_time x) -> Forall (fun e => is_Some (entry_time e)) sorted ->
  StronglySorted (newer_first entry_time) sorted ->
  StronglySorted (newer_first entry_time) (place entry_time x sorted).
Proof.
  intros [tx Hx] Htimed Hsorted.
  induction sorted as [|y rest IH]; simpl.
  - constructor; constructor.
  - apply Forall_cons in Htimed as [[ty Hy] Hrest].
    apply StronglySorted_inv in Hsorted as [Hs Hall].
    destruct (sorts_before entry_time y x) eqn:Eb;
      unfold sorts_before in Eb; rewrite Hy, Hx in Eb.
    + apply Z.ltb_lt in Eb. constructor; [now apply IH |].
      apply (Permutation_Forall (Permutation_sym (place_permutation x rest))).
      constructor; [| exact Hall].
      exists ty, tx. repeat split; [assumption | assumption | lia].
    + apply Z.ltb_ge in Eb. constructor; [now constructor |].
      constructor.
      * exists tx, ty. repeat split; [assumption | assumption | lia].
      * eapply Forall_impl; [exact Hall |]. simpl.
        intros z (ty' & tz & Hy' & Hz & Hle).
        exists tx, tz. repeat split; [assumption | assumption |].
        rewrite Hy in Hy'. inversion Hy'. lia.
Qed.

Lemma sort_sorted (logs : list Json) :
  Forall (fun e => is_Some (entry_time e)) logs ->
  StronglySorted (newer_first entry_time) (sort_by_time entry_time logs).
Proof.
  induction logs as [|x rest IH]; simpl; intros Htimed.
  - constructor.
  - apply Forall_cons in Htimed as [Hx Hrest].
    apply place_sorted; [assumption | | now apply IH].
    apply (Permutation_Forall (Permutation_sym (sort_permutation rest))).
    exact Hrest.
Qed.

Lemma recent_timed (now hours : Z) (entry : Json) :
  is_recent entry_time now hours entry = true -> is_Some (entry_time entry).
Proof. unfold is_recent. destruct (entry_time entry); [eauto | discriminate]. Qed.

Lemma in_recent_logs (now hours : Z) (files : gmap Z string) (entry : Json) :
  In entry (getRecentLogs JSON_parse entry_time setDate now hours files) <->
  In entry (parsed_entries JSON_parse setDate now files) /\
  is_recent entry_time now hours entry = true.
Proof.
  unfold getRecentLogs. rewrite read_three_days.
  rewrite <- !list_elem_of_In, sort_permutation, list_elem_of_filter. tauto.
Qed.

Lemma in_parsed_entries (now : Z) (files : gmap Z string) (entry : Json) :
  In entry (parsed_entries JSON_parse setDate now files) <->
  exists i line, (0 <= i <= 2)%Z /\
    In line (lines_of files (utc_day (setDate now i))) /\ JSON_parse line = Some entry.
Proof.
  unfold parsed_entries, days_read. simpl. rewrite app_nil_r.
  rewrite <- list_elem_of_In, list_elem_of_omap. split.
  - intros (line & Hin & Hp).
    rewrite !elem_of_app, !list_elem_of_In in Hin.
    destruct Hin as [H | [H | H]].
    + exists 0%Z, line. repeat split; [lia | lia | exact H | exact Hp].
    + exists 1%Z, line. repeat split; [lia | lia | exact H | exact Hp].
    + exists 2%Z, line. repeat split; [lia | lia | exact H | exact Hp].
  - intros (i & line & Hi & Hin & Hp). exists line. split; [| exact Hp].
    rewrite !elem_of_app, !list_elem_of_In.
    assert (Hcases : i = 0%Z \/ i = 1%Z \/ i = 2%Z) by lia.
    destruct Hcases as [-> | [-> | ->]].
    + now left.
    + right. now left.
    + right. now right.
Qed.

Lemma in_whole_days (now : Z) (files : gmap Z string) (entry : Json) :
  whole_days setDate now ->
  In entry (parsed_entries JSON_parse setDate now files) <->
  exists i line, (0 <= i <= 2)%Z /\
    In line (lines_of files (utc_day now - i)) /\ JSON_parse line = Some entry.
Proof.
  intros H. rewrite in_parsed_entries. split.
  - intros (i & line & Hi & Hin & Hp). exists i, line.
    rewrite (H i Hi), day_of_whole_days in Hin. tauto.
  - intros (i & line & Hi & Hin & Hp). exists i, line.
    rewrite (H i Hi), day_of_whole_days. tauto.
Qed.

Lemma same_window_parsed (now : Z) (files files' : gmap Z string) :
  same_window now files files' ->
  utc_entries JSON_parse now files' = utc_entries JSON_parse now files.
Proof.
  intros H. unfold utc_entries, lines_of.
  pose proof (H 0%Z ltac:(lia)) as H0. rewrite Z.sub_0_r in H0.
  rewrite H0, (H 1%Z ltac:(lia)), (H 2%Z ltac:(lia)). reflexivity.
Qed.

Lemma day_ten_hours_ago (now : Z) :
  exists i, (0 <= i <= 2)%Z /\
    utc_day (now - 10 * 3600000) = (utc_day now - i)%Z.
Proof.
  unfold utc_day.
  assert (H : (now / 86400000 - 1 <= (now - 10 * 3600000) / 86400000 <= now / 86400000)%Z).
  { split.
    - replace (now / 86400000 - 1)%Z with ((now + (-1) * 86400000) / 86400000)%Z
        by (rewrite Z.div_add by lia; lia).
      apply Z.div_le_mono; lia.
    - apply Z.div_le_mono; lia. }
  destruct (Z.eq_dec ((now - 10 * 3600000) / 86400000) (now / 86400000))%Z as [E|E].
  - exists 0%Z. split; lia.
  - exists 1%Z. split; lia.
Qed.

Lemma day_four_days_ago (now : Z) :
  utc_day (now - 4 * 24 * 3600000) = (utc_day now - 4)%Z.
Proof.
  unfold utc_day.
  replace (now - 4 * 24 * 3600000)%Z with (now + (-4) * 86400000)%Z by lia.
  rewrite Z.div_add by lia. lia.
Qed.

(** X26. On a clock that moves by whole days, as that of a process
    running on UTC does, and whatever [hours] is, [getRecentLogs] returns
    the entries that parse from the files of today and of the two UTC days
    before and whose age is at most [hours], each as often as it is read,
    the newest first; lines that do not parse are left out, and no other
    file matters. So an entry filed ten hours ago is left out for one hour
    and returned for twenty-four, and, the entries being filed by day, an
    entry four days old is left out even for a hundred hours. *)
Theorem recent_logs_window (now hours : Z) (files : gmap Z string) :
  whole_days setDate now ->
  let logs := getRecentLogs JSON_parse entry_time setDate now hours files in
  Permutation logs
    (filter (fun e => is_recent entry_time now hours e = true)
            (utc_entries JSON_parse now files)) /\
  StronglySorted (newer_first entry_time) logs /\
  (forall files', same_window now files files' ->
     getRecentLogs JSON_parse entry_time setDate now hours files' = logs) /\
  (forall entry, filed JSON_parse entry_time files entry (now - 10 * 3600000) ->
     ~ In entry (getRecentLogs JSON_parse entry_time setDate now 1 files) /\
     In entry (getRecentLogs JSON_parse entry_time setDate now 24 files)) /\
  (forall entry, well_filed JSON_parse entry_time files ->
     entry_time entry = Some (now - 4 * 24 * 3600000)%Z ->
     ~ In entry (getRecentLogs JSON_parse entry_time setDate now 100 files)).
Proof.
  intros Hw. cbv zeta. split; [|split; [|split; [|split]]].
  - unfold getRecentLogs. rewrite read_three_days, (whole_days_entries _ _ Hw).
    apply sort_permutation.
  - unfold getRecentLogs. rewrite read_three_days. apply sort_sorted.
    apply Forall_forall. intros e He.
    apply list_elem_of_filter in He as [He _]. exact (recent_timed _ _ _ He).
  - intros files' Hsame. unfold getRecentLogs.
    rewrite !read_three_days, !(whole_days_entries _ _ Hw),
      (same_window_parsed _ _ _ Hsame). reflexivity.
  - intros entry [Ht (line & Hline & Hp)]. split.
    + rewrite in_recent_logs. intros [_ Hr].
      unfold is_recent in Hr. rewrite Ht in Hr. apply Z.leb_le in Hr. lia.
    + rewrite in_recent_logs. split.
      * apply (in_whole_days _ _ _ Hw).
        destruct (day_ten_hours_ago now) as (i & Hi & Hday).
        exists i, line. rewrite <- Hday. repeat split; [lia | lia | exact Hline | exact Hp].
      * unfold is_recent. rewrite Ht. apply Z.leb_le. lia.
  - intros entry Hwf Ht. rewrite in_recent_logs. intros [Hin _].
    apply (in_whole_days _ _ _ Hw) in Hin as (i & line & Hi & Hline & Hp).
    pose proof (Hwf _ _ _ _ Hline Hp Ht) as Hday.
    rewrite day_four_days_ago in Hday. lia.
Qed.

End RecentLogs.

Lemma utc_whole_days (now : Z) : whole_days utc_setDate now.
Proof. intros i _. reflexivity. Qed.

Lemma demo_well_filed : well_filed demo_parse Some demo_files.
Proof.
  intros day line entry t Hin Hp Ht. unfold lines_of, demo_files in Hin.
  destruct (decide (day = 3%Z)) as [->|H3].
  - rewrite lookup_insert_eq in Hin. vm_compute in Hin.
    destruct Hin as [<- | [<- | []]]; vm_compute in Hp; [| discriminate].
    inversion Hp; subst entry. inversion Ht; subst t. reflexivity.
  - rewrite lookup_insert_ne in Hin by congruence.
    destruct (decide (day = 0%Z)) as [->|H0].
    + rewrite lookup_insert_eq in Hin. vm_compute in Hin.
      destruct Hin as [<- | []]. vm_compute in Hp.
      inversion Hp; subst entry. inversion Ht; subst t. reflexivity.
    + rewrite lookup_insert_ne, lookup_empty in Hin by congruence. destruct Hin.
Qed.

Lemma demo_filed : filed demo_parse Some demo_files 324000000%Z (demo_now - 10 * 3600000).
Proof.
  split; [reflexivity |]. exists "A". split; [| reflexivity].
  vm_compute. left. reflexivity.
Qed.

Lemma recent_logs_window_witness :
  (whole_days utc_setDate demo_now /\
   filed demo_parse Some demo_files 324000000%Z (demo_now - 10 * 3600000) /\
   well_filed demo_parse Some demo_files /\
   Some 14400000%Z = Some (demo_now - 4 * 24 * 3600000)%Z) /\
  (~ In 324000000%Z (getRecentLogs demo_parse Some utc_setDate demo_now 1 demo_files) /\
   In 324000000%Z (getRecentLogs demo_parse Some utc_setDate demo_now 24 demo_files)) /\
  ~ In 14400000%Z (getRecentLogs demo_parse Some utc_setDate demo_now 100 demo_files).
Proof.
  pose proof (recent_logs_window demo_parse Some utc_setDate demo_now 24 demo_files
                (utc_whole_days demo_now))
    as (_ & _ & _ & Hten & Hfour).
  split; [| split].
  - split; [exact (utc_whole_days demo_now) |].
    split; [exact demo_filed | split; [exact demo_well_filed | reflexivity]].
  - exact (Hten _ demo_filed).
  - exact (Hfour _ demo_well_filed eq_refl).
Defined.

(** The three calls of the example, computed. *)
Lemma recent_logs_demo :
  getRecentLogs demo_parse Some utc_setDate demo_now 1 demo_files = [] /\
  getRecentLogs demo_parse Some utc_setDate demo_now 24 demo_files = [324000000%Z] /\
  getRecentLogs demo_parse Some utc_setDate demo_now 100 demo_files = [324000000%Z].
Proof. repeat split; vm_compute; reflexivity. Qed.

Lemma autumn_filed : filed autumn_parse Some autumn_files autumn_entry (autumn_now - 10 * 3600000).
Proof.
  split; [reflexivity |]. exists "E". split; [| reflexivity].
  vm_compute. left. reflexivity.
Qed.

(** C5, the failing input. In New York, at 19:30 of the day on which the
    clocks were set back, the days that [setDate] steps back to are 25 and
    49 hours away: the files read are those of 4, 2 and 1 November (UTC),
    not that of 3 November. The entry, filed in the file of its own day
    ten hours before, is not returned for twenty-four hours, while the
    same call of a process that runs on UTC returns it. *)
Theorem recent_logs_miss_a_day :
  filed autumn_parse Some autumn_files autumn_entry (autumn_now - 10 * 3600000) /\
  days_read new_york_setDate autumn_now = [20031; 20029; 20028]%Z /\
  days_read utc_setDate autumn_now = [20031; 20030; 20029]%Z /\
  getRecentLogs autumn_parse Some new_york_setDate autumn_now 24 autumn_files = [] /\
  getRecentLogs autumn_parse Some utc_setDate autumn_now 24 autumn_files = [autumn_entry].
Proof.
  split; [exact autumn_filed |].
  repeat split; vm_compute; reflexivity.
Qed.

(** *** From the recorder to the query *)

Lemma append_empty (b : string) : "" +:+ b = b.
Proof. reflexivity. Qed.

Lemma append_String (c : ascii) (r b : string) :
  String c r +:+ b = String c (r +:+ b).
Proof. reflexivity. Qed.

Lemma append_nonempty (a b : string) : a <> "" -> a +:+ b <> "".
Proof. destruct a; [contradiction | discriminate]. Qed.

Lemma trimEnd_append (a b : string) :
  trimEnd (a +:+ b)
  = match trimEnd b with
    | EmptyString => trimEnd a
    | b' => a +:+ b'
    end.
Proof.
  induction a as [|c r IH].
  - rewrite append_empty. destruct (trimEnd b); reflexivity.
  - rewrite append_String. cbn [trimEnd]. rewrite IH.
    destruct (trimEnd b) as [|d b']; [reflexivity |].
    destruct r; reflexivity.
Qed.

Lemma starts_clean_nonempty (s : string) : starts_clean s = true -> s <> "".
Proof. destruct s; [discriminate | discriminate]. Qed.

Lemma trimStart_clean (a b : string) :
  starts_clean a = true -> trimStart (a +:+ b) = a +:+ b.
Proof.
  destruct a as [|c r]; [discriminate |]. rewrite append_String. simpl.
  intros H. apply negb_true_iff in H. now rewrite H.
Qed.

Lemma trimEnd_file_text (lines : list string) :
  lines <> [] -> Forall clean_line lines ->
  trimEnd (file_text lines) = join LF lines.
Proof.
  induction lines as [|l rest IH]; [contradiction |]. intros _ Hclean.
  apply Forall_cons in Hclean as [(Hs & He & _) Hrest].
  destruct rest as [|l2 rest'].
  - cbn [file_text join]. rewrite trimEnd_append. exact He.
  - specialize (IH ltac:(discriminate) Hrest).
    assert (Hne : join LF (l2 :: rest') <> "").
    { apply Forall_cons in Hrest as [(Hs2 & _) _].
      destruct rest'; cbn [join];
        [now apply starts_clean_nonempty
        | apply append_nonempty; now apply starts_clean_nonempty]. }
    change (file_text (l :: l2 :: rest'))
      with (l +:+ String "010"%char (file_text (l2 :: rest'))).
    change (join LF (l :: l2 :: rest'))
      with (l +:+ String "010"%char (join LF (l2 :: rest'))).
    rewrite trimEnd_append. cbn [trimEnd]. rewrite IH.
    destruct (join LF (l2 :: rest')) as [|d j] eqn:Ej; [contradiction | reflexivity].
Qed.

Lemma split_lines_single (l : string) :
  no_line_feed l = true -> split_lines l = [l].
Proof.
  induction l as [|c r IH]; simpl; [reflexivity |].
  intros H. apply andb_true_iff in H as [Hc Hr]. apply negb_true_iff in Hc.
  rewrite Hc, (IH Hr). reflexivity.
Qed.

Lemma split_lines_append (l rest : string) :
  no_line_feed l = true ->
  split_lines (l +:+ String "010"%char rest) = l :: split_lines rest.
Proof.
  induction l as [|c r IH]; [reflexivity |].
  rewrite append_String. simpl.
  intros H. apply andb_true_iff in H as [Hc Hr]. apply negb_true_iff in Hc.
  rewrite Hc, (IH Hr). reflexivity.
Qed.

Lemma split_lines_join (lines : list string) :
  lines <> [] -> Forall clean_line lines ->
  split_lines (join LF lines) = lines.
Proof.
  induction lines as [|l rest IH]; [contradiction |]. intros _ Hclean.
  apply Forall_cons in Hclean as [(_ & _ & Hl) Hrest].
  destruct rest as [|l2 rest'].
  - simpl. now apply split_lines_single.
  - change (join LF (l :: l2 :: rest'))
      with (l +:+ String "010"%char (join LF (l2 :: rest'))).
    rewrite (split_lines_append _ _ Hl).
    now rewrite (IH ltac:(discriminate) Hrest).
Qed.

(** The lines read back from a file are the lines that were appended. *)
Lemma lines_of_file_text (files : gmap Z string) (day : Z) (lines : list string) :
  files !! day = Some (file_text lines) -> lines <> [] ->
  Forall clean_line lines ->
  lines_of files day = lines.
Proof.
  intros Hf Hne Hclean. unfold lines_of, trim. rewrite Hf.
  destruct lines as [|l rest]; [contradiction |].
  pose proof Hclean as Hc. apply Forall_cons in Hc as [(Hs & _) _].
  cbn [file_text]. rewrite (trimStart_clean _ _ Hs).
  change (l +:+ LF +:+ file_text rest) with (file_text (l :: rest)).
  rewrite (trimEnd_file_text _ Hne Hclean). now apply split_lines_join.
Qed.

Lemma append_assoc (a b c : string) : (a +:+ b) +:+ c = a +:+ (b +:+ c).
Proof.
  induction a as [|x r IH]; [reflexivity |].
  rewrite !append_String. now rewrite IH.
Qed.

Lemma file_text_app (lines : list string) (l : string) :
  file_text (lines ++ [l]) = file_text lines +:+ (l +:+ LF).
Proof.
  induction lines as [|x rest IH]; cbn [file_text app].
  - rewrite append_empty. f_equal.
  - rewrite IH, !append_assoc. reflexivity.
Qed.

Lemma appendFile_other_day (files : gmap Z string) (day day' : Z) (text : string) :
  day' <> day -> lines_of (appendFile day text files) day' = lines_of files day'.
Proof.
  intros Hne. unfold lines_of, appendFile.
  now rewrite lookup_insert_ne by congruence.
Qed.

Lemma appendFile_text (files : gmap Z string) (day : Z) (l : string) :
  tidy files -> clean_line l ->
  exists lines,
    appendFile day (l +:+ LF) files !! day = Some (file_text (lines ++ [l])) /\
    Forall clean_line (lines ++ [l]) /\
    lines_of files day = lines.
Proof.
  intros Htidy Hl. unfold appendFile. rewrite lookup_insert_eq.
  destruct (files !! day) as [data|] eqn:Ef.
  - destruct (Htidy _ _ Ef) as (lines & -> & Hne & Hclean).
    exists lines. simpl. rewrite file_text_app. repeat split.
    + apply Forall_app. split; [exact Hclean | now constructor].
    + exact (lines_of_file_text _ _ _ Ef Hne Hclean).
  - exists []. simpl. repeat split.
    + now constructor.
    + unfold lines_of. now rewrite Ef.
Qed.

Lemma appendFile_lines (files : gmap Z string) (day : Z) (l : string) :
  tidy files -> clean_line l ->
  lines_of (appendFile day (l +:+ LF) files) day = lines_of files day ++ [l].
Proof.
  intros Htidy Hl.
  destruct (appendFile_text _ day _ Htidy Hl) as (lines & Hf & Hclean & <-).
  apply (lines_of_file_text _ _ _ Hf); [| exact Hclean].
  destruct (lines_of files day); discriminate.
Qed.

Lemma appendFile_tidy (files : gmap Z string) (day : Z) (l : string) :
  tidy files -> clean_line l -> tidy (appendFile day (l +:+ LF) files).
Proof.
  intros Htidy Hl day' data Hd.
  destruct (decide (day' = day)) as [->|Hne].
  - destruct (appendFile_text _ day _ Htidy Hl) as (lines & Hf & Hclean & _).
    rewrite Hf in Hd. inversion Hd; subst data.
    exists (lines ++ [l]). repeat split; [| exact Hclean].
    destruct lines; discriminate.
  - unfold appendFile in Hd. rewrite lookup_insert_ne in Hd by congruence.
    exact (Htidy _ _ Hd).
Qed.

Lemma appendFile_grows (files : gmap Z string) (day day' : Z) (l line : string) :
  tidy files -> clean_line l ->
  In line (lines_of files day') ->
  In line (lines_of (appendFile day (l +:+ LF) files) day').
Proof.
  intros Htidy Hl Hin. destruct (decide (day' = day)) as [->|Hne].
  - rewrite (appendFile_lines _ _ _ Htidy Hl). apply in_or_app. now left.
  - now rewrite appendFile_other_day.
Qed.

Section Recorder.

Context {Json : Type}.
Variable JSON_parse : string -> option Json.
Variable JSON_stringify : LogEntry -> string.
Variable entry_time : Json -> option Z.
Variable setDate : Z -> Z -> Z.

(** X21. What [logRequest] writes, [getRecentLogs] finds. When the printed
    entry is one clean line that parses back to a value [j] of the same
    instant, [logRequest] keeps the files tidy and the entries filed by
    day; it appends the line to the file of the day of the entry, behind
    the lines that the file had, and leaves every other file as it was, so
    that whatever [getRecentLogs] returned before, it still returns; and
    on a clock that moves by whole days [getRecentLogs] returns [j] as long
    as its day is one of the three that are read and its age is at most
    [hours]. *)
Theorem logged_entry_is_found (t : Z) (userId endpoint : string)
    (model : option string) (responseData : option ResponseData)
    (disk : Disk) (j : Json) :
  let line := JSON_stringify (logEntry t userId endpoint model responseData) in
  let disk' := logRequest JSON_stringify t userId endpoint model responseData disk in
  clean_line line ->
  JSON_parse line = Some j ->
  entry_time j = Some t ->
  tidy (logFiles disk) ->
  well_filed JSON_parse entry_time (logFiles disk) ->
  tidy (logFiles disk') /\
  well_filed JSON_parse entry_time (logFiles disk') /\
  lines_of (logFiles disk') (utc_day t) = lines_of (logFiles disk) (utc_day t) ++ [line] /\
  (forall day, day <> utc_day t -> logFiles disk' !! day = logFiles disk !! day) /\
  forall now hours,
    (forall e, In e (getRecentLogs JSON_parse entry_time setDate now hours (logFiles disk)) ->
               In e (getRecentLogs JSON_parse entry_time setDate now hours (logFiles disk'))) /\
    (whole_days setDate now ->
     (utc_day now - 2 <= utc_day t <= utc_day now)%Z ->
     (now - t <= hours * 3600000)%Z ->
     In j (getRecentLogs JSON_parse entry_time setDate now hours (logFiles disk'))).
Proof.
  cbv zeta. intros Hclean Hparse Htime Htidy Hwf.
  unfold logRequest. cbn [logFiles timestamp logEntry].
  set (line := JSON_stringify (logEntry t userId endpoint model responseData)) in *.
  assert (Hlines : lines_of (appendFile (utc_day t) (line +:+ LF) (logFiles disk)) (utc_day t)
                   = lines_of (logFiles disk) (utc_day t) ++ [line])
    by exact (appendFile_lines _ _ _ Htidy Hclean).
  split; [now apply appendFile_tidy |]. split; [| split; [exact Hlines | split]].
  - intros day l e t' Hin Hp Ht.
    destruct (decide (day = utc_day t)) as [->|Hne].
    + rewrite Hlines in Hin.
      apply in_app_or in Hin as [Hin | [<- | []]].
      * exact (Hwf _ _ _ _ Hin Hp Ht).
      * rewrite Hparse in Hp. inversion Hp; subst e.
        rewrite Htime in Ht. now inversion Ht.
    + rewrite appendFile_other_day in Hin by assumption.
      exact (Hwf _ _ _ _ Hin Hp Ht).
  - intros day Hne. unfold appendFile. now rewrite lookup_insert_ne by congruence.
  - intros now hours. split.
    + intros e. rewrite !in_recent_logs, !in_parsed_entries.
      intros [(i & l & Hi & Hl & Hp) Hr]. split; [| exact Hr].
      exists i, l. split; [exact Hi |]. split; [| exact Hp].
      now apply appendFile_grows.
    + intros Hw Hday Hage. apply in_recent_logs. split.
      * apply (proj2 (in_whole_days JSON_parse entry_time setDate now _ _ Hw)).
        exists (utc_day now - utc_day t)%Z, line. split; [lia |]. split; [| exact Hparse].
        replace (utc_day now - (utc_day now - utc_day t))%Z with (utc_day t) by lia.
        rewrite Hlines. apply in_or_app. right. now left.
      * unfold is_recent. rewrite Htime. now apply Z.leb_le.
Qed.

End Recorder.

(** A first call, logged ten hours before the directory is read. *)
Lemma logged_entry_is_found_witness :
  let stringify := fun _ : LogEntry => "A" in
  let disk := {| logFiles := ∅; summaries := None |} in
  let disk' := logRequest stringify 324000000 "u1" "/chat/completions" None None disk in
  (clean_line "A" /\ demo_parse "A" = Some 324000000%Z /\
   tidy (logFiles disk) /\ well_filed demo_parse Some (logFiles disk) /\
   whole_days utc_setDate demo_now) /\
  tidy (logFiles disk') /\
  lines_of (logFiles disk') (utc_day 324000000) = ["A"] /\
  In 324000000%Z (getRecentLogs demo_parse Some utc_setDate demo_now 24 (logFiles disk')).
Proof.
  cbv zeta.
  assert (Hclean : clean_line "A") by (repeat split; reflexivity).
  assert (Htidy : tidy (∅ : gmap Z string)).
  { intros day data H. rewrite lookup_empty in H. discriminate. }
  assert (Hwf : well_filed demo_parse Some (∅ : gmap Z string)).
  { intros day line entry t Hin. unfold lines_of in Hin.
    rewrite lookup_empty in Hin. destruct Hin. }
  pose proof (logged_entry_is_found demo_parse (fun _ => "A") Some utc_setDate
                324000000 "u1" "/chat/completions" None None
                {| logFiles := ∅; summaries := None |} 324000000%Z
                Hclean eq_refl eq_refl Htidy Hwf) as (Ht & _ & Hl & _ & Hfound).
  split; [split; [exact Hclean | split; [reflexivity | split; [exact Htidy |
            split; [exact Hwf | exact (utc_whole_days demo_now)]]]] |].
  split; [exact Ht |]. split; [exact Hl |].
  apply (proj2 (Hfound demo_now 24%Z) (utc_whole_days demo_now));
    [vm_compute; split; discriminate | vm_compute; discriminate].
Defined.

End RecentLogsFacts.

(** ** Authentication, replies and uploads *)

Module RoutesFacts.
Import Js JsFacts Server Routes RoutesSpec.

Lemma bearer_token (rest : string) : substring_from 7 ("Bearer " +:+ rest) = rest.
Proof. reflexivity. Qed.

Lemma bearer_prefix (rest : string) : startsWith "Bearer " ("Bearer " +:+ rest) = true.
Proof. apply startsWith_prefix. now exists rest. Qed.

Lemma bearer_nonempty (rest : string) : String.eqb ("Bearer " +:+ rest) "" = false.
Proof. reflexivity. Qed.

Lemma verifyRequest_next (API_SECRET : string) (authorization : option string) :
  verifyRequest API_SECRET authorization = Next ->
  authorization = Some ("Bearer " +:+ API_SECRET).
Proof.
  unfold verifyRequest. destruct authorization as [authHeader|]; [| discriminate].
  destruct (String.eqb authHeader "") eqn:Ee; [discriminate |].
  destruct (startsWith "Bearer " authHeader) eqn:Es; [| discriminate].
  cbn [orb negb].
  apply startsWith_prefix in Es as [rest ->]. rewrite bearer_token.
  destruct (String.eqb_spec rest API_SECRET) as [->|]; [reflexivity | discriminate].
Qed.

(** X1. [verifyRequest] lets a request through exactly when its
    authorization header is "Bearer ", followed by the secret and nothing
    else; a missing header, another scheme, another case of the scheme, or
    another token is answered with status 401. *)
Theorem verifyRequest_accepts_exactly (API_SECRET : string)
    (authorization : option string) :
  (verifyRequest API_SECRET authorization = Next <->
   authorization = Some ("Bearer " +:+ API_SECRET)) /\
  (authorization <> Some ("Bearer " +:+ API_SECRET) ->
   exists error, verifyRequest API_SECRET authorization = Unauthorized error).
Proof.
  assert (Hback : verifyRequest API_SECRET (Some ("Bearer " +:+ API_SECRET)) = Next).
  { unfold verifyRequest.
    rewrite bearer_nonempty, bearer_prefix, bearer_token, String.eqb_refl. reflexivity. }
  split.
  - split; [apply verifyRequest_next | now intros ->].
  - intros Hne. destruct (verifyRequest API_SECRET authorization) eqn:Ev; [eauto |].
    apply verifyRequest_next in Ev. contradiction.
Qed.

(** A request with another token is turned away. *)
Lemma verifyRequest_accepts_exactly_witness :
  Some "Bearer guess" <> Some ("Bearer " +:+ "s3cret") /\
  exists error, verifyRequest "s3cret" (Some "Bearer guess") = Unauthorized error.
Proof.
  assert (H : Some "Bearer guess" <> Some ("Bearer " +:+ "s3cret")) by discriminate.
  split; [exact H |].
  exact (proj2 (verifyRequest_accepts_exactly "s3cret" (Some "Bearer guess")) H).
Defined.

Lemma route_call_key (route : Env -> Body -> Outcome) (env : Env) (body : Body)
    (call : UpstreamCall) :
  In route provider_routes -> route env body = Call call ->
  missing (key_of env call) = false.
Proof.
  intros Hin Hcall.
  assert (Hdirect : forall r, r = chat_completions \/ r = anthropic_messages
                              \/ r = google_generateContent ->
                    r env body = Call call -> missing (key_of env call) = false).
  { intros r [-> | [-> | ->]];
      unfold chat_completions, anthropic_messages, google_generateContent;
      [destruct (missing (OPENAI_API_KEY env)) eqn:E
      |destruct (missing (ANTHROPIC_API_KEY env)) eqn:E
      |destruct (missing (GOOGLE_API_KEY env)) eqn:E];
      intros H; inversion H; subst; exact E. }
  simpl in Hin. destruct Hin as [<- | [<- | [<- | [<- | []]]]].
  - apply (Hdirect chat_completions); [tauto | exact Hcall].
  - apply (Hdirect anthropic_messages); [tauto | exact Hcall].
  - apply (Hdirect google_generateContent); [tauto | exact Hcall].
  - unfold unified_chat in Hcall.
    repeat match type of Hcall with
           | (if ?b then _ else _) = _ => destruct b
           end;
      first [ discriminate
            | apply (Hdirect chat_completions); [tauto | exact Hcall]
            | apply (Hdirect anthropic_messages); [tauto | exact Hcall]
            | apply (Hdirect google_generateContent); [tauto | exact Hcall] ].
Qed.

(** X2. Behind the authentication middleware, none of the four provider
    routes posts to a provider unless the request carries the secret as
    its bearer token and the key of that very provider is configured. *)
Theorem no_call_without_secret_and_key (API_SECRET : string)
    (authorization : option string) (route : Env -> Body -> Outcome)
    (env : Env) (body : Body) (call : UpstreamCall) :
  In route provider_routes ->
  protected API_SECRET authorization route env body = Routed (Call call) ->
  authorization = Some ("Bearer " +:+ API_SECRET) /\
  missing (key_of env call) = false.
Proof.
  intros Hin. unfold protected.
  destruct (verifyRequest API_SECRET authorization) eqn:Ev; [discriminate |].
  intros H. inversion H as [Hcall]. split.
  - now apply verifyRequest_next.
  - exact (route_call_key _ _ _ _ Hin Hcall).
Qed.

(** With the secret and the Anthropic key, the unified route posts to
    Anthropic. *)
Lemma no_call_without_secret_and_key_witness :
  (In unified_chat provider_routes /\
   protected "s3cret" (Some "Bearer s3cret") unified_chat
     {| OPENAI_API_KEY := None; ANTHROPIC_API_KEY := Some "sk-a";
        GOOGLE_API_KEY := None |}
     (ServerSpec.chat_body (Some "claude") [ServerSpec.user_message "Hi"])
   = Routed (Call (PostAnthropic
               (anthropicRequest
                  (ServerSpec.chat_body (Some "claude") [ServerSpec.user_message "Hi"]))))) /\
  Some "Bearer s3cret" = Some ("Bearer " +:+ "s3cret") /\
  missing (Some "sk-a") = false.
Proof.
  assert (Hin : In unified_chat provider_routes) by (simpl; tauto).
  split; [split; [exact Hin | reflexivity] |].
  exact (no_call_without_secret_and_key "s3cret" (Some "Bearer s3cret") unified_chat
           {| OPENAI_API_KEY := None; ANTHROPIC_API_KEY := Some "sk-a";
              GOOGLE_API_KEY := None |}
           (ServerSpec.chat_body (Some "claude") [ServerSpec.user_message "Hi"])
           _ Hin eq_refl).
Defined.

Lemma or_string_default (s : option string) (d : string) :
  d <> "" -> or_string s d <> "".
Proof.
  intros Hd. destruct s as [v|]; simpl; [| exact Hd].
  destruct (String.eqb_spec v ""); [exact Hd | assumption].
Qed.

Section RepliesFacts.

Context {Raw : Type}.

Lemma errorReply_error (error : @UpstreamError Raw) (st : Z) (m ty : string) :
  errorReply error = SentError st m ty ->
  response error ≫= data = None /\ ty = "proxy_error" /\ m <> "" /\ st <> 0%Z.
Proof.
  unfold errorReply. destruct (response error ≫= data) as [d|] eqn:Ed; [discriminate |].
  intros H. inversion H; subst. repeat split.
  - now apply or_string_default.
  - destruct (response error) as [r|]; [| discriminate].
    destruct (Z.eqb_spec (status r) 0); [discriminate | assumption].
Qed.

(** X3. When a call to a provider fails, the three provider routes answer
    in the same way: the status and the body of the provider go back as
    they are whenever the provider sent them, and the error body of the
    proxy, of type [proxy_error] and with a message that is never empty,
    stands in only for a body that is missing; the status is never zero. *)
Theorem upstream_errors_pass_through (error : @UpstreamError Raw) :
  (forall s body, response error = Some {| status := s; data := Some body |} ->
     s <> 0%Z -> errorReply error = SentRaw s body) /\
  (forall st m ty, errorReply error = SentError st m ty ->
     response error ≫= data = None /\ ty = "proxy_error" /\ m <> "" /\ st <> 0%Z) /\
  (forall st body, errorReply error = SentRaw st body ->
     st <> 0%Z /\ response error ≫= data = Some body) /\
  chat_completions_reply (inr error) = errorReply error /\
  (forall thrown now, anthropic_messages_reply thrown now (inr error) = errorReply error) /\
  (forall now later model,
     google_generateContent_reply now later model (inr error) = errorReply error).
Proof.
  split; [| split; [| split; [| repeat split]]].
  - intros s body Hr Hs. unfold errorReply. rewrite Hr. simpl.
    destruct (Z.eqb_spec s 0); [contradiction | reflexivity].
  - apply errorReply_error.
  - intros st body. unfold errorReply.
    destruct (response error ≫= data) as [d|] eqn:Ed; [| discriminate].
    intros H. inversion H; subst. split; [| reflexivity].
    destruct (response error) as [r|]; [| discriminate].
    destruct (Z.eqb_spec (status r) 0); [discriminate | assumption].
Qed.

End RepliesFacts.

(** A rate limit of the provider goes back as it is. *)
Lemma upstream_errors_pass_through_witness :
  let error := {| response := Some {| status := 429; data := Some "slow down" |};
                  error_message := Some "Request failed with status code 429" |} in
  (response error = Some {| status := 429; data := Some "slow down" |} /\ 429%Z <> 0%Z) /\
  errorReply error = SentRaw 429 "slow down".
Proof.
  cbv zeta.
  assert (H : 429%Z <> 0%Z) by discriminate.
  split; [split; [reflexivity | exact H] |].
  exact (proj1 (upstream_errors_pass_through
                  {| response := Some {| status := 429; data := Some "slow down" |};
                     error_message := Some "Request failed with status code 429" |})
           429%Z "slow down" eq_refl H).
Defined.

Lemma failure_entry (now : Z) (x_user_id : option string) (path : string)
    (body : option Body) (m : string) :
  m <> "" ->
  logged_as_failure
    (logged_entry now x_user_id path body (Some (Middleware.logged_error m))) m.
Proof.
  intros Hm. unfold logged_as_failure, logged_entry. simpl. repeat split.
  - destruct (String.eqb_spec m ""); [contradiction | reflexivity].
  - now apply or_string_default.
Qed.

Lemma unified_reply_message (env : Env) (body : Body) (st : Z) (m ty : string) :
  unified_chat env body = Reply st m ty -> m <> "".
Proof.
  unfold unified_chat, chat_completions, anthropic_messages, google_generateContent.
  repeat match goal with
         | |- context [if ?b then _ else _] => destruct b
         end; intros H; inversion H; discriminate.
Qed.

(** X4. Whatever the unified route refuses, and whatever a provider route
    answers with the error body of the proxy, is logged as a failed call:
    the entry records the message of the answer as its error, no tokens
    and no cost, and its user id is never empty. *)
Theorem refusals_logged_as_failures (now : Z) (x_user_id : option string)
    (path : string) (env : Env) (body : Body) :
  (forall st m ty, unified_chat env body = Reply st m ty ->
     logged_as_failure
       (logged_entry now x_user_id path (Some body) (Some (Middleware.logged_error m))) m) /\
  (forall (error : @UpstreamError string) st m ty,
     errorReply error = SentError st m ty ->
     logged_as_failure
       (logged_entry now x_user_id path (Some body) (Some (Middleware.logged_error m))) m).
Proof.
  split.
  - intros st m ty H. apply failure_entry. exact (unified_reply_message _ _ _ _ _ H).
  - intros error st m ty H. apply failure_entry.
    exact (proj1 (proj2 (proj2 (errorReply_error _ _ _ _ H)))).
Qed.

(** The identifier [foo], sent without a user id. *)
Lemma refusals_logged_as_failures_witness :
  let body := ServerSpec.chat_body (Some "foo") [ServerSpec.user_message "Hi"] in
  unified_chat ServerSpec.all_keys body
    = Reply 400 "Unknown provider: foo" "invalid_request" /\
  logged_as_failure
    (logged_entry 1700000000000 None "/unified/chat" (Some body)
       (Some (Middleware.logged_error "Unknown provider: foo")))
    "Unknown provider: foo".
Proof.
  cbv zeta. split; [reflexivity |].
  exact (proj1 (refusals_logged_as_failures 1700000000000 None "/unified/chat"
                  ServerSpec.all_keys
                  (ServerSpec.chat_body (Some "foo") [ServerSpec.user_message "Hi"]))
           400%Z "Unknown provider: foo" "invalid_request" eq_refl).
Defined.

(** X5. The Anthropic route answers a reply that has a [content] with one
    choice whose finish reason is [stop] exactly when the stop reason of
    the reply is [end_turn] or [stop], and is the stop reason of the reply,
    missing or not, when that is not [end_turn]; the total of its usage is
    the sum of its two counts. A reply without [content] is answered with
    status 500 and the error body of the proxy. *)
Theorem anthropic_reply_translation (thrown : string) (now : Z)
    (reply : AnthropicReply) :
  (content reply = None ->
   anthropic_messages_reply (Raw := string) thrown now (inl reply)
   = SentError 500 (or_string (Some thrown) "Internal server error") "proxy_error") /\
  (content reply <> None ->
   exists body choice,
     anthropic_messages_reply (Raw := string) thrown now (inl reply) = SentAnthropic body /\
     ac_choices body = [choice] /\
     (finish_reason choice = Some "stop" <->
      stop_reason reply = Some "end_turn" \/ stop_reason reply = Some "stop") /\
     (stop_reason reply <> Some "end_turn" -> finish_reason choice = stop_reason reply) /\
     Server.total_tokens (ac_usage body)
     = (Server.prompt_tokens (ac_usage body)
        + Server.completion_tokens (ac_usage body))%float).
Proof.
  unfold anthropic_messages_reply, anthropic_transformedResponse. split.
  - intros ->. reflexivity.
  - destruct (content reply) as [blocks|]; [intros _ | contradiction].
    eexists. eexists. split; [reflexivity |]. split; [reflexivity |].
    simpl. unfold anthropic_finish_reason.
    destruct (stop_reason reply) as [r|].
    + destruct (String.eqb_spec r "end_turn") as [->|Hne].
      * repeat split; [tauto | congruence].
      * repeat split.
        -- intros H. right. exact H.
        -- intros [H | H]; [inversion H; contradiction | exact H].
    + repeat split; [discriminate | intros [H | H]; discriminate].
Qed.

(** A reply cut at the token limit keeps its stop reason. *)
Lemma anthropic_reply_translation_witness :
  let reply := {| id := Some "msg_1"; model := Some "claude-sonnet-4-20250514";
                  content := Some [ {| text := Some "Hello" |} ];
                  stop_reason := Some "max_tokens";
                  usage := Some {| input_tokens := Some 12%float;
                                   output_tokens := Some 30%float |} |} in
  content reply <> None /\
  exists body choice,
    anthropic_messages_reply (Raw := string) "" 1700000000000 (inl reply)
    = SentAnthropic body /\
    ac_choices body = [choice] /\
    finish_reason choice = Some "max_tokens".
Proof.
  cbv zeta.
  assert (H : Some [ {| text := Some "Hello" |} ] <> None) by discriminate.
  split; [exact H |].
  destruct (proj2 (anthropic_reply_translation "" 1700000000000
                     {| id := Some "msg_1"; model := Some "claude-sonnet-4-20250514";
                        content := Some [ {| text := Some "Hello" |} ];
                        stop_reason := Some "max_tokens";
                        usage := Some {| input_tokens := Some 12%float;
                                         output_tokens := Some 30%float |} |}) H)
    as (body & choice & Hr & Hc & _ & Hpass & _).
  exists body, choice. split; [exact Hr |]. split; [exact Hc |].
  apply Hpass. discriminate.
Defined.

Section UploadFacts.

Context {Buffer : Type}.
Variable utf8 : Buffer -> string.
Variable base64 : Buffer -> string.

Lemma process_small_files (files : list File) :
  Forall within_limit files ->
  forall done,
    process_files utf8 base64 files done
    = UploadSuccess (done ++ map (uploaded utf8 base64) files)
                    (length done + length files).
Proof.
  induction files as [|file rest IH]; intros Hsmall done; simpl.
  - now rewrite app_nil_r, Nat.add_0_r.
  - apply Forall_cons in Hsmall as [Hfile Hrest]. unfold within_limit in Hfile.
    destruct (Z.ltb_spec (10 * 1024 * 1024) (size file)) as [Hbig|_]; [lia |].
    rewrite (IH Hrest). fold (uploaded utf8 base64 file).
    rewrite <- app_assoc, length_app. simpl. f_equal. lia.
Qed.

Lemma process_until_large (before : list File) (big : File) (after : list File) :
  Forall within_limit before -> ~ within_limit big ->
  forall done,
    process_files utf8 base64 (before ++ big :: after) done
    = UploadError 400 ("File " +:+ name big +:+ " exceeds 10MB limit") None.
Proof.
  induction before as [|file rest IH]; intros Hsmall Hbig done; simpl.
  - unfold within_limit in Hbig.
    destruct (Z.ltb_spec (10 * 1024 * 1024) (size big)) as [_|Hle]; [reflexivity | lia].
  - apply Forall_cons in Hsmall as [Hfile Hrest]. unfold within_limit in Hfile.
    destruct (Z.ltb_spec (10 * 1024 * 1024) (size file)) as [Hlt|_]; [lia |].
    now apply IH.
Qed.

(** X6. The upload route takes all the files of a request or none. When
    every file is within ten megabytes, it answers with one element per
    file, in the order of the request, with the name, type, size and
    base64 text of that file, and with their number. When a file is
    larger, it answers with status 400 and names the first such file,
    whatever the files around it. *)
Theorem upload_all_or_nothing (thrown : string) (files : list File) :
  (Forall within_limit files ->
   files_upload utf8 base64 thrown
     (Some {| files_field := Some (ManyFiles files); other_fields := 0 |})
   = UploadSuccess (map (uploaded utf8 base64) files) (length files)) /\
  (forall before big after,
     files = before ++ big :: after ->
     Forall within_limit before -> ~ within_limit big ->
     files_upload utf8 base64 thrown
       (Some {| files_field := Some (ManyFiles files); other_fields := 0 |})
     = UploadError 400 ("File " +:+ name big +:+ " exceeds 10MB limit") None).
Proof.
  unfold files_upload. simpl. split.
  - intros Hsmall. now rewrite (process_small_files _ Hsmall).
  - intros before big after -> Hsmall Hbig. now apply process_until_large.
Qed.

End UploadFacts.

(** A large file between two small ones refuses the whole request. *)
Lemma upload_all_or_nothing_witness :
  ([small_file "a.txt"; large_file "b.pdf"; small_file "c.txt"]
   = [small_file "a.txt"] ++ large_file "b.pdf" :: [small_file "c.txt"] /\
   Forall within_limit [small_file "a.txt"] /\ ~ within_limit (large_file "b.pdf")) /\
  files_upload (fun text => text) (fun text => text) ""
    (Some {| files_field :=
               Some (ManyFiles [small_file "a.txt"; large_file "b.pdf"; small_file "c.txt"]);
             other_fields := 0 |})
  = UploadError 400 "File b.pdf exceeds 10MB limit" None.
Proof.
  assert (H1 : Forall within_limit [small_file "a.txt"])
    by (repeat constructor; unfold within_limit; simpl; lia).
  assert (H2 : ~ within_limit (large_file "b.pdf"))
    by (unfold within_limit; simpl; lia).
  split; [split; [reflexivity | split; assumption] |].
  exact (proj2 (upload_all_or_nothing (fun text => text) (fun text => text) ""
                  [small_file "a.txt"; large_file "b.pdf"; small_file "c.txt"])
           [small_file "a.txt"] (large_file "b.pdf") [small_file "c.txt"]
           eq_refl H1 H2).
Defined.

End RoutesFacts.

(** ** The Gemini content list, again *)

Module GeminiFacts.
Import Js Server ServerSpec ServerFacts GeminiSpec.

Lemma append_lit (c : ascii) (r b : string) : String c r +:+ b = String c (r +:+ b).
Proof. reflexivity. Qed.

Lemma message_step_entry (st : LoopState) (msg : Message) :
  ~ is_system msg ->
  exists ps sp,
    message_step st msg
    = {| contents := contents st ++ [{| g_role := gemini_role msg; parts := ps |}];
         systemPrompt := sp |}.
Proof.
  intros Hns. unfold message_step, is_system in *.
  destruct (String.eqb_spec (role msg) "system") as [|_]; [contradiction |].
  destruct (match content msg with
            | ContentString s =>
                let '(p, sp') :=
                  text_part (gemini_role msg)
                    (Nat.eqb (length (contents st)) 0) (systemPrompt st) s in
                ([p], sp')
            | ContentArray items =>
                fold_left
                  (item_step (gemini_role msg) (Nat.eqb (length (contents st)) 0))
                  items ([], systemPrompt st)
            | ContentMissing => ([], systemPrompt st)
            end) as [ps sp].
  now exists ps, sp.
Qed.

Lemma first_entry_then_direct (msgs : list Message) (st : LoopState) :
  contents st = [] ->
  exists head_parts,
    contents (fold_left message_step msgs st)
    = match spoken msgs with
      | [] => []
      | first :: rest =>
          {| g_role := gemini_role first; parts := head_parts |}
          :: map direct_entry rest
      end.
Proof.
  revert st. induction msgs as [|msg rest IH]; intros st Hst; simpl.
  - exists []. exact Hst.
  - unfold spoken. rewrite filter_cons.
    destruct (decide (~ is_system msg)) as [Hns|Hs].
    + destruct (message_step_entry st msg Hns) as (ps & sp & Hstep).
      exists ps. rewrite Hstep, later_messages_direct by (simpl; rewrite Hst; discriminate).
      simpl. now rewrite Hst.
    + apply (IH (message_step st msg)).
      unfold message_step, is_system in *.
      destruct (String.eqb_spec (role msg) "system") as [_|Hne]; [exact Hst | tauto].
Qed.

(** X8. Whatever the message list, only the first entry of the content
    list can carry the system prompt: every entry behind it is the
    translation of its message on its own. *)
Theorem gemini_only_first_entry_merged (msgs : list Message) :
  exists head_parts,
    transformMessagesToGeminiFormat (Some msgs)
    = match spoken msgs with
      | [] => []
      | first :: rest =>
          {| g_role := gemini_role first; parts := head_parts |}
          :: map direct_entry rest
      end.
Proof. unfold transformMessagesToGeminiFormat. now apply first_entry_then_direct. Qed.

(** X9. The prompt is merged only into a user message that opens the
    content list under a prompt that is not empty: when the first message
    that is not a system message is an assistant message, or when no system
    message or an empty one precedes it, every message is translated on its
    own. *)
Theorem gemini_direct_without_prompt (sys : list Message) (first : Message)
    (rest : list Message) :
  Forall is_system sys -> ~ is_system first ->
  role first = "assistant" \/ truthy (prompt_after sys) = false ->
  transformMessagesToGeminiFormat (Some (sys ++ first :: rest))
  = map direct_entry (first :: spoken rest).
Proof.
  intros Hsys Hns Hcase. unfold transformMessagesToGeminiFormat.
  rewrite fold_left_app, (system_messages_set_prompt _ _ Hsys). simpl.
  fold (prompt_after sys).
  assert (Hplain : String.eqb (gemini_role first) "user"
                   && truthy (prompt_after sys) && true = false).
  { destruct Hcase as [Ha | Ht].
    - unfold gemini_role. now rewrite Ha.
    - rewrite Ht. now rewrite andb_false_r. }
  unfold message_step at 2. unfold is_system in Hns.
  destruct (String.eqb_spec (role first) "system") as [|_]; [contradiction |]. simpl.
  unfold direct_entry at 1.
  destruct (content first) as [s|items|] eqn:Ec.
  - rewrite (text_part_plain _ _ _ _ Hplain).
    rewrite later_messages_direct by discriminate. reflexivity.
  - rewrite (items_plain _ _ _ _ Hplain).
    rewrite later_messages_direct by discriminate. reflexivity.
  - rewrite later_messages_direct by discriminate. reflexivity.
Qed.

(** A conversation without any system message. *)
Lemma gemini_direct_without_prompt_witness :
  (Forall is_system [] /\ ~ is_system (user_message "Hi") /\
   (role (user_message "Hi") = "assistant" \/ truthy (prompt_after []) = false)) /\
  transformMessagesToGeminiFormat
    (Some [user_message "Hi"; assistant_message "Hello"; user_message "Bye"])
  = map direct_entry [user_message "Hi"; assistant_message "Hello"; user_message "Bye"].
Proof.
  assert (H1 : Forall is_system []) by constructor.
  assert (H2 : ~ is_system (user_message "Hi")) by discriminate.
  assert (H3 : role (user_message "Hi") = "assistant" \/ truthy (prompt_after []) = false)
    by (right; reflexivity).
  split; [repeat split; assumption |].
  exact (gemini_direct_without_prompt [] (user_message "Hi")
           [assistant_message "Hello"; user_message "Bye"] H1 H2 H3).
Defined.

Lemma strip_prefix_append (p s r : string) :
  strip_prefix p s = Some r <-> s = p +:+ r.
Proof.
  revert s. induction p as [|a p IH]; intros s.
  - simpl. split; [intros H; now inversion H | intros ->; reflexivity].
  - destruct s as [|b s]; simpl.
    + split; [discriminate | intros H; discriminate].
    + rewrite append_lit. destruct (Ascii.eqb_spec a b) as [->|Hne].
      * rewrite IH. split; [now intros -> | intros H; now inversion H].
      * split; [discriminate | intros H; inversion H; congruence].
Qed.

Lemma span_append (a b : string) :
  no_semicolon a = true ->
  span_not_semicolon (a +:+ String ";"%char b) = (a, String ";"%char b).
Proof.
  induction a as [|c r IH]; [reflexivity |].
  rewrite append_lit. simpl. intros H. apply andb_true_iff in H as [Hc Hr].
  apply negb_true_iff in Hc. rewrite Hc, (IH Hr). reflexivity.
Qed.

Lemma span_split (s a b : string) :
  span_not_semicolon s = (a, b) -> s = a +:+ b /\ no_semicolon a = true.
Proof.
  revert a b. induction s as [|c r IH]; intros a b; simpl.
  - intros H. inversion H. split; reflexivity.
  - destruct (Ascii.eqb c ";"%char) eqn:Ec.
    + intros H. inversion H. split; reflexivity.
    + destruct (span_not_semicolon r) as [a' b'] eqn:Er. intros H. inversion H; subst.
      destruct (IH _ _ eq_refl) as [-> Ha]. split; [reflexivity |].
      simpl. now rewrite Ec, Ha.
Qed.

Lemma nonempty_eqb (s : string) : s <> "" -> String.eqb s "" = false.
Proof. intros H. destruct (String.eqb_spec s ""); [contradiction | reflexivity]. Qed.

(** X10. An image item is decoded from its data URL and from nothing else.
    The URL made of [data:], a type that is not empty and has no
    semicolon, [;base64,] and a payload that is not empty and has no line
    break gives the inline part of that type and that payload, whatever
    the characters of the payload; and an inline part is only ever given
    by the URL made in this way of its own type and payload. *)
Theorem data_url_round_trip (mime payload : string) :
  (mime <> "" -> no_semicolon mime = true ->
   payload <> "" -> no_line_terminator payload = true ->
   image_parts (data_url mime payload) = [PartInlineData mime payload]) /\
  (forall url, image_parts url = [PartInlineData mime payload] ->
     url = data_url mime payload /\
     mime <> "" /\ no_semicolon mime = true /\
     payload <> "" /\ no_line_terminator payload = true).
Proof.
  split.
  - intros Hm Hsemi Hp Hlt. unfold image_parts, data_url.
    assert (Hs : startsWith "data:" ("data:" +:+ mime +:+ ";base64," +:+ payload) = true)
      by (apply JsFacts.startsWith_prefix; eauto).
    rewrite Hs. unfold match_data_url.
    change (strip_prefix "data:" ("data:" +:+ mime +:+ ";base64," +:+ payload))
      with (Some (mime +:+ String ";"%char ("base64," +:+ payload))).
    cbv beta iota. rewrite (span_append _ _ Hsemi), (nonempty_eqb _ Hm).
    change (strip_prefix ";base64," (String ";"%char ("base64," +:+ payload)))
      with (Some payload).
    cbv beta iota. now rewrite (nonempty_eqb _ Hp), Hlt.
  - intros url. unfold image_parts.
    destruct (startsWith "data:" url); [| discriminate].
    unfold match_data_url.
    destruct (strip_prefix "data:" url) as [rest|] eqn:Eu; [| discriminate].
    apply strip_prefix_append in Eu. subst url.
    destruct (span_not_semicolon rest) as [m tail] eqn:Es.
    apply span_split in Es as [-> Hsemi].
    destruct (String.eqb_spec m "") as [|Hm]; [discriminate |].
    destruct (strip_prefix ";base64," tail) as [d|] eqn:Et; [| discriminate].
    apply strip_prefix_append in Et. subst tail.
    destruct (String.eqb_spec d "") as [|Hp]; [discriminate |].
    destruct (no_line_terminator d) eqn:Hlt; [| discriminate].
    intros H. inversion H; subst. repeat split; assumption.
Qed.

(** A small PNG. *)
Lemma data_url_round_trip_witness :
  ("image/png" <> "" /\ no_semicolon "image/png" = true /\
   "iVBORw0KGgo=" <> "" /\ no_line_terminator "iVBORw0KGgo=" = true) /\
  image_parts "data:image/png;base64,iVBORw0KGgo="
  = [PartInlineData "image/png" "iVBORw0KGgo="].
Proof.
  assert (H1 : "image/png" <> "") by discriminate.
  assert (H2 : "iVBORw0KGgo=" <> "") by discriminate.
  split; [repeat split; assumption |].
  exact (proj1 (data_url_round_trip "image/png" "iVBORw0KGgo=") H1 eq_refl H2 eq_refl).
Defined.

End GeminiFacts.

(** ** Costs and summaries, again *)

Module LedgerFacts.
Import Js JsSpec JsFacts Logger LoggerSpec LoggerFacts LedgerSpec.

Lemma lookup_key_listed (key : string) (table : list (string * Pricing)) (p : Pricing) :
  lookup_key key table = Some p -> In p (map snd table).
Proof.
  induction table as [|[k v] rest IH]; simpl; [discriminate |].
  destruct (String.eqb k key).
  - intros H. inversion H. now left.
  - intros H. right. now apply IH.
Qed.

(** What the chain of alternatives answers: an entry of one of the two
    tables, or an inherited member. *)
Lemma modelPricing_cases (model : option string) (provider : string) :
  (exists p, modelPricing model provider = Own p /\
             In p (map snd pricing ++ map snd defaultPricing)) \/
  modelPricing model provider = Inherited.
Proof.
  unfold modelPricing, table_member, member.
  destruct (lookup_key (property_key model) pricing) as [p|] eqn:Em.
  - left. exists p. split; [reflexivity |].
    apply in_or_app. left. exact (lookup_key_listed _ _ _ Em).
  - destruct (inherited (property_key model)); [now right |].
    destruct (lookup_key provider defaultPricing) as [p|] eqn:Ep.
    + left. exists p. split; [reflexivity |].
      apply in_or_app. right. exact (lookup_key_listed _ _ _ Ep).
    + destruct (inherited provider); [now right |].
      left. eexists. split; [reflexivity |]. simpl. tauto.
Qed.

(** Under plain names, it answers an entry. *)
Lemma modelPricing_plain (model : option string) (provider : string) :
  plain (property_key model) -> plain provider ->
  exists p, modelPricing model provider = Own p /\
            In p (map snd pricing ++ map snd defaultPricing).
Proof.
  unfold plain. intros Hm Hp.
  destruct (modelPricing_cases model provider) as [H | H]; [exact H |].
  exfalso. revert H. unfold modelPricing, table_member, member.
  rewrite Hm, Hp.
  destruct (lookup_key (property_key model) pricing); [discriminate |].
  destruct (lookup_key provider defaultPricing); discriminate.
Qed.

Lemma rates_of_zero :
  Forall (fun r => (0 / 1000000 * input r + 0 / 1000000 * output r)%float = 0%float)
         (map snd pricing ++ map snd defaultPricing).
Proof. repeat constructor. Qed.

Lemma rates_of_nan :
  Forall (fun r => (PrimFloat.nan / 1000000 * input r
                    + PrimFloat.nan / 1000000 * output r)%float = PrimFloat.nan)
         (map snd pricing ++ map snd defaultPricing).
Proof. repeat constructor. Qed.

Lemma detectProvider_plain (endpoint : string) (model : option string) :
  plain (detectProvider endpoint model).
Proof.
  unfold detectProvider.
  destruct (includes "anthropic" endpoint || model_includes "claude" model);
    [reflexivity |].
  destruct (includes "google" endpoint || model_includes "gemini" model); reflexivity.
Qed.

(** X11. A call that reports zero prompt tokens and zero completion tokens
    costs nothing, whatever the model and the provider whose names are
    plain keys. *)
Theorem zero_tokens_cost_nothing (model : option string) (provider : string)
    (reported_total : option float) :
  plain (property_key model) -> plain provider ->
  calculateCost model
    (Some {| prompt_tokens := Some 0%float; completion_tokens := Some 0%float;
             total_tokens := reported_total |}) provider
  = 0%float.
Proof.
  intros Hm Hp. unfold calculateCost. simpl.
  destruct (modelPricing_plain model provider Hm Hp) as (p & -> & Hin). simpl.
  pose proof rates_of_zero as H. rewrite Forall_forall in H.
  apply (H p), list_elem_of_In, Hin.
Qed.

(** A model that no table lists, for a provider that none lists. *)
Lemma zero_tokens_cost_nothing_witness :
  (plain (property_key (Some "mystery-model")) /\ plain "azure") /\
  calculateCost (Some "mystery-model")
    (Some {| prompt_tokens := Some 0%float; completion_tokens := Some 0%float;
             total_tokens := None |}) "azure"
  = 0%float.
Proof.
  assert (Hm : plain (property_key (Some "mystery-model"))) by reflexivity.
  assert (Hp : plain "azure") by reflexivity.
  split; [split; assumption |].
  exact (zero_tokens_cost_nothing (Some "mystery-model") "azure" None Hm Hp).
Defined.

(** X12. A response whose usage has no token counts is logged as a
    success with zero tokens, and with a cost that is not a number,
    whatever the model: the cost is not defaulted to zero as the token
    counts are. *)
Theorem usage_without_counts_costs_nan (now : Z) (userId endpoint : string)
    (model : option string) :
  let entry := logEntry now userId endpoint model (Some usage_without_counts) in
  success entry = true /\
  tokens entry = {| prompt := 0; completion := 0; total := 0 |} /\
  cost entry = PrimFloat.nan.
Proof.
  cbv zeta. split; [reflexivity |]. split; [reflexivity |].
  unfold logEntry, cost, calculateCost. simpl.
  destruct (modelPricing_cases model (detectProvider endpoint model))
    as [(p & -> & Hin) | ->]; [| reflexivity].
  simpl. pose proof rates_of_nan as H. rewrite Forall_forall in H.
  apply (H p), list_elem_of_In, Hin.
Qed.

Lemma unlisted_rates (model : option string) (provider : string) :
  (forall p, ~ In (property_key model, p) pricing) ->
  plain (property_key model) ->
  modelPricing model provider
  = match table_member provider defaultPricing with
    | Missing => table_member "openai" defaultPricing
    | found => found
    end.
Proof.
  intros H Hp. unfold modelPricing. rewrite (table_member_other _ _ H).
  unfold plain in Hp. now rewrite Hp.
Qed.

(** X13. A call for a model that is outside the pricing table, and whose
    name is a plain key, is priced by what its endpoint and its model
    name: at the Anthropic rates (3 and 15) when they name Anthropic, else
    at the Google rates (1.25 and 5) when they name Google, else at the
    OpenAI rates (5 and 15). *)
Theorem unlisted_model_priced_by_provider (now : Z) (userId endpoint : string)
    (model : option string) (responseData : option ResponseData) (u : Usage) :
  responseData ≫= usage = Some u ->
  (forall p, ~ In (property_key model, p) pricing) ->
  plain (property_key model) ->
  let entry := logEntry now userId endpoint model responseData in
  (names_anthropic endpoint model -> cost entry = price u 3 15) /\
  (~ names_anthropic endpoint model -> names_google endpoint model ->
   cost entry = price u 1.25 5) /\
  (~ names_anthropic endpoint model -> ~ names_google endpoint model ->
   cost entry = price u 5 15).
Proof.
  intros Hu Hout Hplain. cbv zeta. unfold logEntry, cost. rewrite Hu.
  unfold calculateCost, detectProvider. cbv zeta.
  rewrite !(unlisted_rates _ _ Hout Hplain).
  destruct (includes "anthropic" endpoint || model_includes "claude" model) eqn:Ea.
  - apply anthropic_test in Ea.
    repeat split; intros; first [contradiction | reflexivity].
  - assert (Hna : ~ names_anthropic endpoint model).
    { intros H. apply anthropic_test in H. congruence. }
    destruct (includes "google" endpoint || model_includes "gemini" model) eqn:Eg.
    + apply google_test in Eg.
      repeat split; intros; first [contradiction | reflexivity].
    + assert (Hng : ~ names_google endpoint model).
      { intros H. apply google_test in H. congruence. }
      repeat split; intros; first [contradiction | reflexivity].
Qed.

(** A new Claude model, called through the unified route. *)
Lemma unlisted_model_priced_by_provider_witness :
  let u := {| prompt_tokens := Some 1000000%float;
              completion_tokens := Some 1000000%float;
              total_tokens := Some 2000000%float |} in
  ((forall p, ~ In (property_key (Some "claude-opus-4"), p) pricing) /\
   plain (property_key (Some "claude-opus-4")) /\
   names_anthropic "/unified/chat" (Some "claude-opus-4")) /\
  cost (logEntry 0 "u1" "/unified/chat" (Some "claude-opus-4")
          (Some {| usage := Some u; error := None |}))
  = price u 3 15.
Proof.
  cbv zeta.
  assert (Hout : forall p, ~ In (property_key (Some "claude-opus-4"), p) pricing)
    by (apply lookup_key_None; reflexivity).
  assert (Hplain : plain (property_key (Some "claude-opus-4"))) by reflexivity.
  assert (Hname : names_anthropic "/unified/chat" (Some "claude-opus-4"))
    by (apply anthropic_test; reflexivity).
  split; [repeat split; assumption |].
  exact (proj1 (unlisted_model_priced_by_provider 0 "u1" "/unified/chat"
                  (Some "claude-opus-4")
                  (Some {| usage := Some {| prompt_tokens := Some 1000000%float;
                                            completion_tokens := Some 1000000%float;
                                            total_tokens := Some 2000000%float |};
                           error := None |})
                  _ eq_refl Hout Hplain) Hname).
Defined.

Lemma earlier_keys_distinct : NoDup (map fst LoggerV1.pricing).
Proof. apply (bool_decide_unpack _). vm_compute. exact I. Qed.

Lemma earlier_table_kept (key : string) (p : Pricing) :
  In (key, p) LoggerV1.pricing -> In (key, p) pricing.
Proof.
  intros H.
  assert (Hincl : incl LoggerV1.pricing pricing).
  { intros x Hx. simpl in Hx. simpl.
    repeat destruct Hx as [<- | Hx]; tauto. }
  exact (Hincl _ H).
Qed.

(** X14. The cost of a call did not change when the providers were added
    to the logger: for a model that the earlier table prices, and for a
    model that neither table prices, the earlier [calculateCost] and the
    present one, called for the provider [openai], return the same
    number. *)
Theorem cost_kept_for_earlier_models (model : option string)
    (usage : option Usage) :
  (forall p, In (property_key model, p) pricing ->
             In (property_key model, p) LoggerV1.pricing) ->
  LoggerV1.calculateCost model usage = calculateCost model usage "openai".
Proof.
  intros Hold. unfold LoggerV1.calculateCost, calculateCost.
  destruct usage as [u|]; [| reflexivity].
  assert (Hrates : LoggerV1.modelPricing model = modelPricing model "openai").
  { unfold LoggerV1.modelPricing, modelPricing, table_member, member.
    destruct (lookup_key (property_key model) pricing) as [p|] eqn:En.
    - apply (lookup_key_In _ _ _ pricing_keys_distinct) in En.
      apply Hold, (lookup_key_In _ _ _ earlier_keys_distinct) in En.
      now rewrite En.
    - destruct (lookup_key (property_key model) LoggerV1.pricing) as [p|] eqn:Eo.
      + apply (lookup_key_In _ _ _ earlier_keys_distinct), earlier_table_kept in Eo.
        apply (lookup_key_In _ _ _ pricing_keys_distinct) in Eo. congruence.
      + destruct (inherited (property_key model)); reflexivity. }
  cbv zeta. now rewrite Hrates.
Qed.

(** A model of the earlier table. *)
Lemma cost_kept_for_earlier_models_witness :
  (forall p, In (property_key (Some "gpt-4"), p) pricing ->
             In (property_key (Some "gpt-4"), p) LoggerV1.pricing) /\
  LoggerV1.calculateCost (Some "gpt-4")
    (Some {| prompt_tokens := Some 1000%float; completion_tokens := Some 500%float;
             total_tokens := Some 1500%float |})
  = calculateCost (Some "gpt-4")
      (Some {| prompt_tokens := Some 1000%float; completion_tokens := Some 500%float;
               total_tokens := Some 1500%float |}) "openai".
Proof.
  assert (H : forall p, In (property_key (Some "gpt-4"), p) pricing ->
                        In (property_key (Some "gpt-4"), p) LoggerV1.pricing).
  { intros p Hp. apply (lookup_key_In _ _ _ pricing_keys_distinct) in Hp.
    apply (lookup_key_In _ _ _ earlier_keys_distinct).
    rewrite <- Hp. reflexivity. }
  split; [exact H |].
  exact (cost_kept_for_earlier_models (Some "gpt-4") _ H).
Defined.

(** An update writes nothing, or writes the document with one summary
    put under the user id. *)
Lemma update_shape (userId : string) (entry : LogEntry)
    (document : option (gmap string UserSummary)) :
  updateUserSummary userId entry document = document \/
  exists s',
    updateUserSummary userId entry document
    = Some (<[userId := s']> (default ∅ document)) /\
    is_Some (providerCounts s') /\
    forall s, default ∅ document !! userId = Some s ->
      firstSeen s' = firstSeen s /\ totalRequests s' = (totalRequests s + 1)%N.
Proof.
  unfold updateUserSummary. cbv zeta.
  destruct (default ∅ document !! userId) as [s|] eqn:E; simpl.
  - destruct (providerCounts s); [| now left].
    right. eexists. split; [reflexivity |]. split; [simpl; eauto |].
    intros s0 H0. inversion H0; subst s0. simpl. split; reflexivity.
  - destruct (inherited userId); [now left |]. simpl.
    right. eexists. split; [reflexivity |]. split; [simpl; eauto |].
    intros s0 H0. discriminate.
Qed.

Lemma stored_lookup (user : string) (document : option (gmap string UserSummary)) :
  stored user document = default ∅ document !! user.
Proof.
  unfold stored. destruct document; simpl; [reflexivity |].
  symmetry. apply lookup_empty.
Qed.

Lemma getUserStats_own (user : string) (document : option (gmap string UserSummary))
    (s : UserSummary) :
  getUserStats user document = Own s <-> stored user document = Some s.
Proof.
  unfold getUserStats, stored, member. destruct document as [summaries|]; simpl.
  - destruct (summaries !! user) as [s0|].
    + split; intros H; inversion H; reflexivity.
    + destruct (inherited user); split; discriminate.
  - split; discriminate.
Qed.

Lemma other_user_stored (userId other : string) (entry : LogEntry)
    (document : option (gmap string UserSummary)) :
  other <> userId ->
  stored other (updateUserSummary userId entry document) = stored other document.
Proof.
  intros Hne. destruct (update_shape userId entry document) as [-> | (s' & -> & _ & _)];
    [reflexivity |].
  rewrite !stored_lookup. simpl. now rewrite lookup_insert_ne by congruence.
Qed.

Lemma plain_user_stats (user : string) (document : option (gmap string UserSummary)) :
  plain user ->
  getUserStats user document
  = match stored user document with
    | Some s => Own s
    | None => Missing
    end.
Proof.
  unfold plain, getUserStats, stored, member. intros Hp.
  destruct document as [summaries|]; simpl; [| reflexivity].
  destruct (summaries !! user); [reflexivity | now rewrite Hp].
Qed.

(** X15. Updates for one user, whose id is not [__proto__], however many,
    leave the summary that the document holds for every other user as it
    is, and give no other user a summary; so that for every other user
    whose id is a plain key [getUserStats] returns what it returned
    before. *)
Theorem updates_leave_other_users (userId other : string)
    (entries : list LogEntry) (document : option (gmap string UserSummary)) :
  userId <> "__proto__" ->
  other <> userId ->
  stored other (sequential_updates userId entries document) = stored other document /\
  (plain other ->
   getUserStats other (sequential_updates userId entries document)
   = getUserStats other document).
Proof.
  intros _ Hne.
  assert (H : stored other (sequential_updates userId entries document)
              = stored other document).
  { unfold sequential_updates. revert document.
    induction entries as [|entry rest IH]; intros document; simpl.
    - reflexivity.
    - rewrite IH. now apply other_user_stored. }
  split; [exact H |].
  intros Hp. now rewrite !(plain_user_stats _ _ Hp), H.
Qed.

Lemma updates_leave_other_users_witness :
  ("u1" <> "__proto__" /\ "u2" <> "u1" /\ plain "u2") /\
  stored "u2" (sequential_updates "u1" two_calls None) = None /\
  getUserStats "u2" (sequential_updates "u1" two_calls None) = Missing.
Proof.
  assert (H0 : "u1" <> "__proto__") by discriminate.
  assert (H : "u2" <> "u1") by discriminate.
  assert (Hp : plain "u2") by reflexivity.
  split; [repeat split; assumption |].
  destruct (updates_leave_other_users "u1" "u2" two_calls None H0 H) as [Hs Hg].
  split; [exact Hs | exact (Hg Hp)].
Defined.

Lemma update_keeps_summary (userId user : string) (entry : LogEntry)
    (document : option (gmap string UserSummary)) (s : UserSummary) :
  getUserStats user document = Own s ->
  exists s',
    getUserStats user (updateUserSummary userId entry document) = Own s' /\
    firstSeen s' = firstSeen s /\
    (totalRequests s <= totalRequests s')%N /\
    (totalRequests s' <= totalRequests s + (if decide (userId = user) then 1 else 0))%N.
Proof.
  intros Hs. apply getUserStats_own in Hs.
  destruct (decide (userId = user)) as [->|Hne].
  - destruct (update_shape user entry document) as [-> | (s' & -> & _ & Hs')].
    + exists s. rewrite getUserStats_own. repeat split; [assumption | lia | lia].
    + rewrite stored_lookup in Hs. destruct (Hs' _ Hs) as [Hf Hr].
      exists s'. rewrite getUserStats_own, stored_lookup. simpl.
      rewrite lookup_insert_eq. repeat split; [assumption | lia | lia].
  - exists s. rewrite getUserStats_own, other_user_stored by congruence.
    repeat split; [assumption | lia | lia].
Qed.

Lemma update_unseen_summary (userId : string) (entry : LogEntry)
    (document : option (gmap string UserSummary)) :
  plain userId -> unseen userId document ->
  exists s, getUserStats userId (updateUserSummary userId entry document) = Own s.
Proof.
  intros Hp Hu. rewrite (SummaryFacts.update_unseen _ _ _ Hp Hu).
  eexists. unfold getUserStats. now rewrite lookup_insert_eq.
Qed.

Lemma updates_of_cons (user : string) (update : string * LogEntry)
    (rest : list (string * LogEntry)) :
  updates_of user (update :: rest)
  = ((if decide (fst update = user) then 1 else 0) + updates_of user rest)%N.
Proof.
  unfold updates_of. rewrite filter_cons.
  destruct (decide (fst update = user)); simpl; lia.
Qed.

(** X16. Whatever updates are run, for whatever users and in whatever
    order, a summary that the document holds is never removed, the instant
    at which its user was first seen never changes, and its number of
    requests never decreases and grows by at most the number of updates
    for its user. *)
Theorem summaries_only_grow (updates : list (string * LogEntry))
    (document : option (gmap string UserSummary)) (user : string) (s : UserSummary) :
  getUserStats user document = Own s ->
  exists s',
    getUserStats user (run_updates updates document) = Own s' /\
    firstSeen s' = firstSeen s /\
    (totalRequests s <= totalRequests s' <= totalRequests s + updates_of user updates)%N.
Proof.
  unfold run_updates. revert document s.
  induction updates as [|update rest IH]; intros document s Hs; simpl.
  - exists s. unfold updates_of. simpl. repeat split; [assumption | lia | lia].
  - destruct (update_keeps_summary (fst update) user (snd update) _ _ Hs)
      as (s1 & Hs1 & Hf1 & Hlo & Hhi).
    destruct (IH _ _ Hs1) as (s' & Hs' & Hf & Hlo' & Hhi').
    exists s'. rewrite updates_of_cons. repeat split; [assumption | congruence | lia | lia].
Qed.

(** Three updates, two of them for the user. *)
Lemma summaries_only_grow_witness :
  let e := logEntry 1700000000000 "u1" "/chat/completions" (Some "gpt-4o") None in
  let document := updateUserSummary "u1" e None in
  exists s s',
    getUserStats "u1" document = Own s /\
    getUserStats "u1" (run_updates [("u1", e); ("u2", e); ("u1", e)] document) = Own s' /\
    firstSeen s' = firstSeen s /\
    (totalRequests s <= totalRequests s'
     <= totalRequests s + updates_of "u1" [("u1", e); ("u2", e); ("u1", e)])%N.
Proof.
  cbv zeta.
  destruct (update_unseen_summary "u1"
              (logEntry 1700000000000 "u1" "/chat/completions" (Some "gpt-4o") None)
              None eq_refl eq_refl) as (s & Hs).
  exists s.
  destruct (summaries_only_grow
              [("u1", logEntry 1700000000000 "u1" "/chat/completions" (Some "gpt-4o") None);
               ("u2", logEntry 1700000000000 "u1" "/chat/completions" (Some "gpt-4o") None);
               ("u1", logEntry 1700000000000 "u1" "/chat/completions" (Some "gpt-4o") None)]
              _ "u1" s Hs) as (s' & Hs' & Hrest).
  exists s'. split; [exact Hs |]. split; [exact Hs' | exact Hrest].
Defined.

Lemma update_without_counters (userId : string) (entry : LogEntry)
    (summaries : gmap string UserSummary) (s : UserSummary) :
  summaries !! userId = Some s -> providerCounts s = None ->
  updateUserSummary userId entry (Some summaries) = Some summaries.
Proof.
  intros Hs Hc. unfold updateUserSummary. simpl. rewrite Hs. simpl. now rewrite Hc.
Qed.

Lemma updates_without_counters (userId : string) (entries : list LogEntry)
    (summaries : gmap string UserSummary) (s : UserSummary) :
  summaries !! userId = Some s -> providerCounts s = None ->
  sequential_updates userId entries (Some summaries) = Some summaries.
Proof.
  intros Hs Hc. unfold sequential_updates.
  induction entries as [|entry rest IH]; simpl; [reflexivity |].
  now rewrite (update_without_counters _ _ _ _ Hs Hc).
Qed.

(** Under a user id that names an inherited member, without a summary of
    the document's own, no update writes. *)
Lemma updates_under_member (userId : string) (entries : list LogEntry)
    (document : option (gmap string UserSummary)) :
  inherited userId = true -> default ∅ document !! userId = None ->
  sequential_updates userId entries document = document.
Proof.
  intros Hi Hl. unfold sequential_updates.
  induction entries as [|entry rest IH]; simpl; [reflexivity |].
  assert (Hu : updateUserSummary userId entry document = document).
  { unfold updateUserSummary. cbv zeta. rewrite Hl. unfold member. now rewrite Hi. }
  now rewrite Hu.
Qed.

(** X17. A user whose summary was created by the earlier logger is never
    updated by the present one: the summary has no provider counters,
    reading them throws, and each update is dropped without a write, so
    that the document stays as the earlier logger left it, however many
    calls of the user follow. *)
Theorem earlier_summaries_never_updated (userId : string) (first : LogEntry)
    (entries : list LogEntry) (document : option (gmap string UserSummary)) :
  unseen userId document ->
  sequential_updates userId entries (LoggerV1.updateUserSummary userId first document)
  = LoggerV1.updateUserSummary userId first document.
Proof.
  intros Hu. apply SummaryFacts.unseen_lookup in Hu.
  unfold LoggerV1.updateUserSummary. cbv zeta. rewrite Hu. unfold member.
  destruct (inherited userId) eqn:Ei.
  - now apply updates_under_member.
  - eapply updates_without_counters; [apply lookup_insert_eq | reflexivity].
Qed.

(** After one call under the earlier logger, two calls under the present
    one leave the request count at one. *)
Lemma earlier_summaries_never_updated_witness :
  let e := logEntry 1700000000000 "u1" "/chat/completions" (Some "gpt-4o") None in
  unseen "u1" None /\
  sequential_updates "u1" two_calls (LoggerV1.updateUserSummary "u1" e None)
  = LoggerV1.updateUserSummary "u1" e None.
Proof.
  cbv zeta.
  assert (Hu : unseen "u1" None) by reflexivity.
  split; [exact Hu |].
  exact (earlier_summaries_never_updated "u1" _ two_calls None Hu).
Defined.

End LedgerFacts.

(** ** The recent-log query: reach, order and window *)

Module QueryFacts.
Import Js Logger LoggerSpec RecentLogsFacts.

Section Query.

Context {Json : Type}.
Variable JSON_parse : string -> option Json.
Variable entry_time : Json -> option Z.
Variable setDate : Z -> Z -> Z.

Lemma day_bounds (t : Z) :
  (utc_day t * 86400000 <= t < (utc_day t + 1) * 86400000)%Z.
Proof.
  unfold utc_day.
  pose proof (Z.mod_pos_bound t 86400000 ltac:(lia)).
  pose proof (Z.div_mod t 86400000 ltac:(lia)). lia.
Qed.

(** X18. On a clock that moves by whole days, and the entries being filed
    by day, an entry that [getRecentLogs] returns is of today or of one of
    the two UTC days before, so that it is less than three days old,
    however large [hours] is; and its age is at most [hours]. *)
Theorem recent_logs_reach (now hours : Z) (files : gmap Z string) (entry : Json) :
  whole_days setDate now ->
  well_filed JSON_parse entry_time files ->
  In entry (getRecentLogs JSON_parse entry_time setDate now hours files) ->
  exists t,
    entry_time entry = Some t /\
    (utc_day now - 2 <= utc_day t <= utc_day now)%Z /\
    (now - t < 3 * 86400000)%Z /\
    (now - t <= hours * 3600000)%Z.
Proof.
  intros Hw Hwf Hin. apply in_recent_logs in Hin as [Hin Hr].
  unfold is_recent in Hr. destruct (entry_time entry) as [t|] eqn:Ht; [| discriminate].
  apply Z.leb_le in Hr.
  apply (in_whole_days _ entry_time _ _ _ _ Hw) in Hin as (i & line & Hi & Hline & Hp).
  pose proof (Hwf _ _ _ _ Hline Hp Ht) as Hday.
  exists t. split; [reflexivity |]. split; [lia |]. split; [| exact Hr].
  pose proof (day_bounds t). pose proof (day_bounds now). nia.
Qed.

Lemma place_same_instant (t : Z) (x : Json) (sorted : list Json) :
  filter (fun e => entry_time e = Some t) (place entry_time x sorted)
  = filter (fun e => entry_time e = Some t) (x :: sorted).
Proof.
  induction sorted as [|y rest IH]; [reflexivity |]. cbn [place].
  destruct (sorts_before entry_time y x) eqn:Eb; [| reflexivity].
  rewrite (filter_cons _ y), IH, !(filter_cons _ x), (filter_cons _ y).
  destruct (decide (entry_time y = Some t)) as [Hy|Hy]; [| reflexivity].
  destruct (decide (entry_time x = Some t)) as [Hx|Hx]; [| reflexivity].
  unfold sorts_before in Eb. rewrite Hy, Hx in Eb.
  apply Z.ltb_lt in Eb. lia.
Qed.

Lemma sort_same_instant (t : Z) (logs : list Json) :
  filter (fun e => entry_time e = Some t) (sort_by_time entry_time logs)
  = filter (fun e => entry_time e = Some t) logs.
Proof.
  induction logs as [|x rest IH]; [reflexivity |].
  cbn [sort_by_time foldr]. rewrite place_same_instant, !(filter_cons _ x).
  unfold sort_by_time in IH. now rewrite IH.
Qed.

(** X19. Entries of one and the same instant are returned in the order in
    which they are read: file by file in the order in which the three
    files are read, and within a file line by line. *)
Theorem recent_logs_ties_in_reading_order (now hours t : Z) (files : gmap Z string) :
  filter (fun e => entry_time e = Some t)
         (getRecentLogs JSON_parse entry_time setDate now hours files)
  = filter (fun e => entry_time e = Some t)
      (filter (fun e => is_recent entry_time now hours e = true)
              (omap JSON_parse
                 (lines_of files (utc_day (setDate now 0))
                  ++ lines_of files (utc_day (setDate now 1))
                  ++ lines_of files (utc_day (setDate now 2))))).
Proof.
  unfold getRecentLogs. rewrite read_three_days, sort_same_instant.
  unfold parsed_entries, days_read. simpl. now rewrite app_nil_r.
Qed.

Lemma place_in_front (x : Json) (sorted : list Json) :
  Forall (fun z => sorts_before entry_time z x = false) sorted ->
  place entry_time x sorted = x :: sorted.
Proof.
  destruct sorted as [|y rest]; [reflexivity |]. intros H.
  apply Forall_cons in H as [Hy _]. cbn [place]. now rewrite Hy.
Qed.

Lemma behind_the_first (x y : Json) (rest : list Json) :
  sorts_before entry_time y x = false ->
  Forall (newer_first entry_time y) rest ->
  Forall (fun z => sorts_before entry_time z x = false) (y :: rest).
Proof.
  intros Hy Hall. constructor; [exact Hy |].
  eapply Forall_impl; [exact Hall |]. cbv beta.
  intros z (ty & tz & Ety & Etz & Hle).
  unfold sorts_before in *. rewrite Ety in Hy. rewrite Etz.
  destruct (entry_time x) as [tx|]; [| reflexivity].
  apply Z.ltb_ge in Hy. apply Z.ltb_ge. lia.
Qed.

Lemma filter_place (P : Json -> Prop) `{forall e, Decision (P e)}
    (x : Json) (sorted : list Json) :
  StronglySorted (newer_first entry_time) sorted ->
  filter P (place entry_time x sorted)
  = if decide (P x) then place entry_time x (filter P sorted) else filter P sorted.
Proof.
  induction sorted as [|y rest IH]; intros Hs.
  - cbn [place]. rewrite filter_cons, filter_nil. destruct (decide (P x)); reflexivity.
  - apply StronglySorted_inv in Hs as [Hrest Hall]. specialize (IH Hrest).
    cbn [place]. destruct (sorts_before entry_time y x) eqn:Eb.
    + rewrite !(filter_cons _ y), IH.
      destruct (decide (P y)), (decide (P x)); try reflexivity.
      cbn [place]. now rewrite Eb.
    + rewrite (filter_cons _ x).
      destruct (decide (P x)); [| reflexivity].
      symmetry. apply place_in_front.
      pose proof (behind_the_first _ _ _ Eb Hall) as Hb.
      rewrite Forall_forall in Hb. apply Forall_forall.
      intros z Hz. apply Hb. now apply list_elem_of_filter in Hz as [_ Hz].
Qed.

Lemma filter_sort (P : Json -> Prop) `{forall e, Decision (P e)} (logs : list Json) :
  Forall (fun e => is_Some (entry_time e)) logs ->
  filter P (sort_by_time entry_time logs) = sort_by_time entry_time (filter P logs).
Proof.
  induction logs as [|x rest IH]; intros Htimed; [reflexivity |].
  apply Forall_cons in Htimed as [_ Hrest].
  change (sort_by_time entry_time (x :: rest))
    with (place entry_time x (sort_by_time entry_time rest)).
  rewrite filter_place by now apply sort_sorted.
  rewrite (IH Hrest), filter_cons. destruct (decide (P x)); reflexivity.
Qed.

Lemma narrower_window (now hours hours' : Z) (logs : list Json) :
  (hours <= hours')%Z ->
  filter (fun e => is_recent entry_time now hours e = true)
         (filter (fun e => is_recent entry_time now hours' e = true) logs)
  = filter (fun e => is_recent entry_time now hours e = true) logs.
Proof.
  intros Hle. induction logs as [|x rest IH]; [reflexivity |].
  rewrite (filter_cons _ x).
  destruct (decide (is_recent entry_time now hours' x = true)) as [Hx'|Hx'].
  - rewrite !(filter_cons _ x), IH. reflexivity.
  - rewrite IH, (filter_cons _ x). rewrite decide_False; [reflexivity |].
    intros Hx. apply Hx'. unfold is_recent in *.
    destruct (entry_time x); [| discriminate].
    apply Z.leb_le in Hx. apply Z.leb_le. lia.
Qed.

(** X20. Asking for fewer hours returns what asking for more hours
    returns, without the entries that are too old and in the same order:
    widening the window only adds entries. *)
Theorem recent_logs_narrower_window (now hours hours' : Z) (files : gmap Z string) :
  (hours <= hours')%Z ->
  getRecentLogs JSON_parse entry_time setDate now hours files
  = filter (fun e => is_recent entry_time now hours e = true)
           (getRecentLogs JSON_parse entry_time setDate now hours' files).
Proof.
  intros Hle. unfold getRecentLogs. rewrite !read_three_days.
  rewrite filter_sort.
  - now rewrite narrower_window.
  - apply Forall_forall. intros e He.
    apply list_elem_of_filter in He as [He _]. exact (recent_timed _ _ _ _ He).
Qed.

End Query.

Lemma recent_logs_reach_witness :
  whole_days utc_setDate demo_now /\
  well_filed demo_parse Some demo_files /\
  In 324000000%Z (getRecentLogs demo_parse Some utc_setDate demo_now 100 demo_files) /\
  exists t,
    Some 324000000%Z = Some t /\
    (utc_day demo_now - 2 <= utc_day t <= utc_day demo_now)%Z /\
    (demo_now - t < 3 * 86400000)%Z /\
    (demo_now - t <= 100 * 3600000)%Z.
Proof.
  assert (Hin : In 324000000%Z
                   (getRecentLogs demo_parse Some utc_setDate demo_now 100 demo_files)).
  { vm_compute. left. reflexivity. }
  split; [exact (utc_whole_days demo_now) |].
  split; [exact demo_well_filed |]. split; [exact Hin |].
  exact (recent_logs_reach demo_parse Some utc_setDate demo_now 100 demo_files _
           (utc_whole_days demo_now) demo_well_filed Hin).
Defined.

Lemma recent_logs_narrower_window_witness :
  (1 <= 24)%Z /\
  getRecentLogs demo_parse Some utc_setDate demo_now 1 demo_files
  = filter (fun e => is_recent Some demo_now 1 e = true)
           (getRecentLogs demo_parse Some utc_setDate demo_now 24 demo_files).
Proof.
  assert (Hle : (1 <= 24)%Z) by lia.
  split; [exact Hle |].
  exact (recent_logs_narrower_window demo_parse Some utc_setDate demo_now 1 24
           demo_files Hle).
Defined.

End QueryFacts.

(** ** The analytics routes over what the logger records *)

Module AnalyticsFacts.
Import Js Logger LoggerSpec LedgerSpec AnalyticsSpec SummaryFacts LedgerFacts.

Lemma measure_insert_new {A : Type} (f : A -> N) (k : string) (v : A)
    (m : gmap string A) :
  m !! k = None ->
  map_fold (fun _ x total => (total + f x)%N) 0%N (<[k := v]> m)
  = (map_fold (fun _ x total => (total + f x)%N) 0%N m + f v)%N.
Proof.
  intros Hk. rewrite map_fold_insert_L; [reflexivity | | exact Hk].
  intros. lia.
Qed.

Lemma measure_insert {A : Type} (f : A -> N) (k : string) (v : A)
    (m : gmap string A) :
  (map_fold (fun _ x total => (total + f x)%N) 0%N (<[k := v]> m)
   + default 0 (f <$> m !! k)
   = map_fold (fun _ x total => (total + f x)%N) 0%N m + f v)%N.
Proof.
  destruct (m !! k) as [x|] eqn:E; simpl.
  - rewrite <- (insert_delete_eq m k v).
    rewrite <- (insert_delete_id m k x E) at 2.
    rewrite !measure_insert_new by apply lookup_delete_eq. lia.
  - rewrite measure_insert_new by exact E. lia.
Qed.

Lemma sum_counts_empty : sum_counts ∅ = 0%N.
Proof. apply map_fold_empty. Qed.

Lemma sum_counts_insert_new (key : string) (c : Count) (counts : gmap string Count) :
  counts !! key = None ->
  sum_counts (<[key := c]> counts) = (sum_counts counts + counted c)%N.
Proof. apply (measure_insert_new counted). Qed.

Lemma sum_counts_insert (key : string) (c : Count) (counts : gmap string Count) :
  (sum_counts (<[key := c]> counts) + default 0 (counted <$> counts !! key)
   = sum_counts counts + counted c)%N.
Proof. apply (measure_insert counted). Qed.

Lemma plain_counts_empty : plain_counts ∅.
Proof. intros key c H. rewrite lookup_empty in H. discriminate. Qed.

Lemma plain_counts_insert (key : string) (n : N) (counts : gmap string Count) :
  plain key -> plain_counts counts -> plain_counts (<[key := Number n]> counts).
Proof.
  intros Hk Hc k c H. destruct (decide (key = k)) as [->|Hne].
  - rewrite lookup_insert_eq in H. inversion H. split; [exact Hk | eauto].
  - rewrite lookup_insert_ne in H by assumption. exact (Hc _ _ H).
Qed.

Lemma plain_counts_inserted (key : string) (c : Count) (counts : gmap string Count) :
  counts !! key = None -> plain_counts (<[key := c]> counts) ->
  plain_counts counts /\ plain key /\ exists n, c = Number n.
Proof.
  intros Hnone H. split.
  - intros k c' Hk. apply (H k c').
    rewrite lookup_insert_ne; [exact Hk | congruence].
  - apply (H key c), lookup_insert_eq.
Qed.

(** Counting up under a plain key keeps the counters numbers, and adds
    one to their sum. *)
Lemma bump_plain (key : string) (counts : gmap string Count) :
  plain key -> plain_counts counts ->
  plain_counts (bump key counts) /\
  sum_counts (bump key counts) = (sum_counts counts + 1)%N.
Proof.
  intros Hk Hc. unfold bump.
  destruct (counts !! key) as [c|] eqn:E.
  - destruct (Hc _ _ E) as [_ [n ->]]. simpl. split.
    + now apply plain_counts_insert.
    + pose proof (sum_counts_insert key (Number (n + 1)) counts) as H.
      rewrite E in H. simpl in H. lia.
  - rewrite (plain_not_proto _ Hk), (member_plain _ Hk). simpl. split.
    + now apply plain_counts_insert.
    + rewrite sum_counts_insert_new by exact E. reflexivity.
Qed.

Lemma add_count_plain (model : string) (n : N) (breakdown : gmap string Count) :
  plain model -> plain_counts breakdown ->
  plain_counts (Analytics.add_count model (Number n) breakdown) /\
  sum_counts (Analytics.add_count model (Number n) breakdown)
  = (sum_counts breakdown + n)%N.
Proof.
  intros Hk Hc. unfold Analytics.add_count.
  destruct (breakdown !! model) as [c|] eqn:E.
  - destruct (Hc _ _ E) as [_ [m ->]]. simpl. split.
    + now apply plain_counts_insert.
    + pose proof (sum_counts_insert model (Number (m + n)) breakdown) as H.
      rewrite E in H. simpl in H. lia.
  - unfold plain in Hk. rewrite Hk. simpl. split.
    + now apply plain_counts_insert.
    + rewrite sum_counts_insert_new by exact E. reflexivity.
Qed.

Lemma counts_added (breakdown counts : gmap string Count) :
  plain_counts breakdown -> plain_counts counts ->
  plain_counts (map_fold Analytics.add_count breakdown counts) /\
  sum_counts (map_fold Analytics.add_count breakdown counts)
  = (sum_counts breakdown + sum_counts counts)%N.
Proof.
  intros Hb.
  apply (map_fold_weak_ind
           (fun r m => plain_counts m ->
                       plain_counts r /\
                       sum_counts r = (sum_counts breakdown + sum_counts m)%N)).
  - intros _. split; [exact Hb |]. rewrite sum_counts_empty. lia.
  - intros model c m r Hm IH Hplain.
    destruct (plain_counts_inserted _ _ _ Hm Hplain) as (Hpm & Hk & n & ->).
    destruct (IH Hpm) as [Hr Hsum].
    destruct (add_count_plain model n r Hk Hr) as [Hr' Hsum'].
    split; [exact Hr' |].
    rewrite Hsum', Hsum, (sum_counts_insert_new _ _ _ Hm). simpl. lia.
Qed.

Lemma balanced_inserted (user : string) (s : UserSummary)
    (stats : gmap string UserSummary) :
  stats !! user = None -> balanced (<[user := s]> stats) ->
  balanced stats /\ plain_counts (modelCounts s) /\
  sum_counts (modelCounts s) = totalRequests s.
Proof.
  intros Hnone H. split.
  - intros u s' Hu. apply (H u s').
    rewrite lookup_insert_ne; [exact Hu | congruence].
  - apply (H user s), lookup_insert_eq.
Qed.

(** The model breakdown of a balanced document holds numbers, which add
    up to the total of the requests. *)
Lemma balanced_breakdown (stats : gmap string UserSummary) :
  balanced stats ->
  plain_counts (Analytics.modelBreakdown stats) /\
  sum_counts (Analytics.modelBreakdown stats) = Analytics.totalRequests stats.
Proof.
  unfold Analytics.modelBreakdown.
  apply (map_fold_weak_ind
           (fun r m => balanced m ->
                       plain_counts r /\ sum_counts r = Analytics.totalRequests m)).
  - intros _. split; [apply plain_counts_empty |].
    rewrite sum_counts_empty. symmetry. apply map_fold_empty.
  - intros user s m r Hm IH Hb.
    destruct (balanced_inserted _ _ _ Hm Hb) as (Hbm & Hplain & Hsum).
    destruct (IH Hbm) as [Hr Hrsum].
    destruct (counts_added r (modelCounts s) Hr Hplain) as [Hr' Hsum'].
    split; [exact Hr' |].
    unfold Analytics.totalRequests.
    rewrite (measure_insert_new totalRequests) by exact Hm.
    fold (Analytics.totalRequests m). rewrite Hsum', Hrsum, Hsum. reflexivity.
Qed.

Lemma balanced_empty : balanced ∅.
Proof. intros user s H. rewrite lookup_empty in H. discriminate. Qed.

(** What an update under a plain user id does to a document whose
    summaries have provider counters. *)
Lemma update_recorded (userId : string) (entry : LogEntry)
    (document : option (gmap string UserSummary)) :
  plain userId ->
  (forall s, default ∅ document !! userId = Some s -> is_Some (providerCounts s)) ->
  updateUserSummary userId entry document
  = Some (<[userId := record (default (fresh_summary entry)
                                      (default ∅ document !! userId)) entry]>
            (default ∅ document)).
Proof.
  intros Hp Hc. destruct (default ∅ document !! userId) as [s|] eqn:E.
  - destruct document as [summaries|];
      [| exfalso; revert E; simpl; rewrite lookup_empty; discriminate].
    exact (update_seen _ _ _ _ E (Hc s eq_refl)).
  - unfold updateUserSummary. cbv zeta. rewrite E, (member_plain _ Hp). reflexivity.
Qed.

Lemma record_balanced (s : UserSummary) (entry : LogEntry) :
  plain (property_key (entry_model entry)) ->
  is_Some (providerCounts s) /\ plain_counts (modelCounts s) /\
  sum_counts (modelCounts s) = totalRequests s ->
  is_Some (providerCounts (record s entry)) /\
  plain_counts (modelCounts (record s entry)) /\
  sum_counts (modelCounts (record s entry)) = totalRequests (record s entry).
Proof.
  intros Hm (Hc & Hplain & Hsum).
  destruct (bump_plain _ _ Hm Hplain) as [Hplain' Hsum'].
  split; [now apply record_keeps_counters |]. split; [exact Hplain' |].
  cbn [record modelCounts totalRequests]. rewrite Hsum', Hsum. reflexivity.
Qed.

Lemma fresh_balanced (entry : LogEntry) :
  is_Some (providerCounts (fresh_summary entry)) /\
  plain_counts (modelCounts (fresh_summary entry)) /\
  sum_counts (modelCounts (fresh_summary entry)) = totalRequests (fresh_summary entry).
Proof.
  split; [eexists; reflexivity |].
  split; [apply plain_counts_empty | apply sum_counts_empty].
Qed.

(** One update of a balanced document, under plain keys. *)
Lemma update_balanced (userId : string) (entry : LogEntry)
    (document : option (gmap string UserSummary)) :
  plain userId -> plain (property_key (entry_model entry)) ->
  balanced (default ∅ document) ->
  exists stats,
    updateUserSummary userId entry document = Some stats /\
    balanced stats /\
    Analytics.totalRequests stats
    = (Analytics.totalRequests (default ∅ document) + 1)%N /\
    (size stats <= S (size (default ∅ document)))%nat.
Proof.
  intros Hp Hm Hb.
  assert (Hc : forall s, default ∅ document !! userId = Some s ->
                         is_Some (providerCounts s))
    by (intros s Hs; apply (Hb _ _ Hs)).
  rewrite (update_recorded _ _ _ Hp Hc).
  set (summaries := default ∅ document) in *.
  assert (Hs : is_Some (providerCounts (default (fresh_summary entry) (summaries !! userId)))
               /\ plain_counts (modelCounts (default (fresh_summary entry) (summaries !! userId)))
               /\ sum_counts (modelCounts (default (fresh_summary entry) (summaries !! userId)))
                  = totalRequests (default (fresh_summary entry) (summaries !! userId))).
  { destruct (summaries !! userId) as [s|] eqn:E; [exact (Hb _ _ E) | apply fresh_balanced]. }
  eexists. split; [reflexivity |]. split; [| split].
  - intros user s Hu. destruct (decide (userId = user)) as [->|Hne].
    + rewrite lookup_insert_eq in Hu. inversion Hu; subst s.
      now apply record_balanced.
    + rewrite lookup_insert_ne in Hu by exact Hne. exact (Hb _ _ Hu).
  - unfold Analytics.totalRequests.
    match goal with |- map_fold _ _ (<[_ := ?s']> _) = _ =>
      pose proof (measure_insert totalRequests userId s' summaries) as H end.
    cbn [record totalRequests] in H.
    destruct (summaries !! userId) as [s|] eqn:E; simpl in H |- *; lia.
  - rewrite map_size_insert. destruct (summaries !! userId); simpl; lia.
Qed.

(** A run of updates of a balanced document, under plain keys. *)
Lemma run_balanced (updates : list (string * LogEntry))
    (document : option (gmap string UserSummary)) :
  plain_updates updates ->
  balanced (default ∅ document) ->
  balanced (default ∅ (run_updates updates document)) /\
  Analytics.totalRequests (default ∅ (run_updates updates document))
  = (Analytics.totalRequests (default ∅ document) + N.of_nat (length updates))%N /\
  (size (default ∅ (run_updates updates document))
   <= size (default ∅ document) + length updates)%nat.
Proof.
  unfold run_updates, plain_updates. revert document.
  induction updates as [|update rest IH]; intros document Hplain Hb.
  - simpl. split; [exact Hb |]. split; lia.
  - apply Forall_cons in Hplain as [[Hu Hm] Hrest]. cbn [fold_left].
    destruct (update_balanced (fst update) (snd update) document Hu Hm Hb)
      as (stats & -> & Hb1 & Ht1 & Hz1).
    destruct (IH (Some stats) Hrest Hb1) as (Hb2 & Ht2 & Hz2).
    split; [exact Hb2 |]. split.
    + change (default ∅ (Some stats)) with stats in Ht2.
      rewrite Ht2, Ht1. cbn [length]. lia.
    + change (default ∅ (Some stats)) with stats in Hz2. cbn [length]. lia.
Qed.

(** X22. When the logger starts without a summary document, then after
    any updates, of whatever users and in whatever order, whose user ids
    and model names are plain keys, the analytics routes report as many
    requests as there were updates, the counts of the model breakdown are
    numbers that add up to that same number, and there are at most as
    many users as updates. *)
Theorem analytics_totals_count_calls (updates : list (string * LogEntry)) :
  plain_updates updates ->
  let stats := getAllUserStats (run_updates updates None) in
  Analytics.totalRequests stats = N.of_nat (length updates) /\
  plain_counts (Analytics.modelBreakdown stats) /\
  sum_counts (Analytics.modelBreakdown stats) = N.of_nat (length updates) /\
  (Analytics.totalUsers stats <= N.of_nat (length updates))%N.
Proof.
  intros Hplain. cbv zeta. unfold getAllUserStats.
  destruct (run_balanced updates None Hplain balanced_empty) as (Hb & Ht & Hz).
  change (default ∅ None) with (∅ : gmap string UserSummary) in Ht, Hz.
  unfold Analytics.totalRequests at 2 in Ht. rewrite map_fold_empty in Ht.
  rewrite map_size_empty in Hz.
  destruct (balanced_breakdown _ Hb) as [Hnum Hsum].
  split; [rewrite Ht; lia |]. split; [exact Hnum |]. split.
  - rewrite Hsum, Ht. lia.
  - unfold Analytics.totalUsers. lia.
Qed.

(** Three calls of two users. *)
Lemma analytics_totals_count_calls_witness :
  let e := logEntry 1700000000000 "u1" "/chat/completions" (Some "gpt-4o") None in
  let updates := [("u1", e); ("u2", e); ("u1", e)] in
  plain_updates updates /\
  Analytics.totalRequests (getAllUserStats (run_updates updates None)) = 3%N /\
  sum_counts (Analytics.modelBreakdown (getAllUserStats (run_updates updates None))) = 3%N.
Proof.
  cbv zeta.
  assert (Hplain : plain_updates
                     [("u1", logEntry 1700000000000 "u1" "/chat/completions" (Some "gpt-4o") None);
                      ("u2", logEntry 1700000000000 "u1" "/chat/completions" (Some "gpt-4o") None);
                      ("u1", logEntry 1700000000000 "u1" "/chat/completions" (Some "gpt-4o") None)])
    by (repeat constructor).
  split; [exact Hplain |].
  destruct (analytics_totals_count_calls _ Hplain) as (Ht & _ & Hs & _).
  split; [exact Ht | exact Hs].
Defined.

(** One update keeps the provider counters, and puts one more request of
    its user on record. *)
Lemma update_on_record (userId user : string) (entry : LogEntry) (n : N)
    (document : option (gmap string UserSummary)) :
  (forall u s, stored u document = Some s -> is_Some (providerCounts s)) ->
  plain user -> on_record user n document ->
  (forall u s, stored u (updateUserSummary userId entry document) = Some s ->
               is_Some (providerCounts s)) /\
  on_record user (n + (if decide (userId = user) then 1 else 0))%N
            (updateUserSummary userId entry document).
Proof.
  intros Hc Hp Hn. unfold on_record in *.
  rewrite (plain_user_stats user document Hp) in Hn.
  rewrite (plain_user_stats user _ Hp).
  destruct (decide (userId = user)) as [->|Hne].
  - assert (Hc' : forall s, default ∅ document !! user = Some s ->
                            is_Some (providerCounts s))
      by (intros s Hs; apply (Hc user s); now rewrite stored_lookup).
    rewrite (update_recorded _ _ _ Hp Hc').
    rewrite stored_lookup in Hn. split.
    + intros u s. rewrite stored_lookup. simpl.
      destruct (decide (user = u)) as [<-|Hu].
      * rewrite lookup_insert_eq. intros H. inversion H.
        apply record_keeps_counters.
        destruct (default ∅ document !! user) as [s0|] eqn:E;
          [exact (Hc' s0 eq_refl) | simpl; eauto].
      * rewrite lookup_insert_ne by exact Hu. intros H.
        apply (Hc u s). now rewrite stored_lookup.
    + rewrite stored_lookup. simpl. rewrite lookup_insert_eq.
      cbn [record totalRequests].
      destruct (default ∅ document !! user) as [s0|]; simpl.
      * destruct Hn as [<- _]. split; lia.
      * subst n. split; [reflexivity | lia].
  - assert (Hne' : user <> userId) by congruence.
    rewrite (other_user_stored userId user entry document Hne'), N.add_0_r.
    split; [| exact Hn].
    destruct (update_shape userId entry document) as [-> | (s' & -> & Hs' & _)];
      [exact Hc |].
    intros u s. rewrite stored_lookup. simpl.
    destruct (decide (userId = u)) as [<-|Hu].
    + rewrite lookup_insert_eq. intros H. now inversion H; subst.
    + rewrite lookup_insert_ne by exact Hu. intros H.
      apply (Hc u s). now rewrite stored_lookup.
Qed.

Lemma run_on_record (updates : list (string * LogEntry)) (user : string) :
  plain user ->
  forall (document : option (gmap string UserSummary)) (n : N),
    (forall u s, stored u document = Some s -> is_Some (providerCounts s)) ->
    on_record user n document ->
    on_record user (n + updates_of user updates)%N (run_updates updates document).
Proof.
  intros Hp. unfold run_updates.
  induction updates as [|update rest IH]; intros document n Hc Hn.
  - unfold updates_of. simpl. now rewrite N.add_0_r.
  - cbn [fold_left]. rewrite updates_of_cons.
    destruct (update_on_record (fst update) user (snd update) n document Hc Hp Hn)
      as [Hc1 Hn1].
    specialize (IH _ _ Hc1 Hn1). now rewrite <- N.add_assoc in IH.
Qed.

(** X23. When the logger starts without a summary document and no update
    is for the user id [__proto__], the route of a user whose id is a
    plain key answers "User not found" exactly as long as no update of the
    user has run, and afterwards the summary of the user, whose number of
    requests is the number of updates of the user, whatever updates of
    other users came in between. *)
Theorem analytics_user_counts_calls (updates : list (string * LogEntry))
    (userId : string) :
  ordinary_users updates ->
  plain userId ->
  match Analytics.analytics_user userId (run_updates updates None) with
  | Analytics.UserNotFound error _ =>
      error = "User not found" /\ updates_of userId updates = 0%N
  | Analytics.UserStats stats =>
      totalRequests stats = updates_of userId updates /\
      updates_of userId updates <> 0%N
  | Analytics.UserMember => False
  end.
Proof.
  intros _ Hp.
  assert (Hc : forall u s, stored u None = Some s -> is_Some (providerCounts s))
    by (intros u s H; discriminate).
  pose proof (run_on_record updates userId Hp None 0%N Hc eq_refl) as Hr.
  rewrite N.add_0_l in Hr.
  unfold on_record in Hr. unfold Analytics.analytics_user.
  destruct (getUserStats userId (run_updates updates None)).
  - exact Hr.
  - exact Hr.
  - split; [reflexivity | exact Hr].
Qed.

(** Three calls, two of them of the user. *)
Lemma analytics_user_counts_calls_witness :
  let e := logEntry 1700000000000 "u1" "/chat/completions" (Some "gpt-4o") None in
  let updates := [("u1", e); ("constructor", e); ("u1", e)] in
  (ordinary_users updates /\ plain "u1") /\
  exists stats,
    Analytics.analytics_user "u1" (run_updates updates None) = Analytics.UserStats stats /\
    totalRequests stats = 2%N.
Proof.
  cbv zeta.
  assert (Hp : plain "u1") by reflexivity.
  assert (Ho : ordinary_users
                 [("u1", logEntry 1700000000000 "u1" "/chat/completions" (Some "gpt-4o") None);
                  ("constructor",
                   logEntry 1700000000000 "u1" "/chat/completions" (Some "gpt-4o") None);
                  ("u1", logEntry 1700000000000 "u1" "/chat/completions" (Some "gpt-4o") None)])
    by (repeat constructor; discriminate).
  split; [split; assumption |].
  pose proof (analytics_user_counts_calls
                [("u1", logEntry 1700000000000 "u1" "/chat/completions" (Some "gpt-4o") None);
                 ("constructor",
                  logEntry 1700000000000 "u1" "/chat/completions" (Some "gpt-4o") None);
                 ("u1", logEntry 1700000000000 "u1" "/chat/completions" (Some "gpt-4o") None)]
                "u1" Ho Hp) as H.
  destruct (Analytics.analytics_user "u1" _) as [stats| |error message].
  - exists stats. split; [reflexivity |]. exact (proj1 H).
  - destruct H.
  - destruct H as [_ H]. vm_compute in H. discriminate.
Defined.

End AnalyticsFacts.

(** ** From the reply of a provider to the log entry *)

Module PipelineFacts.
Import Js Server RoutesSpec.

Lemma or_zero_twice (x : option float) : or_zero (Some (or_zero x)) = or_zero x.
Proof.
  destruct x as [v|]; [| reflexivity]. simpl.
  destruct (truthy_number v) eqn:E; [now rewrite E | reflexivity].
Qed.

Lemma metadata_count_logged (data : GeminiReply) (f : UsageMetadata -> option float) :
  or_zero (Some (metadata_count data f)) = metadata_count data f.
Proof.
  unfold metadata_count. destruct (usageMetadata data); [apply or_zero_twice | reflexivity].
Qed.

(** X24. The answer of the Gemini route is logged as a success without
    error, with the three counts of the usage metadata of the reply, each
    zero when missing: the total is the one that Gemini reports, not a sum.
    A reply without usage metadata is logged with no tokens, and at no
    cost when the model that the request names is a plain key. *)
Theorem gemini_reply_logged (now later t : Z) (x_user_id : option string)
    (path sent_model : string) (body : option Body) (data : GeminiReply) :
  let reply := google_transformedResponse now later sent_model data in
  let entry := logged_entry t x_user_id path body (Some (Middleware.logged_completion reply)) in
  Logger.success entry = true /\
  Logger.entry_error entry = None /\
  Logger.tokens entry
  = {| Logger.prompt := metadata_count data promptTokenCount;
       Logger.completion := metadata_count data candidatesTokenCount;
       Logger.total := metadata_count data totalTokenCount |} /\
  (usageMetadata data = None ->
   LoggerSpec.plain (Logger.property_key (body ≫= Server.model)) ->
   Logger.cost entry = 0%float).
Proof.
  cbv zeta. split; [reflexivity |]. split; [reflexivity |]. split.
  - unfold logged_entry, Logger.logEntry. cbn [Logger.tokens]. f_equal.
    + exact (metadata_count_logged data promptTokenCount).
    + exact (metadata_count_logged data candidatesTokenCount).
    + exact (metadata_count_logged data totalTokenCount).
  - intros Hm Hplain.
    unfold logged_entry, Logger.logEntry, Logger.cost, Logger.calculateCost,
      Middleware.logged_completion, google_transformedResponse, metadata_count.
    simpl. rewrite Hm.
    destruct (LedgerFacts.modelPricing_plain (body ≫= Server.model)
                (Logger.detectProvider path (body ≫= Server.model)) Hplain
                (LedgerFacts.detectProvider_plain _ _)) as (p & -> & Hin).
    simpl. pose proof LedgerFacts.rates_of_zero as H. rewrite Forall_forall in H.
    apply (H p), list_elem_of_In, Hin.
Qed.

(** The reply that the safety filter stopped, which has no usage
    metadata. *)
Lemma gemini_reply_logged_witness :
  let reply := google_transformedResponse 1700000000000 1700000000001 "gemini-1.5-flash"
                 ServerSpec.blocked_reply in
  let entry := logged_entry 1700000000002 None "/google/generateContent" None
                 (Some (Middleware.logged_completion reply)) in
  (usageMetadata ServerSpec.blocked_reply = None /\
   LoggerSpec.plain (Logger.property_key None)) /\
  Logger.success entry = true /\
  Logger.tokens entry
  = {| Logger.prompt := 0; Logger.completion := 0; Logger.total := 0 |} /\
  Logger.cost entry = 0%float.
Proof.
  cbv zeta.
  pose proof (gemini_reply_logged 1700000000000 1700000000001 1700000000002 None
                "/google/generateContent" "gemini-1.5-flash" None
                ServerSpec.blocked_reply) as (Hs & _ & Ht & Hc).
  split; [split; reflexivity |]. split; [exact Hs |].
  split; [exact Ht | exact (Hc eq_refl eq_refl)].
Defined.

End PipelineFacts.

